(** * Framework structure analyser: extraction core

    A shallow embedding of [scripts/analyze_framework.py]: the regular
    expressions of the declaration matchers, the brace-counting loop that
    delimits a class body, the five [_extract_*] methods, the printing of
    the tree and of the summary, and [main].

    Python strings are sequences of Unicode code points; a code point is a
    number.  The patterns are run by a backtracking matcher with the
    semantics of Python's [re] module on the constructs the analyser uses:
    ordered alternation, greedy quantifiers, leftmost non-overlapping
    [finditer]. *)

From Stdlib Require Import String Ascii.
From Stdlib Require Import List NArith ZArith Lia Bool Permutation Sorted.
Import ListNotations.

Set Implicit Arguments.

(** ** Strings *)

Definition char := N.
Definition pystr := list char.

(** An ASCII literal of the source as a sequence of code points. *)
Definition str (s : string) : pystr := map N_of_ascii (list_ascii_of_string s).

Definition pystr_eq_dec : forall a b : pystr, {a = b} + {a <> b} :=
  list_eq_dec N.eq_dec.

Definition pystr_eqb (a b : pystr) : bool :=
  if pystr_eq_dec a b then true else false.

(** [x in l] on a Python list of strings. *)
Definition py_in (x : pystr) (l : list pystr) : bool := existsb (pystr_eqb x) l.

(** [s[lo:hi]] for [0 <= lo], [0 <= hi]. *)
Definition slice (s : pystr) (lo hi : nat) : pystr :=
  firstn (hi - lo) (skipn lo s).

(** ** What the interpreter supplies

    [\s] and [\w] of a [str] pattern are Unicode aware.  Their ASCII part is
    fixed; the part above U+007F comes from the Unicode database of the
    running interpreter. *)

Class UnicodeDB := {
  unicode_isspace : char -> bool;
  unicode_isalnum : char -> bool
}.

(** [list(set(xs))]: every element once, in the iteration order of the
    interpreter's hash table, which is a function of the insertion sequence
    (and of the per-process hash seed). *)
Class SetOrder := {
  set_to_list : list pystr -> list pystr;
  set_to_list_NoDup : forall xs, NoDup (set_to_list xs);
  set_to_list_In : forall xs x, In x (set_to_list xs) <-> In x xs
}.

(** One interpreter: nothing above U+007F is a word or space character, and
    a set iterates in order of first insertion. *)
Definition ascii_db : UnicodeDB :=
  {| unicode_isspace := fun _ => false; unicode_isalnum := fun _ => false |}.

Definition first_seen_order : SetOrder :=
  {| set_to_list := nodup pystr_eq_dec;
     set_to_list_NoDup := NoDup_nodup pystr_eq_dec;
     set_to_list_In := fun xs x => nodup_In pystr_eq_dec xs x |}.

(** Another iteration order, as under another hash seed: the reverse.  A set
    of two names iterates in either order, depending on the seed. *)
Definition reverse_seen_order : SetOrder :=
  {| set_to_list := fun xs => rev (nodup pystr_eq_dec xs);
     set_to_list_NoDup := fun xs => NoDup_rev (NoDup_nodup pystr_eq_dec xs);
     set_to_list_In := fun xs x =>
       iff_trans (iff_sym (in_rev (nodup pystr_eq_dec xs) x))
         (nodup_In pystr_eq_dec xs x) |}.

(** ** Character classes *)

Definition ascii_isspace (c : char) : bool :=
  ((9 <=? c) && (c <=? 13) || (28 <=? c) && (c <=? 32))%N.

Definition ascii_isalnum (c : char) : bool :=
  ((48 <=? c) && (c <=? 57) || (65 <=? c) && (c <=? 90)
   || (97 <=? c) && (c <=? 122))%N.

Inductive cls :=
| CSpace                      (* \s *)
| CWord                       (* \w *)
| COneOf (cs : pystr)         (* [...] *)
| CNoneOf (cs : pystr)        (* [^...] *)
| CRange (lo hi : char).      (* [lo-hi] *)

Definition char_in (c : char) (cs : pystr) : bool := existsb (N.eqb c) cs.

Section Classes.
Context {U : UnicodeDB}.

Definition is_space (c : char) : bool :=
  if (c <? 128)%N then ascii_isspace c else unicode_isspace c.

Definition is_word (c : char) : bool :=
  if (c <? 128)%N then ascii_isalnum c || (c =? 95)%N
  else unicode_isalnum c.

Definition cls_mem (k : cls) (c : char) : bool :=
  match k with
  | CSpace => is_space c
  | CWord => is_word c
  | COneOf cs => char_in c cs
  | CNoneOf cs => negb (char_in c cs)
  | CRange lo hi => ((lo <=? c) && (c <=? hi))%N
  end.
End Classes.

(** ** Regular expressions

    The constructs that occur in the analyser's patterns.  Every [*] and [+]
    of the patterns in use applies to a single character class. *)

Inductive regex :=
| Lit (s : pystr)             (* literal text *)
| One (k : cls)               (* one character of a class *)
| Star (k : cls)              (* k*, greedy *)
| Plus (k : cls)              (* k+, greedy *)
| Seq (r1 r2 : regex)         (* r1 r2 *)
| Alt (r1 r2 : regex)         (* r1|r2, left first *)
| Opt (r : regex).            (* (?:r)?, greedy *)

Declare Scope regex_scope.
Delimit Scope regex_scope with re.
Bind Scope regex_scope with regex.
Notation "a ;; b" := (Seq a b) (at level 61, right associativity) : regex_scope.
Notation "a || b" := (Alt a b) : regex_scope.

(** Every pattern in use has the shape [pre(group1)post]: one capturing
    group, at the top level of the concatenation. *)
Record pattern := {
  pre : regex;
  group1 : regex;
  post : regex
}.

(** A match object: [start()], [end()] and [group(1)]. *)
Record re_match := {
  m_start : nat;
  m_end : nat;
  m_group1 : pystr
}.

Fixpoint strip_prefix (l s : pystr) : option pystr :=
  match l with
  | [] => Some s
  | a :: l' =>
      match s with
      | x :: s' => if (x =? a)%N then strip_prefix l' s' else None
      | [] => None
      end
  end.

Section Matcher.
Context {U : UnicodeDB}.

Section Backtrack.
Context {A : Type}.

(** Greedy repetition: take as many characters as the class allows, and
    give them back one at a time while the rest of the pattern fails. *)
Fixpoint star_match (c : cls) (s : pystr) (k : pystr -> option A)
  : option A :=
  match s with
  | x :: s' =>
      if cls_mem c x then
        match star_match c s' k with
        | Some a => Some a
        | None => k s
        end
      else k s
  | [] => k s
  end.

(** [rmatch r s k]: match [r] at the head of [s], then the rest of the
    pattern [k] on what is left; the first success wins. *)
Fixpoint rmatch (r : regex) (s : pystr) (k : pystr -> option A)
  : option A :=
  match r with
  | Lit l =>
      match strip_prefix l s with
      | Some s' => k s'
      | None => None
      end
  | One c =>
      match s with
      | x :: s' => if cls_mem c x then k s' else None
      | [] => None
      end
  | Star c => star_match c s k
  | Plus c =>
      match s with
      | x :: s' => if cls_mem c x then star_match c s' k else None
      | [] => None
      end
  | Seq r1 r2 => rmatch r1 s (fun s' => rmatch r2 s' k)
  | Alt r1 r2 =>
      match rmatch r1 s k with
      | Some a => Some a
      | None => rmatch r2 s k
      end
  | Opt r1 =>
      match rmatch r1 s k with
      | Some a => Some a
      | None => k s
      end
  end.
End Backtrack.

(** The match of [p] that starts exactly at offset [pos], where [s] is the
    text from [pos] on. *)
Definition match_at (p : pattern) (s : pystr) (pos : nat) : option re_match :=
  rmatch (pre p) s (fun s1 =>
  rmatch (group1 p) s1 (fun s2 =>
  rmatch (post p) s2 (fun s3 =>
    Some {| m_start := pos;
            m_end := pos + (length s - length s3);
            m_group1 := firstn (length s1 - length s2) s1 |}))).

(** [re.finditer]: leftmost matches, left to right, none overlapping.
    [skip] counts the characters still covered by the previous match.  No
    pattern of the analyser matches the empty string (see
    [match_at_nonempty]), so the rule for empty matches is never used; here
    an empty match advances by one character. *)
Fixpoint finditer_from (p : pattern) (s : pystr) (pos skip : nat)
  : list re_match :=
  match skip with
  | S n =>
      match s with
      | [] => []
      | _ :: s' => finditer_from p s' (S pos) n
      end
  | O =>
      match match_at p s pos with
      | Some m =>
          m :: match s with
               | [] => []
               | _ :: s' => finditer_from p s' (S pos) (m_end m - pos - 1)
               end
      | None =>
          match s with
          | [] => []
          | _ :: s' => finditer_from p s' (S pos) 0
          end
      end
  end.

Definition finditer (p : pattern) (content : pystr) : list re_match :=
  finditer_from p content 0 0.
End Matcher.

(** ** The patterns of the analyser *)

Definition sp : regex := Plus CSpace.        (* \s+ *)
Definition sp0 : regex := Star CSpace.       (* \s* *)
Definition word : regex := Plus CWord.       (* \w+ *)
(** The two quote characters, U+0027 and U+0022. *)
Definition quotes : pystr := [39; 34]%N.
Definition quote : regex := One (COneOf quotes).   (* one of the two quotes *)

Local Open Scope regex_scope.

(** [import_pattern], with [Q] for the class of the two quote characters:
    [import\s+(?:{[^}]+}|\*\s+as\s+\w+|\w+)\s+from\s+Q([^Q]+)Q] *)
Definition import_pattern : pattern :=
  {| pre := Lit (str "import") ;; sp ;;
            ((Lit (str "{") ;; Plus (CNoneOf (str "}")) ;; Lit (str "}"))
             || (Lit (str "*") ;; sp ;; Lit (str "as") ;; sp ;; word)
             || word) ;;
            sp ;; Lit (str "from") ;; sp ;; quote;
     group1 := Plus (CNoneOf quotes);
     post := quote |}.

(** [import_pattern2]: [import\s+Q([^Q]+)Q] *)
Definition import_pattern2 : pattern :=
  {| pre := Lit (str "import") ;; sp ;; quote;
     group1 := Plus (CNoneOf quotes);
     post := quote |}.

(** [simple_class_pattern]: [(?:export\s+)?(?:abstract\s+)?class\s+(\w+)].
    It is the pattern [_extract_classes] runs; the longer [class_pattern]
    above it in the source is assigned and never used. *)
Definition simple_class_pattern : pattern :=
  {| pre := Opt (Lit (str "export") ;; sp) ;;
            Opt (Lit (str "abstract") ;; sp) ;;
            Lit (str "class") ;; sp;
     group1 := word;
     post := Lit [] |}.

(** [method_pattern]:
    [(?:async\s+)?(?:public\s+|private\s+|protected\s+)?(\w+)\s*\([^)]*\)\s*(?::\s*[^{]+)?\s*{] *)
Definition method_pattern : pattern :=
  {| pre := Opt (Lit (str "async") ;; sp) ;;
            Opt ((Lit (str "public") ;; sp)
                 || (Lit (str "private") ;; sp)
                 || (Lit (str "protected") ;; sp));
     group1 := word;
     post := sp0 ;; Lit (str "(") ;; Star (CNoneOf (str ")")) ;; Lit (str ")") ;;
             sp0 ;; Opt (Lit (str ":") ;; sp0 ;; Plus (CNoneOf (str "{"))) ;;
             sp0 ;; Lit (str "{") |}.

(** [function_patterns], in the order of the source list:
    [(?:export\s+)?(?:async\s+)?function\s+(\w+)\s*\(],
    [(?:export\s+)?const\s+(\w+)\s*=\s*(?:async\s+)?(?:function|\([^)]*\)\s*=>)],
    [(?:export\s+)?const\s+(\w+):\s*\([^)]*\)\s*=>\s*(?:void|Promise|any|[A-Z]\w* )] *)
Definition function_patterns : list pattern :=
  [ {| pre := Opt (Lit (str "export") ;; sp) ;; Opt (Lit (str "async") ;; sp) ;;
              Lit (str "function") ;; sp;
       group1 := word;
       post := sp0 ;; Lit (str "(") |};
    {| pre := Opt (Lit (str "export") ;; sp) ;; Lit (str "const") ;; sp;
       group1 := word;
       post := sp0 ;; Lit (str "=") ;; sp0 ;; Opt (Lit (str "async") ;; sp) ;;
               (Lit (str "function")
                || (Lit (str "(") ;; Star (CNoneOf (str ")")) ;; Lit (str ")") ;;
                    sp0 ;; Lit (str "=>"))) |};
    {| pre := Opt (Lit (str "export") ;; sp) ;; Lit (str "const") ;; sp;
       group1 := word;
       post := Lit (str ":") ;; sp0 ;; Lit (str "(") ;; Star (CNoneOf (str ")")) ;;
               Lit (str ")") ;; sp0 ;; Lit (str "=>") ;; sp0 ;;
               (Lit (str "void") || Lit (str "Promise") || Lit (str "any")
                || (One (CRange 65%N 90%N) ;; Star CWord)) |} ].

(** [interface_pattern]: [(?:export\s+)?interface\s+(\w+)] *)
Definition interface_pattern : pattern :=
  {| pre := Opt (Lit (str "export") ;; sp) ;; Lit (str "interface") ;; sp;
     group1 := word;
     post := Lit [] |}.

(** [type_pattern]: [(?:export\s+)?type\s+(\w+)] *)
Definition type_pattern : pattern :=
  {| pre := Opt (Lit (str "export") ;; sp) ;; Lit (str "type") ;; sp;
     group1 := word;
     post := Lit [] |}.

Local Close Scope regex_scope.

(** ** Dictionaries

    A [dict] keeps its keys in insertion order; assigning to a key that is
    present replaces the value where it stands. *)

Definition dict (V : Type) := list (pystr * V).

Fixpoint dict_set {V} (d : dict V) (k : pystr) (v : V) : dict V :=
  match d with
  | [] => [(k, v)]
  | (k', v') :: d' =>
      if pystr_eqb k' k then (k', v) :: d' else (k', v') :: dict_set d' k v
  end.

Fixpoint dict_get {V} (d : dict V) (k : pystr) : option V :=
  match d with
  | [] => None
  | (k', v') :: d' => if pystr_eqb k' k then Some v' else dict_get d' k
  end.

Definition dict_keys {V} (d : dict V) : list pystr := map fst d.

(** A loop of assignments [d[key m] = val m]. *)
Definition assign_all {V M} (key : M -> pystr) (val : M -> V) (ms : list M)
  (d : dict V) : dict V :=
  fold_left (fun d m => dict_set d (key m) (val m)) ms d.

(** ** The brace-counting loop of [_extract_classes]

    [for i, char in enumerate(content[class_start:], start=class_start)]
    with its [brace_count]; [Some i] is the [break] at index [i], [None] the
    loop running to the end of the text. *)

Definition open_brace : char := 123%N.
Definition close_brace : char := 125%N.

Fixpoint scan_loop (chars : pystr) (i : nat) (brace_count : Z) : option nat :=
  match chars with
  | [] => None
  | c :: rest =>
      if (c =? open_brace)%N then scan_loop rest (S i) (brace_count + 1)%Z
      else if (c =? close_brace)%N then
        let brace_count := (brace_count - 1)%Z in
        if (brace_count =? -1)%Z then Some i
        else scan_loop rest (S i) brace_count
      else scan_loop rest (S i) brace_count
  end.

(** The scan from a start offset: the offset of the closing brace, or not
    found. *)
Definition find_matching_close (content : pystr) (class_start : nat)
  : option nat :=
  scan_loop (skipn class_start content) class_start 0%Z.

(** [class_end] after the loop: initialised to [class_start], overwritten on
    [break]. *)
Definition class_end_of (content : pystr) (class_start : nat) : nat :=
  match find_matching_close content class_start with
  | Some i => i
  | None => class_start
  end.

(** [content[class_start:class_end] if class_end > class_start else ""] *)
Definition class_body_of (content : pystr) (class_start : nat) : pystr :=
  let class_end := class_end_of content class_start in
  if class_start <? class_end then slice content class_start class_end else [].

(** ** The extractors *)

(** The object the methods are called on.  The extractors receive it and use
    none of its fields. *)
Record FrameworkAnalyzer := {
  root_path : pystr;
  ignore_dirs : list pystr;
  ignore_files : list pystr;
  file_extensions : list pystr
}.

Definition method_reserved : list pystr :=
  [str "constructor"; str "if"; str "for"; str "while"; str "switch"].

Definition function_reserved : list pystr :=
  [str "if"; str "for"; str "while"; str "switch"].

(** The four results of analysing one file. *)
Record FileRecord := {
  fr_imports : list pystr;
  fr_classes : dict (list pystr);
  fr_functions : list pystr;
  fr_interfaces : list pystr
}.

Section Extractors.
Context {U : UnicodeDB} {O : SetOrder}.
(** [for match in matches: xs.append(f(match))] *)
Definition append_all (f : re_match -> pystr) (xs : list pystr)
  (matches : list re_match) : list pystr :=
  fold_left (fun xs m => xs ++ [f m]) matches xs.

(** [for match in matches: if name(match) not in reserved: xs.append(...)] *)
Definition append_unreserved (reserved : list pystr) (xs : list pystr)
  (matches : list re_match) : list pystr :=
  fold_left
    (fun xs m => if negb (py_in (m_group1 m) reserved)
                 then xs ++ [m_group1 m] else xs)
    matches xs.

Definition _extract_imports (self : FrameworkAnalyzer) (content : pystr) : list pystr :=
  let imports := [] in
  let imports := append_all m_group1 imports (finditer import_pattern content) in
  fold_left
    (fun imports m => if negb (py_in (m_group1 m) imports)
                      then imports ++ [m_group1 m] else imports)
    (finditer import_pattern2 content) imports.

Definition _extract_class_methods (self : FrameworkAnalyzer)
  (class_body : pystr) : list pystr :=
  let methods :=
    append_unreserved method_reserved [] (finditer method_pattern class_body) in
  set_to_list methods.

(** The body of the loop over the class matches, for one match. *)
Definition class_methods_of (self : FrameworkAnalyzer) (content : pystr)
  (m : re_match) : list pystr :=
  let class_start := m_end m in
  _extract_class_methods self (class_body_of content class_start).

Definition _extract_classes (self : FrameworkAnalyzer) (content : pystr) : dict (list pystr) :=
  fold_left
    (fun classes m => dict_set classes (m_group1 m)
                        (class_methods_of self content m))
    (finditer simple_class_pattern content) [].

Definition _extract_functions (self : FrameworkAnalyzer) (content : pystr) : list pystr :=
  let functions :=
    fold_left
      (fun functions pattern =>
         append_unreserved function_reserved functions (finditer pattern content))
      function_patterns [] in
  set_to_list functions.

Definition _extract_interfaces (self : FrameworkAnalyzer) (content : pystr) : list pystr :=
  let interfaces := [] in
  let interfaces :=
    append_all (fun m => str "interface " ++ m_group1 m) interfaces
      (finditer interface_pattern content) in
  append_all (fun m => str "type " ++ m_group1 m) interfaces
    (finditer type_pattern content).

(** What [_analyze_and_print_file] computes from a file's content, in the
    order it computes it. *)
Definition analyze_content (self : FrameworkAnalyzer) (content : pystr) : FileRecord :=
  let imports := _extract_imports self content in
  let classes := _extract_classes self content in
  let functions := _extract_functions self content in
  let interfaces := _extract_interfaces self content in
  {| fr_imports := imports; fr_classes := classes;
     fr_functions := functions; fr_interfaces := interfaces |}.
End Extractors.

(** ** Well-formed brace structure *)

(** Balanced text: braces pair up and nest; other characters are free. *)
Inductive balanced : pystr -> Prop :=
| balanced_nil : balanced []
| balanced_char c l :
    c <> open_brace -> c <> close_brace -> balanced l -> balanced (c :: l)
| balanced_pair l1 l2 :
    balanced l1 -> balanced l2 ->
    balanced (open_brace :: l1 ++ close_brace :: l2).

(** The nesting depth after reading [l] at depth [d]; [None] when a closing
    brace has no partner. *)
Fixpoint depth_after (d : nat) (l : pystr) : option nat :=
  match l with
  | [] => Some d
  | c :: l' =>
      if (c =? open_brace)%N then depth_after (S d) l'
      else if (c =? close_brace)%N then
        match d with
        | O => None
        | S d' => depth_after d' l'
        end
      else depth_after d l'
  end.

(** [pairs_inserted b b']: [b'] is [b] with further pairs of an opening brace
    and a later closing brace put in, any number of them, anywhere. *)
Inductive pairs_inserted : pystr -> pystr -> Prop :=
| pairs_none b : pairs_inserted b b
| pairs_more b l1 mid l2 :
    pairs_inserted b (l1 ++ mid ++ l2) ->
    pairs_inserted b (l1 ++ open_brace :: mid ++ close_brace :: l2).

Definition count_char (c : char) (s : pystr) : nat := count_occ N.eq_dec s c.

(** No closing brace of [region] takes the count to -1: in every prefix the
    closing braces are at most as many as the opening ones. *)
Definition never_closes (region : pystr) : Prop :=
  forall n, count_char close_brace (firstn n region)
            <= count_char open_brace (firstn n region).

(** The shortest text a regular expression can match. *)
Fixpoint min_len (r : regex) : nat :=
  match r with
  | Lit l => length l
  | One _ => 1
  | Star _ => 0
  | Plus _ => 1
  | Seq r1 r2 => min_len r1 + min_len r2
  | Alt r1 r2 => Nat.min (min_len r1) (min_len r2)
  | Opt _ => 0
  end.

Definition pattern_min_len (p : pattern) : nat :=
  min_len (pre p) + min_len (group1 p) + min_len (post p).

(** The double quote, and the scenario texts that contain it. *)
Definition dq : pystr := [34%N].

Definition foo_source : pystr :=
  str "class Foo { bar() { if (x) { y(); } } baz() {} }".

Definition imports_source : pystr :=
  str "import { A } from " ++ dq ++ str "mod1" ++ dq ++ str "; import "
  ++ dq ++ str "mod2" ++ dq ++ str ";".

Definition shapes_source : pystr :=
  str "interface Shape {} type Point = {x:number}".

(** The body of [Foo] in [foo_source], between its braces. *)
Definition foo_body : pystr := str " bar() { if (x) { y(); } } baz() {} ".

(** A class body that is one conditional block. *)
Definition conditional_body : pystr := str " if (x) { y(); } ".

(** A class body that is one conditional block with a [try] in it. *)
Definition guarded_conditional_body : pystr :=
  str " if (x) { try { y(); } catch (e) { } } ".

(** Two function declarations. *)
Definition two_functions_source : pystr :=
  str "function a() {} function b() {}".

(** One module imported twice with bound names, then for its side effects. *)
Definition repeated_import_source : pystr :=
  str "import A from 'm'; import B from 'm'; import 'm';".

(** A class name declared twice, both declarations inside an outer block. *)
Definition redeclared_source : pystr :=
  str "{ class A { a(){} } class A { b(){} } }".

(** A class whose scan runs to the end of the text, then the same name again
    with a closing brace after it. *)
Definition unclosed_redeclared_source : pystr :=
  str "class A { { { class A foo(){ } } } }".

(** A function declaration named [constructor]. *)
Definition constructor_function_source : pystr :=
  str "function constructor() {}".

(** A class with a balanced body, and the same with one more brace pair in
    the body. *)
Definition small_body : pystr := str " f() { } ".
Definition small_body_more : pystr := str " f() {{ }} ".

(** [FrameworkAnalyzer(root_path)]: the fields [__init__] sets. *)
Definition new_analyzer (root : pystr) : FrameworkAnalyzer :=
  {| root_path := root;
     ignore_dirs := [str "node_modules"; str ".git"; str "dist"; str "build";
                     str "coverage"; str "test-results";
                     str "playwright-report"];
     ignore_files := [str ".DS_Store"; str ".env"];
     file_extensions := [str ".ts"; str ".js"; str ".tsx"; str ".jsx"] |}.

(** Two class mappings that differ at most in the order of the members. *)
Definition same_classes (d1 d2 : dict (list pystr)) : Prop :=
  Forall2 (fun e1 e2 => fst e1 = fst e2 /\ Permutation (snd e1) (snd e2)) d1 d2.

(** [closes d l]: [l] is [d] closing braces, each preceded by balanced text,
    followed by balanced text. *)
Fixpoint closes (d : nat) (l : pystr) : Prop :=
  match d with
  | O => balanced l
  | S d' => exists b rest,
      l = b ++ close_brace :: rest /\ balanced b /\ closes d' rest
  end.

(** A name in the sense of [\w+]: a non-empty run of word characters. *)
Definition identifier {U : UnicodeDB} (x : pystr) : Prop :=
  x <> [] /\ Forall (fun c => is_word c = true) x.

(** [x] is a piece of [text]. *)
Definition occurs_in (text x : pystr) : Prop :=
  exists a b, text = a ++ x ++ b.

(** ** Printing the analysis of one file *)

(** [str(n)] for a non-negative integer. *)
Fixpoint digits_of_uint (d : Decimal.uint) : pystr :=
  match d with
  | Decimal.Nil => []
  | Decimal.D0 d => 48%N :: digits_of_uint d
  | Decimal.D1 d => 49%N :: digits_of_uint d
  | Decimal.D2 d => 50%N :: digits_of_uint d
  | Decimal.D3 d => 51%N :: digits_of_uint d
  | Decimal.D4 d => 52%N :: digits_of_uint d
  | Decimal.D5 d => 53%N :: digits_of_uint d
  | Decimal.D6 d => 54%N :: digits_of_uint d
  | Decimal.D7 d => 55%N :: digits_of_uint d
  | Decimal.D8 d => 56%N :: digits_of_uint d
  | Decimal.D9 d => 57%N :: digits_of_uint d
  end.

Definition py_str_int (n : nat) : pystr := digits_of_uint (Nat.to_uint n).

(** Truth value of a list or dict: non-empty. *)
Definition truthy {A} (l : list A) : bool :=
  match l with
  | [] => false
  | _ :: _ => true
  end.

(** The box-drawing pieces of the printed lines: U+2502, then U+251C U+2500
    and a space. *)
Definition vbar : pystr := [9474%N].
Definition branch : pystr := [9500; 9472; 32]%N.
(** U+2502, two spaces, U+2022, a space; U+2502, four spaces, U+21B3, a
    space. *)
Definition item_bullet : pystr := [9474; 32; 32; 8226; 32]%N.
Definition member_bullet : pystr := [9474; 32; 32; 32; 32; 8627; 32]%N.

(** [for x in xs[:5]: print(bullet x)], then the line that counts the rest
    [if len(xs) > 5]. *)
Definition first5_and_more (prefix bullet : pystr) (xs : list pystr)
  : list pystr :=
  map (fun x => prefix ++ bullet ++ x) (firstn 5 xs)
  ++ (if 5 <? length xs
      then [prefix ++ bullet ++ str "... and " ++ py_str_int (length xs - 5)
            ++ str " more"]
      else []).

(** A section heading: the branch, an icon, the title and the count. *)
Definition heading (prefix : pystr) (icon : char) (title : pystr) (n : nat)
  : pystr :=
  prefix ++ branch ++ [icon] ++ title ++ py_str_int n ++ str "):".

Section PrintFile.
Context {U : UnicodeDB} {O : SetOrder}.

(** [text] is what [read_text] gives: the content, or the message of the
    exception it raised.  The result is the texts printed, one per call of
    [print], in order; a captured import may hold line breaks, so one text
    may take several lines of the output. *)
Definition _analyze_and_print_file (self : FrameworkAnalyzer)
  (text : pystr + pystr) (prefix : pystr) : list pystr :=
  match text with
  | inr e =>
      [prefix ++ [9474; 32; 32; 9888; 65039; 32; 32]%N
       ++ str "Error analyzing file: " ++ e]
  | inl content =>
      let imports := _extract_imports self content in
      let classes := _extract_classes self content in
      let functions := _extract_functions self content in
      let interfaces := _extract_interfaces self content in
      if truthy imports || truthy classes || truthy functions
         || truthy interfaces
      then
        [prefix ++ vbar]
        ++ (if truthy imports
            then heading prefix 128230%N (str " Imports (") (length imports)
                 :: first5_and_more prefix item_bullet imports
            else [])
        ++ (if truthy interfaces
            then heading prefix 128311%N (str " Interfaces/Types (")
                   (length interfaces)
                 :: map (fun interface => prefix ++ item_bullet ++ interface)
                      interfaces
            else [])
        ++ (if truthy classes
            then heading prefix 127891%N (str " Classes (") (length classes)
                 :: flat_map
                      (fun '(class_name, methods) =>
                         (prefix ++ item_bullet ++ class_name)
                         :: (if truthy methods
                             then first5_and_more prefix member_bullet methods
                             else []))
                      classes
            else [])
        ++ (if truthy functions
            then heading prefix 9889%N (str " Functions (") (length functions)
                 :: first5_and_more prefix item_bullet functions
            else [])
        ++ [prefix ++ vbar]
      else []
  end.
End PrintFile.

(** ** The directory tree *)

(** A directory entry: a file with what reading it gives, or a directory
    with whether it can be listed and its entries in the order the system
    lists them.  There are no symbolic links. *)
#[warnings="-register-all"]
Inductive fs_entry :=
| FsFile (name : pystr) (text : pystr + pystr)
| FsDir (name : pystr) (readable : bool) (children : list fs_entry).

Definition entry_name (e : fs_entry) : pystr :=
  match e with
  | FsFile name _ => name
  | FsDir name _ _ => name
  end.

Definition entry_is_dir (e : fs_entry) : bool :=
  match e with
  | FsFile _ _ => false
  | FsDir _ _ _ => true
  end.

(** What [pathlib] computes from a name or path. *)
Class PathLib := {
  path_suffix : pystr -> pystr;       (* Path(name).suffix *)
  path_name : pystr -> pystr          (* Path(path).name *)
}.

(** [str.__lt__]: by code points, a proper prefix first. *)
Fixpoint pystr_ltb (a b : pystr) : bool :=
  match a, b with
  | _, [] => false
  | [], _ :: _ => true
  | x :: a', y :: b' =>
      if (x <? y)%N then true
      else if (y <? x)%N then false
      else pystr_ltb a' b'
  end.

(** [<] on the sort keys [(not is_dir, name)]. *)
Definition key_ltb (a b : bool * pystr) : bool :=
  match fst a, fst b with
  | false, true => true
  | true, false => false
  | _, _ => pystr_ltb (snd a) (snd b)
  end.

(** [sorted]: stable, by [<] alone. *)
Fixpoint insert_by {A} (ltb : A -> A -> bool) (x : A) (l : list A) : list A :=
  match l with
  | [] => [x]
  | y :: l' => if ltb y x then y :: insert_by ltb x l' else x :: y :: l'
  end.

Definition sorted_by {A} (ltb : A -> A -> bool) (l : list A) : list A :=
  fold_right (insert_by ltb) [] l.

(** Comparing by a key, and a list in ascending order. *)
Definition by_key {A K} (key : A -> K) (lt : K -> K -> bool) (x y : A) : bool :=
  lt (key x) (key y).

Definition ascending {A} (ltb : A -> A -> bool) : list A -> Prop :=
  StronglySorted (fun a b => ltb b a = false).

Definition enumerate {A} (l : list A) : list (nat * A) :=
  combine (seq 0 (length l)) l.

(** [_get_file_icon] *)
Definition icons : dict pystr :=
  [ (str ".ts", [128216%N]); (str ".tsx", [128216%N]);
    (str ".js", [128217%N]); (str ".jsx", [128217%N]);
    (str ".json", [128203%N]); (str ".md", [128221%N]);
    (str ".yml", [9881; 65039]%N); (str ".yaml", [9881; 65039]%N);
    (str ".env", [128272%N]); (str ".py", [128013%N]) ].

Definition _get_file_icon (self : FrameworkAnalyzer) (suffix : pystr) : pystr :=
  match dict_get icons suffix with
  | Some icon => icon
  | None => [128196%N]
  end.

(** U+2514 or U+251C, two U+2500 and a space; four spaces, or U+2502 and
    three. *)
Definition connector (is_last_entry : bool) : pystr :=
  if is_last_entry then [9492; 9472; 9472; 32]%N else [9500; 9472; 9472; 32]%N.

Definition extension (is_last_entry : bool) : pystr :=
  if is_last_entry then str "    " else [9474; 32; 32; 32]%N.

(** An entry as the loop of [print_tree] sees it: whether it is a directory,
    its name, and what printing it under a prefix, last or not, prints. *)
Record shown := {
  sh_is_dir : bool;
  sh_name : pystr;
  sh_print : pystr -> bool -> list pystr
}.

Definition sh_key (e : shown) : bool * pystr := (negb (sh_is_dir e), sh_name e).

Section PrintTree.
Context {U : UnicodeDB} {O : SetOrder} {P : PathLib}.
Variable self : FrameworkAnalyzer.

(** The body of [print_tree] below the header: sort, filter, print each
    entry in turn; a directory that cannot be listed prints one line. *)
Definition print_tree_in (readable : bool) (entries : list shown)
  (prefix : pystr) : list pystr :=
  if readable then
    let entries := sorted_by (fun a b => key_ltb (sh_key a) (sh_key b)) entries in
    let entries :=
      filter (fun e => negb (py_in (sh_name e) (ignore_dirs self))
                       && negb (py_in (sh_name e) (ignore_files self)))
        entries in
    concat
      (map (fun '(i, entry) =>
              let is_last_entry := i =? length entries - 1 in
              sh_print entry prefix is_last_entry)
         (enumerate entries))
  else [prefix ++ str "[Permission Denied]"].

(** What the loop prints for one entry. *)
Fixpoint print_entry (e : fs_entry) (prefix : pystr) (is_last_entry : bool)
  {struct e} : list pystr :=
  match e with
  | FsDir name readable children =>
      (prefix ++ connector is_last_entry ++ [128193; 32]%N ++ name ++ str "/")
      :: print_tree_in readable
           (map (fun c => {| sh_is_dir := entry_is_dir c;
                             sh_name := entry_name c;
                             sh_print := print_entry c |}) children)
           (prefix ++ extension is_last_entry)
  | FsFile name text =>
      let icon := _get_file_icon self (path_suffix name) in
      (prefix ++ connector is_last_entry ++ icon ++ str " " ++ name)
      :: (if py_in (path_suffix name) (file_extensions self)
          then _analyze_and_print_file self text
                 (prefix ++ extension is_last_entry)
          else [])
  end.

Definition as_shown (c : fs_entry) : shown :=
  {| sh_is_dir := entry_is_dir c; sh_name := entry_name c;
     sh_print := print_entry c |}.

(** [print_tree()]: the header, then the entries of the root directory, given
    as whether it can be listed and its listing. *)
Definition print_tree (root_readable : bool) (root_children : list fs_entry)
  : list pystr :=
  [ [10; 128194; 32]%N ++ path_name (root_path self) ++ str "/";
    repeat 61%N 80 ]
  ++ print_tree_in root_readable (map as_shown root_children) [].
End PrintTree.

(** ** The totals of [generate_summary] *)

Record totals := {
  total_files : nat;
  total_classes : nat;
  total_functions : nat;
  total_imports : list pystr          (* a set: no element twice *)
}.

(** [s.update(xs)] *)
Definition set_update (s xs : list pystr) : list pystr :=
  fold_left (fun s x => if py_in x s then s else s ++ [x]) xs s.

Section Summary.
Context {U : UnicodeDB} {O : SetOrder} {P : PathLib}.
Variable self : FrameworkAnalyzer.

(** The body of [for file in files]. *)
Definition count_file (t : totals) (file : pystr) (text : pystr + pystr)
  : totals :=
  if py_in (path_suffix file) (file_extensions self) then
    let total_files := total_files t + 1 in
    match text with
    | inl content =>
        let imports := _extract_imports self content in
        let total_imports := set_update (total_imports t) imports in
        let classes := _extract_classes self content in
        let total_classes := total_classes t + length classes in
        let functions := _extract_functions self content in
        let total_functions := total_functions t + length functions in
        {| total_files := total_files; total_classes := total_classes;
           total_functions := total_functions;
           total_imports := total_imports |}
    | inr _ =>                         (* except Exception: pass *)
        {| total_files := total_files; total_classes := total_classes t;
           total_functions := total_functions t;
           total_imports := total_imports t |}
    end
  else t.

(** [for root, dirs, files in os.walk(top)] with the pruning of [dirs]:
    the files of a directory first, then the directories that are kept, each
    walked in turn.  What cannot be listed is passed over. *)
Fixpoint walk (top : fs_entry) (t : totals) {struct top} : totals :=
  match top with
  | FsFile _ _ => t
  | FsDir _ false _ => t
  | FsDir _ true children =>
      let t :=
        fold_left
          (fun t c =>
             match c with
             | FsFile file text => count_file t file text
             | FsDir _ _ _ => t
             end) children t in
      fold_left
        (fun t c =>
           match c with
           | FsDir d _ _ => if py_in d (ignore_dirs self) then t else walk c t
           | FsFile _ _ => t
           end) children t
  end.

Definition no_totals : totals :=
  {| total_files := 0; total_classes := 0; total_functions := 0;
     total_imports := [] |}.

(** The four totals [generate_summary] prints. *)
Definition summary_totals (root : fs_entry) : totals := walk root no_totals.
End Summary.

(** ** Trees and listings, for stating what the traversals do *)

Section TreeSpecs.
Context {P : PathLib}.
Variable self : FrameworkAnalyzer.

(** A name [print_tree] passes over. *)
Definition hidden (name : pystr) : bool :=
  py_in name (ignore_dirs self) || py_in name (ignore_files self).

(** The test of the loop: [e.name not in ignore_dirs and e.name not in
    ignore_files]. *)
Definition kept (name : pystr) : bool :=
  negb (py_in name (ignore_dirs self)) && negb (py_in name (ignore_files self)).

(** The tree without the entries [print_tree] passes over, at every level. *)
Fixpoint without_hidden (e : fs_entry) : fs_entry :=
  match e with
  | FsFile name text => FsFile name text
  | FsDir name readable children =>
      FsDir name readable
        (flat_map (fun c => if hidden (entry_name c) then []
                            else [without_hidden c]) children)
  end.

(** The tree without the directories the summary prunes, at every level
    below the top. *)
Fixpoint without_ignored_dirs (e : fs_entry) : fs_entry :=
  match e with
  | FsFile name text => FsFile name text
  | FsDir name readable children =>
      FsDir name readable
        (flat_map (fun c => if entry_is_dir c && py_in (entry_name c) (ignore_dirs self)
                            then [] else [without_ignored_dirs c]) children)
  end.

(** The source files under a directory that can be reached through
    directories that can be listed and are not pruned: name and what
    reading gives. *)
Fixpoint source_files (e : fs_entry) : list (pystr * (pystr + pystr)) :=
  match e with
  | FsFile _ _ => []
  | FsDir _ false _ => []
  | FsDir _ true children =>
      flat_map (fun c => match c with
                         | FsFile file text =>
                             if py_in (path_suffix file) (file_extensions self)
                             then [(file, text)] else []
                         | FsDir _ _ _ => []
                         end) children
      ++ flat_map (fun c => match c with
                            | FsDir d _ _ =>
                                if py_in d (ignore_dirs self) then []
                                else source_files c
                            | FsFile _ _ => []
                            end) children
  end.
End TreeSpecs.

Section SummarySpecs.
Context {U : UnicodeDB} {O : SetOrder} {P : PathLib}.
Variable self : FrameworkAnalyzer.

(** The test [Path(file).suffix in self.file_extensions]. *)
Definition is_source (f : pystr * (pystr + pystr)) : bool :=
  py_in (path_suffix (fst f)) (file_extensions self).

(** [count_file] on a file given as a pair. *)
Definition count_step (t : totals) (f : pystr * (pystr + pystr)) : totals :=
  count_file self t (fst f) (snd f).

(** [walked top file text]: the file is in a directory that is reached from
    [top] through directories that can be listed and, below [top], are not in
    [ignore_dirs], and its suffix is one of [file_extensions]. *)
Inductive walked : fs_entry -> pystr -> pystr + pystr -> Prop :=
| walked_here name children file text :
    In (FsFile file text) children ->
    py_in (path_suffix file) (file_extensions self) = true ->
    walked (FsDir name true children) file text
| walked_below name children d readable below file text :
    In (FsDir d readable below) children ->
    py_in d (ignore_dirs self) = false ->
    walked (FsDir d readable below) file text ->
    walked (FsDir name true children) file text.
End SummarySpecs.

(** The contents of the files that could be read. *)
Definition readable_texts (files : list (pystr * (pystr + pystr))) : list pystr :=
  flat_map (fun f => match snd f with inl content => [content] | inr _ => [] end)
    files.

(** One [pathlib]: the suffix is the name from its last dot on, unless that
    dot is the first or the last character; the name of a path is what
    follows its last slash. *)
Fixpoint last_index (c : char) (s : pystr) (i : nat) (found : option nat)
  : option nat :=
  match s with
  | [] => found
  | x :: s' => last_index c s' (S i) (if (x =? c)%N then Some i else found)
  end.

Definition suffix_of (name : pystr) : pystr :=
  match last_index 46%N name 0 None with
  | Some i => if (0 <? i) && (i <? length name - 1) then skipn i name else []
  | None => []
  end.

Definition name_of (path : pystr) : pystr :=
  match last_index 47%N path 0 None with
  | Some i => skipn (S i) path
  | None => path
  end.

Definition plain_paths : PathLib :=
  {| path_suffix := suffix_of; path_name := name_of |}.

(** [line] begins with [p]. *)
Definition has_prefix (p line : pystr) : Prop := exists rest, line = p ++ rest.

Definition children_of (e : fs_entry) : list fs_entry :=
  match e with
  | FsFile _ _ => []
  | FsDir _ _ children => children
  end.

(** Two entries the loop of [print_tree] cannot tell apart. *)
Definition same_shown (a b : shown) : Prop :=
  sh_is_dir a = sh_is_dir b /\ sh_name a = sh_name b
  /\ forall prefix is_last, sh_print a prefix is_last = sh_print b prefix is_last.

(** The order [print_tree] sorts by. *)
Definition shown_ltb (a b : shown) : bool := key_ltb (sh_key a) (sh_key b).

(** An identifier written with ASCII letters, digits and underscores. *)
Definition ascii_word_char (c : char) : bool :=
  ascii_isalnum c || (c =? 95)%N.

Definition ascii_identifier (name : pystr) : Prop :=
  name <> [] /\ Forall (fun c => ascii_word_char c = true) name.

(** Text that does not go on with a word character. *)
Definition ends_word {U : UnicodeDB} (rest : pystr) : Prop :=
  match rest with
  | [] => True
  | c :: _ => is_word c = false
  end.

(** Text that does not go on with white space. *)
Definition no_space_ahead {U : UnicodeDB} (s : pystr) : Prop :=
  match s with
  | [] => True
  | c :: _ => is_space c = false
  end.

(** The two optional parts that begin [method_pattern]. *)
Definition async_opt : regex := Opt (Seq (Lit (str "async")) sp).
Definition visibility_opt : regex :=
  Opt ((Seq (Lit (str "public")) sp || Seq (Lit (str "private")) sp
        || Seq (Lit (str "protected")) sp)%re).

(** The modifiers a member declaration may begin with. *)
Definition method_modifiers : list pystr :=
  [ []; str "async "; str "public "; str "private "; str "protected ";
    str "async public "; str "async private "; str "async protected " ].

(** A small project: a source file, a directory with two files, one of them
    unreadable, an ignored directory, a file named like an ignored
    directory, and a directory that cannot be listed. *)
Definition sample_tree : list fs_entry :=
  [ FsFile (str "b.ts")
      (inl (str "import x from 'm'; class A {} function f() {}"));
    FsDir (str "src") true
      [ FsFile (str "x.js") (inl (str "import 'm'; import 'n';"));
        FsFile (str "y.ts") (inr (str "boom")) ];
    FsDir (str "node_modules") true
      [ FsFile (str "z.ts") (inl (str "class Z {}")) ];
    FsFile (str "a.md") (inl []);
    FsDir (str "locked") false [];
    FsFile (str "dist") (inl []) ].

(** ** The summary report *)

(** [str.lower()], from the Unicode database of the interpreter. *)
Class CaseMap := {
  py_lower : pystr -> pystr
}.

(** [sub in s] on strings. *)
Fixpoint py_contains (sub s : pystr) : bool :=
  match strip_prefix sub s with
  | Some _ => true
  | None =>
      match s with
      | [] => false
      | _ :: s' => py_contains sub s'
      end
  end.

Definition rule : pystr := repeat 61%N 80.           (* "=" * 80 *)
Definition nl : pystr := [10%N].

Section SummaryReport.
Context {U : UnicodeDB} {O : SetOrder} {P : PathLib} {L : CaseMap}.
Variable self : FrameworkAnalyzer.

(** [generate_summary()]: the texts printed, one per call of [print].  The
    loop between the heading and the totals prints nothing; [root] is the
    tree under [self.root_path] as [os.walk] finds it. *)
Definition generate_summary (root : fs_entry) : list pystr :=
  let t := summary_totals self root in
  [ nl ++ rule;
    [128202%N] ++ str " FRAMEWORK SUMMARY";
    rule ]
  ++ [ nl ++ [128193%N] ++ str " Total Source Files: "
         ++ py_str_int (total_files t);
       [127891%N] ++ str " Total Classes: " ++ py_str_int (total_classes t);
       [9889%N] ++ str " Total Functions: " ++ py_str_int (total_functions t);
       [128230%N] ++ str " Unique Imports: "
         ++ py_str_int (length (total_imports t)) ]
  ++ [ nl ++ [128230%N] ++ str " Common Dependencies:" ]
  ++ (let playwright_imports :=
        filter (fun imp => py_contains (str "playwright") (py_lower imp))
          (total_imports t) in
      if truthy playwright_imports
      then [ str "   " ++ [8226%N] ++ str " Playwright: "
               ++ py_str_int (length playwright_imports) ++ str " imports" ]
      else [])
  ++ [ nl ++ rule ].
End SummaryReport.

(** ** The process

    [main] as a computation that prints, may raise an exception and may
    leave through [sys.exit].  Standard output takes every text; the limits
    of the interpreter (recursion depth, memory) are not part of the
    model. *)

(** The exceptions of a run: [PermissionError], and any other one. *)
Inductive exn :=
| PermissionError
| OtherError.

Inductive outcome (A : Type) :=
| Returned (a : A)
| Exited (code : Z)                   (* SystemExit raised by sys.exit *)
| Raised (e : exn).                   (* an exception on its way up *)
Arguments Returned {A} a.
Arguments Exited {A} code.
Arguments Raised {A} e.

(** The state is what has been printed so far, one text per call. *)
Definition prog (A : Type) := list pystr -> list pystr * outcome A.

Definition ret {A} (a : A) : prog A := fun out => (out, Returned a).

Definition bind {A B} (m : prog A) (f : A -> prog B) : prog B :=
  fun out =>
    match m out with
    | (out', Returned a) => f a out'
    | (out', Exited c) => (out', Exited c)
    | (out', Raised e) => (out', Raised e)
    end.

Definition print (text : pystr) : prog unit := fun out => (out ++ [text], Returned tt).
Definition sys_exit {A} (code : Z) : prog A := fun out => (out, Exited code).
Definition raise {A} (e : exn) : prog A := fun out => (out, Raised e).

(** [try: body except PermissionError: handler] *)
Definition try_except_PermissionError {A} (body handler : prog A) : prog A :=
  fun out =>
    match body out with
    | (out', Raised PermissionError) => handler out'
    | r => r
    end.

(** [for x in l: body(x)] *)
Fixpoint for_each {A} (l : list A) (body : A -> prog unit) : prog unit :=
  match l with
  | [] => ret tt
  | x :: l' => bind (body x) (fun _ => for_each l' body)
  end.

(** The calls of [print] of a method that raises nothing and leaves
    nothing behind but its output. *)
Definition print_all (texts : list pystr) : prog unit := for_each texts print.

(** How entering a directory goes: [iterdir()] gives the entries, or raises
    [PermissionError], or another exception is raised. *)
Inductive listed :=
| Listed
| Denied
| Failed.

(** A directory entry of the running system: as [fs_entry], with the three
    ways a directory can go. *)
#[warnings="-register-all"]
Inductive fs_node :=
| NodeFile (name : pystr) (text : pystr + pystr)
| NodeDir (name : pystr) (how : listed) (children : list fs_node).

Definition node_name (n : fs_node) : pystr :=
  match n with
  | NodeFile name _ => name
  | NodeDir name _ _ => name
  end.

Definition node_is_dir (n : fs_node) : bool :=
  match n with
  | NodeFile _ _ => false
  | NodeDir _ _ _ => true
  end.

Definition can_list (how : listed) : bool :=
  match how with
  | Listed => true
  | Denied | Failed => false
  end.

(** The tree as [os.walk] finds it: a directory that cannot be listed, for
    whatever reason, is passed over. *)
Fixpoint as_entry (n : fs_node) : fs_entry :=
  match n with
  | NodeFile name text => FsFile name text
  | NodeDir name how children => FsDir name (can_list how) (map as_entry children)
  end.

(** A tree in which no directory fails. *)
Fixpoint as_node (e : fs_entry) : fs_node :=
  match e with
  | FsFile name text => NodeFile name text
  | FsDir name readable children =>
      NodeDir name (if readable then Listed else Denied) (map as_node children)
  end.

(** An entry as the loop of [print_tree] sees it in a run. *)
Record shown_io := {
  io_is_dir : bool;
  io_name : pystr;
  io_print : pystr -> bool -> prog unit
}.

Definition io_key (e : shown_io) : bool * pystr := (negb (io_is_dir e), io_name e).

Notation "m >> k" := (bind m (fun _ => k))
  (at level 100, right associativity).

Section Process.
Context {U : UnicodeDB} {O : SetOrder} {P : PathLib}.
Variable self : FrameworkAnalyzer.

Definition iterdir (how : listed) (entries : list shown_io)
  : prog (list shown_io) :=
  match how with
  | Listed => ret entries
  | Denied => raise PermissionError
  | Failed => raise OtherError
  end.

(** [print_tree] in a run, below the header: the [try] block with its one
    handler.  An exception that is not a [PermissionError] goes on to the
    caller. *)
Definition print_tree_from (how : listed) (entries : list shown_io)
  (prefix : pystr) : prog unit :=
  try_except_PermissionError
    (bind (iterdir how entries) (fun entries =>
     let entries := sorted_by (fun a b => key_ltb (io_key a) (io_key b)) entries in
     let entries :=
       filter (fun e => negb (py_in (io_name e) (ignore_dirs self))
                        && negb (py_in (io_name e) (ignore_files self)))
         entries in
     for_each (enumerate entries)
       (fun '(i, entry) =>
          let is_last_entry := i =? length entries - 1 in
          io_print entry prefix is_last_entry)))
    (print (prefix ++ str "[Permission Denied]")).

(** The body of the loop for one entry. *)
Fixpoint print_node (n : fs_node) (prefix : pystr) (is_last_entry : bool)
  {struct n} : prog unit :=
  match n with
  | NodeDir name how children =>
      print (prefix ++ connector is_last_entry ++ [128193; 32]%N ++ name
             ++ str "/") >>
      print_tree_from how
        (map (fun c => {| io_is_dir := node_is_dir c;
                          io_name := node_name c;
                          io_print := print_node c |}) children)
        (prefix ++ extension is_last_entry)
  | NodeFile name text =>
      let icon := _get_file_icon self (path_suffix name) in
      print (prefix ++ connector is_last_entry ++ icon ++ str " " ++ name) >>
      if py_in (path_suffix name) (file_extensions self)
      then print_all (_analyze_and_print_file self text
                        (prefix ++ extension is_last_entry))
      else ret tt
  end.

Definition as_shown_io (c : fs_node) : shown_io :=
  {| io_is_dir := node_is_dir c; io_name := node_name c;
     io_print := print_node c |}.

(** [print_tree()] in a run, on the root directory. *)
Definition print_tree_io (how : listed) (children : list fs_node) : prog unit :=
  print ([10; 128194; 32]%N ++ path_name (root_path self) ++ str "/") >>
  print (repeat 61%N 80) >>
  print_tree_from how (map as_shown_io children) [].
End Process.

(** What the system answers about paths, and what is in a directory. *)
Class OS := {
  Path : Type;
  mk_path : pystr -> Path;            (* Path(s) *)
  path_exists : Path -> bool;         (* p.exists() *)
  path_is_dir : Path -> bool;         (* p.is_dir() *)
  path_str : Path -> pystr;           (* str(p) *)
  path_absolute : Path -> Path;       (* p.absolute() *)
  script_parent : Path;               (* Path(__file__).parent *)
  dir_listed : Path -> listed;        (* how entering the directory goes *)
  dir_entries : Path -> list fs_node  (* its entries, in listing order *)
}.

Section Main.
Context {U : UnicodeDB} {O : SetOrder} {P : PathLib} {L : CaseMap} {os : OS}.

Definition choose_target (argv : list pystr) : prog Path :=
  if 1 <? length argv then
    let target_dir := mk_path (nth 1 argv []) in
    if negb (path_exists target_dir) then
      print ([10060%N] ++ str " Error: Directory '" ++ path_str target_dir
             ++ str "' does not exist!") >>
      sys_exit 1
    else if negb (path_is_dir target_dir) then
      print ([10060%N] ++ str " Error: '" ++ path_str target_dir
             ++ str "' is not a directory!") >>
      sys_exit 1
    else ret target_dir
  else ret script_parent.

(** The root directory as [os.walk] finds it. *)
Definition root_entry (target_dir : Path) : fs_entry :=
  FsDir (path_name (path_str target_dir)) (can_list (dir_listed target_dir))
    (map as_entry (dir_entries target_dir)).

Definition main (argv : list pystr) : prog unit :=
  bind (choose_target argv) (fun target_dir =>
  print (nl ++ rule) >>
  print ([128269%N] ++ str " FRAMEWORK STRUCTURE ANALYZER") >>
  print rule >>
  print ([128194%N] ++ str " Analyzing: " ++ path_str (path_absolute target_dir)) >>
  print rule >>
  let analyzer := new_analyzer (path_str target_dir) in
  print_tree_io analyzer (dir_listed target_dir) (dir_entries target_dir) >>
  print_all (generate_summary analyzer (root_entry target_dir)) >>
  print (nl ++ [9989%N] ++ str " Analysis Complete!" ++ nl) >>
  print ([128161%N] ++ str " Usage: python3 analyze_framework.py [directory_path]") >>
  print (str "   If no path provided, analyzes current directory" ++ nl)).

(** What the process leaves behind: its output and its exit status, [0]
    when [main] returns, the argument of [sys.exit], and [1] when an
    exception reaches the top. *)
Definition run_main (argv : list pystr) : list pystr * Z :=
  match main argv [] with
  | (out, Returned _) => (out, 0%Z)
  | (out, Exited c) => (out, c)
  | (out, Raised _) => (out, 1%Z)
  end.

Definition stdout_of (argv : list pystr) : list pystr := fst (run_main argv).
Definition exit_code_of (argv : list pystr) : Z := snd (run_main argv).

(** The directory the process works on when [main] gets that far. *)
Definition target_of (argv : list pystr) : Path :=
  if 1 <? length argv then mk_path (nth 1 argv []) else script_parent.

(** What [main] prints before the tree and after the summary. *)
Definition opening (target_dir : Path) : list pystr :=
  [ nl ++ rule;
    [128269%N] ++ str " FRAMEWORK STRUCTURE ANALYZER";
    rule;
    [128194%N] ++ str " Analyzing: " ++ path_str (path_absolute target_dir);
    rule ].

Definition closing : list pystr :=
  [ nl ++ [9989%N] ++ str " Analysis Complete!" ++ nl;
    [128161%N] ++ str " Usage: python3 analyze_framework.py [directory_path]";
    str "   If no path provided, analyzes current directory" ++ nl ].
End Main.

(** ** Where an exception escapes [print_tree] *)

Section Escapes.
Variable self : FrameworkAnalyzer.

(** [print_tree] on a directory raises: entering it fails, or it is listed
    and one of the entries that are not passed over raises. *)
Definition raises_from (how : listed) (below : list (pystr * bool)) : bool :=
  match how with
  | Failed => true
  | Denied => false
  | Listed => existsb (fun e => kept self (fst e) && snd e) below
  end.

Fixpoint raises (n : fs_node) : bool :=
  match n with
  | NodeFile _ _ => false
  | NodeDir _ how children =>
      raises_from how (map (fun c => (node_name c, raises c)) children)
  end.

Definition tree_raises (how : listed) (children : list fs_node) : bool :=
  raises_from how (map (fun c => (node_name c, raises c)) children).
End Escapes.

(** ** Systems to run [main] on *)

(** No case mapping above ASCII. *)
Definition ascii_lower : CaseMap :=
  {| py_lower := map (fun c => if ((65 <=? c) && (c <=? 90))%N
                               then (c + 32)%N else c) |}.

(** A system in which no path exists. *)
Definition nothing_exists : OS :=
  {| Path := pystr; mk_path := fun s => s;
     path_exists := fun _ => false; path_is_dir := fun _ => false;
     path_str := fun p => p; path_absolute := fun p => p;
     script_parent := str "scripts";
     dir_listed := fun _ => Denied; dir_entries := fun _ => [] |}.

(** A system in which every path is a directory that holds the sample
    project. *)
Definition all_directories : OS :=
  {| Path := pystr; mk_path := fun s => s;
     path_exists := fun _ => true; path_is_dir := fun _ => true;
     path_str := fun p => p; path_absolute := fun p => p;
     script_parent := str "scripts";
     dir_listed := fun _ => Listed;
     dir_entries := fun _ => map as_node sample_tree |}.

(** The same, with one more directory, [gone], that raises when it is
    entered. *)
Definition one_directory_fails : OS :=
  {| Path := pystr; mk_path := fun s => s;
     path_exists := fun _ => true; path_is_dir := fun _ => true;
     path_str := fun p => p; path_absolute := fun p => p;
     script_parent := str "scripts";
     dir_listed := fun _ => Listed;
     dir_entries := fun _ =>
       map as_node sample_tree ++ [NodeDir (str "gone") Failed []] |}.

(** * Properties *)

(** ** Strings and dictionaries *)

Lemma pystr_eqb_eq (a b : pystr) : pystr_eqb a b = true <-> a = b.
Proof.
  unfold pystr_eqb. destruct (pystr_eq_dec a b); split; congruence.
Qed.

Lemma pystr_eqb_refl (a : pystr) : pystr_eqb a a = true.
Proof. now apply pystr_eqb_eq. Qed.

Lemma pystr_eqb_neq (a b : pystr) : pystr_eqb a b = false <-> a <> b.
Proof.
  unfold pystr_eqb. destruct (pystr_eq_dec a b); split; congruence.
Qed.

Lemma py_in_In (x : pystr) (l : list pystr) : py_in x l = true <-> In x l.
Proof.
  unfold py_in. rewrite existsb_exists. split.
  - intros (y & Hy & E). apply pystr_eqb_eq in E. now subst.
  - intros H. exists x. split; [assumption | apply pystr_eqb_refl].
Qed.

Lemma py_in_not_In (x : pystr) (l : list pystr) : py_in x l = false <-> ~ In x l.
Proof.
  rewrite <- py_in_In. destruct (py_in x l); split; congruence.
Qed.

Section DictFacts.
Context {V : Type}.
Implicit Types (d : dict V) (k : pystr) (v : V).

Lemma dict_get_set_same d k v : dict_get (dict_set d k v) k = Some v.
Proof.
  induction d as [|[k' v'] d IH]; simpl.
  - now rewrite pystr_eqb_refl.
  - destruct (pystr_eqb k' k) eqn:E; simpl; rewrite E; auto.
Qed.

Lemma dict_get_set_other d k v k0 :
  k0 <> k -> dict_get (dict_set d k v) k0 = dict_get d k0.
Proof.
  intros N. induction d as [|[k' v'] d IH]; simpl.
  - destruct (pystr_eqb k k0) eqn:E; [|reflexivity].
    apply pystr_eqb_eq in E. congruence.
  - destruct (pystr_eqb k' k) eqn:E; simpl.
    + apply pystr_eqb_eq in E. subst k'.
      destruct (pystr_eqb k k0) eqn:E0; [|reflexivity].
      apply pystr_eqb_eq in E0. congruence.
    + now rewrite IH.
Qed.

Lemma dict_keys_set d k v :
  dict_keys (dict_set d k v) =
  if py_in k (dict_keys d) then dict_keys d else dict_keys d ++ [k].
Proof.
  unfold dict_keys. induction d as [|[k' v'] d IH]; simpl; [reflexivity|].
  destruct (pystr_eqb k' k) eqn:E; simpl.
  - apply pystr_eqb_eq in E. subst k'. now rewrite pystr_eqb_refl.
  - assert (E' : pystr_eqb k k' = false).
    { apply pystr_eqb_neq. apply pystr_eqb_neq in E. congruence. }
    rewrite E'. simpl. rewrite IH.
    now destruct (py_in k (map fst d)).
Qed.

Lemma dict_set_key_in d k v : In k (dict_keys (dict_set d k v)).
Proof.
  rewrite dict_keys_set. destruct (py_in k (dict_keys d)) eqn:E.
  - now apply py_in_In.
  - apply in_or_app. right. now left.
Qed.

Lemma dict_set_key_kept d k v k0 :
  In k0 (dict_keys d) -> In k0 (dict_keys (dict_set d k v)).
Proof.
  rewrite dict_keys_set. destruct (py_in k (dict_keys d)); [easy|].
  intros H. apply in_or_app. now left.
Qed.

Lemma dict_set_NoDup d k v :
  NoDup (dict_keys d) -> NoDup (dict_keys (dict_set d k v)).
Proof.
  intros H. rewrite dict_keys_set.
  destruct (py_in k (dict_keys d)) eqn:E; [assumption|].
  apply py_in_not_In in E.
  apply NoDup_app; [assumption | repeat constructor; easy |].
  intros x Hx [<-|[]]. contradiction.
Qed.

Lemma assign_all_NoDup {M} (key : M -> pystr) (val : M -> V) ms d :
  NoDup (dict_keys d) -> NoDup (dict_keys (assign_all key val ms d)).
Proof.
  revert d. induction ms as [|m ms IH]; simpl; intros d H; [assumption|].
  apply IH. now apply dict_set_NoDup.
Qed.

Lemma assign_all_key_kept {M} (key : M -> pystr) (val : M -> V) ms d k0 :
  In k0 (dict_keys d) -> In k0 (dict_keys (assign_all key val ms d)).
Proof.
  revert d. induction ms as [|m ms IH]; simpl; intros d H; [assumption|].
  apply IH. now apply dict_set_key_kept.
Qed.

Lemma assign_all_get_untouched {M} (key : M -> pystr) (val : M -> V) ms d k0 :
  (forall m, In m ms -> key m <> k0) ->
  dict_get (assign_all key val ms d) k0 = dict_get d k0.
Proof.
  revert d. induction ms as [|m ms IH]; simpl; intros d H; [reflexivity|].
  rewrite IH by auto. apply dict_get_set_other.
  intros E. apply (H m); auto.
Qed.

(** The last assignment to a key decides its value. *)
Lemma assign_all_last {M} (key : M -> pystr) (val : M -> V) l1 m l2 d :
  (forall m', In m' l2 -> key m' <> key m) ->
  dict_get (assign_all key val (l1 ++ m :: l2) d) (key m) = Some (val m).
Proof.
  intros H. unfold assign_all. rewrite fold_left_app. simpl.
  fold (assign_all key val l2
          (dict_set (fold_left (fun d m => dict_set d (key m) (val m)) l1 d)
             (key m) (val m))).
  rewrite assign_all_get_untouched by assumption.
  apply dict_get_set_same.
Qed.

Lemma assign_all_key_in {M} (key : M -> pystr) (val : M -> V) l1 m l2 d :
  In (key m) (dict_keys (assign_all key val (l1 ++ m :: l2) d)).
Proof.
  unfold assign_all. rewrite fold_left_app. simpl.
  apply (assign_all_key_kept key val l2). apply dict_set_key_in.
Qed.

Lemma NoDup_count_one (l : list pystr) x :
  NoDup l -> In x l -> count_occ pystr_eq_dec l x = 1.
Proof.
  intros Hnd Hin.
  rewrite (NoDup_count_occ pystr_eq_dec) in Hnd.
  rewrite (count_occ_In pystr_eq_dec) in Hin.
  specialize (Hnd x). lia.
Qed.
End DictFacts.

(** ** The matcher *)

Lemma strip_prefix_inv (l s s' : pystr) :
  strip_prefix l s = Some s' -> s = l ++ s'.
Proof.
  revert s. induction l as [|a l IH]; simpl; intros s H.
  - congruence.
  - destruct s as [|x s]; [discriminate|].
    destruct (N.eqb_spec x a); [|discriminate].
    subst. f_equal. now apply IH.
Qed.

Section MatcherFacts.
Context {U : UnicodeDB}.

Lemma star_match_inv {A} (c : cls) (s : pystr) (k : pystr -> option A) a :
  star_match c s k = Some a ->
  exists p s', s = p ++ s' /\ k s' = Some a.
Proof.
  induction s as [|x s IH]; simpl; intros H.
  - now exists [], [].
  - destruct (cls_mem c x).
    + destruct (star_match c s k) eqn:E.
      * inversion H; subst. destruct (IH eq_refl) as (p & s' & -> & Hk).
        now exists (x :: p), s'.
      * now exists [], (x :: s).
    + now exists [], (x :: s).
Qed.

(** A success of [rmatch] is a success of the rest of the pattern on a
    suffix, after at least [min_len r] characters. *)
Lemma rmatch_inv {A} (r : regex) :
  forall (s : pystr) (k : pystr -> option A) a,
    rmatch r s k = Some a ->
    exists p s', s = p ++ s' /\ min_len r <= length p /\ k s' = Some a.
Proof.
  induction r as [l|c|c|c|r1 IH1 r2 IH2|r1 IH1 r2 IH2|r IH];
    simpl; intros s k a H.
  - destruct (strip_prefix l s) as [s'|] eqn:E; [|discriminate].
    apply strip_prefix_inv in E. exists l, s'. auto.
  - destruct s as [|x s]; [discriminate|].
    destruct (cls_mem c x); [|discriminate].
    exists [x], s. simpl. auto.
  - apply star_match_inv in H. destruct H as (p & s' & -> & Hk).
    exists p, s'. repeat split; auto. lia.
  - destruct s as [|x s]; [discriminate|].
    destruct (cls_mem c x); [|discriminate].
    apply star_match_inv in H. destruct H as (p & s' & -> & Hk).
    exists (x :: p), s'. simpl. repeat split; auto. lia.
  - apply IH1 in H. destruct H as (p1 & s1 & -> & L1 & H).
    apply IH2 in H. destruct H as (p2 & s2 & -> & L2 & H).
    exists (p1 ++ p2), s2. rewrite <- app_assoc, length_app.
    repeat split; auto. lia.
  - destruct (rmatch r1 s k) eqn:E.
    + inversion H; subst. apply IH1 in E.
      destruct E as (p & s' & -> & L & Hk). exists p, s'.
      repeat split; auto. lia.
    + apply IH2 in H. destruct H as (p & s' & -> & L & Hk). exists p, s'.
      repeat split; auto. lia.
  - destruct (rmatch r s k) eqn:E.
    + inversion H; subst. apply IH in E.
      destruct E as (p & s' & -> & L & Hk). exists p, s'.
      repeat split; auto. lia.
    + exists [], s. simpl. auto.
Qed.

(** A match starts where it was tried, covers at least the shortest text
    of the pattern and stays inside the text. *)
Lemma match_at_inv (p : pattern) (s : pystr) (pos : nat) (m : re_match) :
  match_at p s pos = Some m ->
  m_start m = pos /\ pos + pattern_min_len p <= m_end m
  /\ m_end m <= pos + length s.
Proof.
  unfold match_at, pattern_min_len. intros H.
  apply rmatch_inv in H. destruct H as (p1 & s1 & -> & L1 & H).
  apply rmatch_inv in H. destruct H as (p2 & s2 & -> & L2 & H).
  apply rmatch_inv in H. destruct H as (p3 & s3 & -> & L3 & H).
  inversion H; subst; simpl. rewrite !length_app. repeat split; lia.
Qed.

Lemma finditer_from_bounds (p : pattern) (s : pystr) :
  forall pos skip m,
    In m (finditer_from p s pos skip) ->
    pos + skip <= m_start m /\ m_start m + pattern_min_len p <= m_end m
    /\ m_end m <= pos + length s.
Proof.
  induction s as [|x s IH]; intros pos skip m H.
  - destruct skip; simpl in H; [|contradiction].
    destruct (match_at p [] pos) as [m0|] eqn:E; [|contradiction].
    destruct H as [<-|[]]. apply match_at_inv in E. simpl in *. lia.
  - destruct skip as [|n]; simpl in H.
    + destruct (match_at p (x :: s) pos) as [m0|] eqn:E.
      * destruct H as [<-|H].
        -- apply match_at_inv in E. simpl in *. lia.
        -- apply IH in H. simpl. lia.
      * apply IH in H. simpl. lia.
    + apply IH in H. simpl. lia.
Qed.

(** [finditer] yields its matches in textual order, none overlapping. *)
Lemma finditer_from_sorted (p : pattern) (s : pystr) :
  forall pos skip,
    StronglySorted (fun a b => m_end a <= m_start b)
      (finditer_from p s pos skip).
Proof.
  induction s as [|x s IH]; intros pos skip.
  - destruct skip; simpl; [|constructor].
    destruct (match_at p [] pos); repeat constructor.
  - destruct skip as [|n]; simpl; [|apply IH].
    destruct (match_at p (x :: s) pos) as [m0|] eqn:E; [|apply IH].
    constructor; [apply IH|].
    apply Forall_forall. intros m Hm.
    apply finditer_from_bounds in Hm. lia.
Qed.

Lemma sorted_before {T} (R : T -> T -> Prop) (l1 : list T) m l2 :
  StronglySorted R (l1 ++ m :: l2) -> Forall (fun x => R x m) l1.
Proof.
  induction l1 as [|a l1 IH]; simpl; intros H; [constructor|].
  inversion H as [|? ? Hs Hf]; subst. constructor.
  - rewrite Forall_forall in Hf. apply Hf. apply in_or_app. right. now left.
  - now apply IH.
Qed.

Lemma finditer_textual_order (p : pattern) (content : pystr) l1 m l2 :
  finditer p content = l1 ++ m :: l2 ->
  Forall (fun m' => m_end m' <= m_start m) l1.
Proof.
  intros H.
  apply (@sorted_before _ (fun a b => m_end a <= m_start b) l1 m l2).
  rewrite <- H.
  apply finditer_from_sorted.
Qed.

(** No pattern of the analyser matches the empty string. *)
Lemma match_at_nonempty (p : pattern) (s : pystr) (pos : nat) (m : re_match) :
  In p ([import_pattern; import_pattern2; simple_class_pattern;
         method_pattern; interface_pattern; type_pattern]
        ++ function_patterns) ->
  match_at p s pos = Some m -> m_start m < m_end m.
Proof.
  intros Hp H. apply match_at_inv in H.
  assert (1 <= pattern_min_len p).
  { simpl in Hp.
    repeat (destruct Hp as [<-|Hp]; [vm_compute; lia|]). contradiction. }
  lia.
Qed.
End MatcherFacts.

(** ** Brace structure and the scan *)

Lemma depth_after_app (l1 l2 : pystr) :
  forall d,
    depth_after d (l1 ++ l2) =
    match depth_after d l1 with
    | Some d' => depth_after d' l2
    | None => None
    end.
Proof.
  induction l1 as [|c l1 IH]; simpl; intros d; [reflexivity|].
  destruct (c =? open_brace)%N; [apply IH|].
  destruct (c =? close_brace)%N; [|apply IH].
  destruct d; [reflexivity | apply IH].
Qed.

Lemma depth_after_lift (l : pystr) :
  forall d d', depth_after d l = Some d' -> depth_after (S d) l = Some (S d').
Proof.
  induction l as [|c l IH]; simpl; intros d d' H.
  - congruence.
  - destruct (c =? open_brace)%N; [now apply IH|].
    destruct (c =? close_brace)%N; [|now apply IH].
    destruct d; [discriminate | now apply IH].
Qed.

Lemma depth_after_wrap (l : pystr) (d d' : nat) :
  depth_after d l = Some d' ->
  forall l2, depth_after d (open_brace :: l ++ close_brace :: l2)
             = depth_after d' l2.
Proof.
  intros H l2. change (open_brace :: l ++ close_brace :: l2)
    with ([open_brace] ++ l ++ close_brace :: l2).
  simpl. rewrite depth_after_app, (depth_after_lift _ _ H). reflexivity.
Qed.

Lemma balanced_depth (l : pystr) :
  balanced l -> forall d, depth_after d l = Some d.
Proof.
  induction 1 as [|c l Ho Hc _ IH|l1 l2 _ IH1 _ IH2]; intros d.
  - reflexivity.
  - simpl. apply N.eqb_neq in Ho, Hc. rewrite Ho, Hc. apply IH.
  - rewrite (depth_after_wrap _ _ (IH1 d)). apply IH2.
Qed.

Lemma pairs_inserted_depth (b b' : pystr) :
  pairs_inserted b b' ->
  forall d d', depth_after d b = Some d' -> depth_after d b' = Some d'.
Proof.
  induction 1 as [b|b l1 mid l2 _ IH]; intros d d' H; [assumption|].
  specialize (IH _ _ H). rewrite depth_after_app in IH |- *.
  destruct (depth_after d l1) as [d1|]; [|discriminate].
  rewrite depth_after_app in IH.
  destruct (depth_after d1 mid) as [d2|] eqn:E; [|discriminate].
  now rewrite (depth_after_wrap _ _ E).
Qed.

(** Over a stretch that returns to its depth the loop just moves on. *)
Lemma scan_loop_skips (body rest : pystr) :
  forall (d d' i : nat),
    depth_after d body = Some d' ->
    scan_loop (body ++ rest) i (Z.of_nat d)
    = scan_loop rest (i + length body) (Z.of_nat d').
Proof.
  induction body as [|c body IH]; simpl; intros d d' i H.
  - inversion H; subst. f_equal. lia.
  - replace (i + S (length body)) with (S i + length body) by lia.
    destruct (c =? open_brace)%N.
    + replace (Z.of_nat d + 1)%Z with (Z.of_nat (S d)) by lia. now apply IH.
    + destruct (c =? close_brace)%N; [|now apply IH].
      destruct d as [|d0]; [discriminate|].
      replace (Z.of_nat (S d0) - 1)%Z with (Z.of_nat d0) by lia.
      destruct (Z.eqb_spec (Z.of_nat d0) (-1)) as [Ez|Ez]; [lia|]. now apply IH.
Qed.

Lemma scan_loop_stops (rest : pystr) (i : nat) :
  scan_loop (close_brace :: rest) i 0 = Some i.
Proof. reflexivity. Qed.

Lemma find_close_after (pre body rest : pystr) :
  depth_after 0 body = Some 0 ->
  find_matching_close (pre ++ open_brace :: body ++ close_brace :: rest)
    (S (length pre))
  = Some (S (length pre) + length body).
Proof.
  intros H. unfold find_matching_close.
  replace (pre ++ open_brace :: body ++ close_brace :: rest)
    with ((pre ++ [open_brace]) ++ body ++ close_brace :: rest)
    by now rewrite <- app_assoc.
  replace (S (length pre)) with (length (pre ++ [open_brace]))
    by (rewrite length_app; simpl; lia).
  rewrite skipn_app, skipn_all, Nat.sub_diag. simpl.
  rewrite (scan_loop_skips _ _ 0 _ H). apply scan_loop_stops.
Qed.

Lemma count_char_cons (c x : char) (s : pystr) :
  count_char c (x :: s) = (if (x =? c)%N then 1 else 0) + count_char c s.
Proof.
  unfold count_char. simpl.
  destruct (N.eq_dec x c) as [E|E]; destruct (N.eqb_spec x c);
    try contradiction; reflexivity.
Qed.

(** The loop runs to the end of the text exactly when no prefix has more
    closing than opening braces (counting the depth it starts with). *)
Lemma scan_loop_None_iff (region : pystr) :
  forall (d i : nat),
    scan_loop region i (Z.of_nat d) = None <->
    forall n, count_char close_brace (firstn n region)
              <= d + count_char open_brace (firstn n region).
Proof.
  induction region as [|c region IH]; intros d i.
  - simpl. split; [|reflexivity]. intros _ n. rewrite firstn_nil.
    unfold count_char. simpl. lia.
  - simpl. destruct (N.eqb_spec c open_brace) as [Eo|Eo].
    + replace (Z.of_nat d + 1)%Z with (Z.of_nat (S d)) by lia.
      rewrite IH. subst c. split; intros H n.
      * destruct n; [unfold count_char; simpl; lia|].
        simpl firstn. rewrite !count_char_cons. specialize (H n).
        change (open_brace =? close_brace)%N with false.
        rewrite N.eqb_refl. lia.
      * specialize (H (S n)). simpl firstn in H.
        rewrite !count_char_cons in H.
        change (open_brace =? close_brace)%N with false in H.
        rewrite N.eqb_refl in H. lia.
    + destruct (N.eqb_spec c close_brace) as [Ec|Ec].
      * subst c. destruct d as [|d0].
        -- simpl. split; [discriminate|]. intros H. specialize (H 1).
           simpl firstn in H. rewrite !count_char_cons in H.
           unfold count_char in H. simpl in H. lia.
        -- replace (Z.of_nat (S d0) - 1)%Z with (Z.of_nat d0) by lia.
           destruct (Z.eqb_spec (Z.of_nat d0) (-1)) as [Ez|Ez]; [lia|].
           rewrite IH. split; intros H n.
           ++ destruct n; [unfold count_char; simpl; lia|].
              simpl firstn. rewrite !count_char_cons. specialize (H n).
              change (close_brace =? open_brace)%N with false.
              rewrite N.eqb_refl. lia.
           ++ specialize (H (S n)). simpl firstn in H.
              rewrite !count_char_cons in H.
              change (close_brace =? open_brace)%N with false in H.
              rewrite N.eqb_refl in H. lia.
      * rewrite IH. apply N.eqb_neq in Eo, Ec. split; intros H n.
        -- destruct n; [unfold count_char; simpl; lia|].
           simpl firstn. rewrite !count_char_cons, Eo, Ec. apply (H n).
        -- specialize (H (S n)). simpl firstn in H.
           now rewrite !count_char_cons, Eo, Ec in H.
Qed.

Lemma find_close_None_iff (content : pystr) (class_start : nat) :
  find_matching_close content class_start = None <->
  never_closes (skipn class_start content).
Proof.
  unfold find_matching_close, never_closes.
  change 0%Z with (Z.of_nat 0). rewrite scan_loop_None_iff. reflexivity.
Qed.

(** A reported offset is the index of a closing brace inside the text, at
    or after the start. *)
Lemma scan_loop_Some (chars : pystr) :
  forall i bc j,
    scan_loop chars i bc = Some j ->
    i <= j < i + length chars /\ nth_error chars (j - i) = Some close_brace.
Proof.
  induction chars as [|c chars IH]; simpl; intros i bc j H; [discriminate|].
  destruct (N.eqb_spec c open_brace).
  - apply IH in H. destruct H as [H1 H2]. split; [lia|].
    replace (j - i) with (S (j - S i)) by lia. exact H2.
  - destruct (N.eqb_spec c close_brace).
    + destruct (bc - 1 =? -1)%Z.
      * inversion H; subst. rewrite Nat.sub_diag. split; [lia|now subst].
      * apply IH in H. destruct H as [H1 H2]. split; [lia|].
        replace (j - i) with (S (j - S i)) by lia. exact H2.
    + apply IH in H. destruct H as [H1 H2]. split; [lia|].
      replace (j - i) with (S (j - S i)) by lia. exact H2.
Qed.

(** ** The extractors *)

Lemma set_to_list_nil {O : SetOrder} : set_to_list [] = [].
Proof.
  destruct (set_to_list []) as [|x l] eqn:E; [reflexivity|].
  assert (H : In x (set_to_list [])) by (rewrite E; now left).
  apply (proj1 (set_to_list_In [] x)) in H. destruct H.
Qed.

Lemma set_to_list_perm (O1 O2 : SetOrder) (xs : list pystr) :
  Permutation (@set_to_list O1 xs) (@set_to_list O2 xs).
Proof.
  apply NoDup_Permutation; try apply set_to_list_NoDup.
  intros x. now rewrite !set_to_list_In.
Qed.

Section ExtractorFacts.
Context {U : UnicodeDB}.

Lemma append_all_eq (f : re_match -> pystr) (ms : list re_match) :
  forall xs, append_all f xs ms = xs ++ map f ms.
Proof.
  unfold append_all. induction ms as [|m ms IH]; simpl; intros xs.
  - now rewrite app_nil_r.
  - rewrite IH, <- app_assoc. reflexivity.
Qed.

Lemma append_unreserved_eq (reserved : list pystr) (ms : list re_match) :
  forall xs,
    append_unreserved reserved xs ms
    = xs ++ filter (fun n => negb (py_in n reserved)) (map m_group1 ms).
Proof.
  unfold append_unreserved. induction ms as [|m ms IH]; simpl; intros xs.
  - now rewrite app_nil_r.
  - rewrite IH. destruct (negb (py_in (m_group1 m) reserved)); simpl.
    + now rewrite <- app_assoc.
    + reflexivity.
Qed.

Lemma append_unreserved_Forall (reserved : list pystr) (ms : list re_match) :
  forall xs,
    Forall (fun x => ~ In x reserved) xs ->
    Forall (fun x => ~ In x reserved) (append_unreserved reserved xs ms).
Proof.
  intros xs H. rewrite append_unreserved_eq. apply Forall_app. split; auto.
  apply Forall_forall. intros x Hx. apply filter_In in Hx.
  destruct Hx as [_ Hx]. apply negb_true_iff in Hx.
  now apply py_in_not_In.
Qed.

(** The second loop of [_extract_imports]: it appends only names that the
    list does not hold yet. *)
Lemma append_new_spec (ms : list re_match) :
  forall xs,
  exists extra,
    fold_left
      (fun imports m => if negb (py_in (m_group1 m) imports)
                        then imports ++ [m_group1 m] else imports) ms xs
    = xs ++ extra
    /\ NoDup extra
    /\ (forall y, In y extra -> ~ In y xs /\ In y (map m_group1 ms))
    /\ (forall y, In y (map m_group1 ms) -> In y (xs ++ extra)).
Proof.
  induction ms as [|m ms IH]; simpl; intros xs.
  - exists []. rewrite app_nil_r. repeat split; try constructor; easy.
  - destruct (py_in (m_group1 m) xs) eqn:E; simpl.
    + apply py_in_In in E.
      destruct (IH xs) as (extra & -> & Hnd & Hnew & Hall).
      exists extra. split; [reflexivity|]. split; [assumption|]. split.
      * intros y Hy. destruct (Hnew y Hy) as [H1 H2].
        split; [assumption | now right].
      * intros y [<-|Hy]; [apply in_or_app; now left | now apply Hall].
    + apply py_in_not_In in E.
      destruct (IH (xs ++ [m_group1 m])) as (extra & -> & Hnd & Hnew & Hall).
      exists (m_group1 m :: extra).
      split; [now rewrite <- app_assoc|]. split; [|split].
      * constructor; [|assumption]. intros Hin. apply Hnew in Hin.
        apply (proj1 Hin). apply in_or_app. right. now left.
      * intros y [<-|Hy]; [split; [assumption | now left]|].
        destruct (Hnew y Hy) as [H1 H2]. split; [|now right].
        intros Hx. apply H1. apply in_or_app. now left.
      * intros y [<-|Hy].
        -- apply in_or_app. right. now left.
        -- apply Hall in Hy. rewrite <- app_assoc in Hy. exact Hy.
Qed.

Lemma filter_reserved_nil (reserved : list pystr) (ms : list re_match) :
  Forall (fun m => In (m_group1 m) reserved) ms ->
  filter (fun n => negb (py_in n reserved)) (map m_group1 ms) = [].
Proof.
  induction 1 as [|m ms Hm _ IH]; simpl; [reflexivity|].
  apply py_in_In in Hm. now rewrite Hm.
Qed.

Lemma count_occ_absent (l : list pystr) x :
  ~ In x l -> count_occ pystr_eq_dec l x = 0.
Proof. apply count_occ_not_In. Qed.

Lemma no_methods_in_empty_body {O : SetOrder} (self : FrameworkAnalyzer) :
  _extract_class_methods self [] = [].
Proof. unfold _extract_class_methods. simpl. apply set_to_list_nil. Qed.

Lemma class_body_of_unclosed (content : pystr) (class_start : nat) :
  find_matching_close content class_start = None ->
  class_body_of content class_start = [].
Proof.
  unfold class_body_of, class_end_of. intros ->.
  now rewrite Nat.ltb_irrefl.
Qed.

Lemma extract_classes_assign {O : SetOrder} (self : FrameworkAnalyzer)
  (content : pystr) :
  _extract_classes self content
  = assign_all m_group1 (class_methods_of self content)
      (finditer simple_class_pattern content) [].
Proof. reflexivity. Qed.
End ExtractorFacts.

(** * Properties of the specification *)

Section Claims.
Context {U : UnicodeDB} {O : SetOrder}.
Variable self : FrameworkAnalyzer.

(** C1.  On the text [class Foo { bar() { if (x) { y(); } } baz() {} }]
    the class extractor records the class [Foo] with no member at all:
    the scan starts before the opening brace of the class, so the closing
    brace of the class only brings the count back to 0 and the body stays
    empty. *)
Theorem foo_class_recorded_without_members :
  _extract_classes self foo_source = [(str "Foo", [])].
Proof.
  unfold _extract_classes, class_methods_of.
  vm_compute finditer. simpl fold_left.
  change (class_body_of foo_source 9) with (@nil char).
  now rewrite no_methods_in_empty_body.
Qed.

(** The member extractor itself, given the text between the braces of
    [Foo], finds [bar] and [baz] and nothing else. *)
Lemma foo_body_members (x : pystr) :
  In x (_extract_class_methods self foo_body) <-> x = str "bar" \/ x = str "baz".
Proof.
  unfold _extract_class_methods. rewrite set_to_list_In.
  vm_compute append_unreserved.
  change (str "bar") with [98; 97; 114]%N.
  change (str "baz") with [98; 97; 122]%N.
  simpl. split; [intros [<-|[<-|[]]] | intros [->| ->]]; auto.
Qed.

(** C2.  Started just after an opening brace whose body is balanced, the
    scan returns the offset of the closing brace that follows the body;
    with further brace pairs put into the body it still returns the
    closing brace that follows the body. *)
Theorem scan_returns_matching_close (pre body rest : pystr) :
  balanced body ->
  find_matching_close (pre ++ open_brace :: body ++ close_brace :: rest)
    (S (length pre))
  = Some (S (length pre) + length body)
  /\ forall body',
      pairs_inserted body body' ->
      find_matching_close (pre ++ open_brace :: body' ++ close_brace :: rest)
        (S (length pre))
      = Some (S (length pre) + length body').
Proof.
  intros B. pose proof (balanced_depth B 0) as D. split.
  - now apply find_close_after.
  - intros body' P. apply find_close_after.
    now apply (pairs_inserted_depth P).
Qed.

(** C3.  When no closing brace of the scanned region takes the count to
    -1, the scan reports no offset, the body of that declaration is empty
    and its member list is empty; the class name is a key of the result,
    and its entry is the empty list unless a later declaration of the same
    name replaces it. *)
Theorem unclosed_class_recorded_empty (content : pystr)
  (l1 : list re_match) (m : re_match) (l2 : list re_match) :
  finditer simple_class_pattern content = l1 ++ m :: l2 ->
  never_closes (skipn (m_end m) content) ->
  find_matching_close content (m_end m) = None
  /\ class_body_of content (m_end m) = []
  /\ class_methods_of self content m = []
  /\ In (m_group1 m) (dict_keys (_extract_classes self content))
  /\ ((forall m', In m' l2 -> m_group1 m' <> m_group1 m) ->
      dict_get (_extract_classes self content) (m_group1 m) = Some []).
Proof.
  intros Hm Hn. apply find_close_None_iff in Hn.
  assert (Hb : class_body_of content (m_end m) = [])
    by now apply class_body_of_unclosed.
  assert (Hc : class_methods_of self content m = []).
  { unfold class_methods_of. rewrite Hb. apply no_methods_in_empty_body. }
  repeat split; auto; rewrite extract_classes_assign, Hm.
  - apply assign_all_key_in.
  - intros Hl. rewrite <- Hc. now apply assign_all_last.
Qed.

(** Every name that is declared has a last declaration. *)
Lemma declared_name_has_last_declaration (ms : list re_match) (name : pystr) :
  In name (map m_group1 ms) ->
  exists l1 m l2,
    ms = l1 ++ m :: l2 /\ m_group1 m = name
    /\ forall m', In m' l2 -> m_group1 m' <> m_group1 m.
Proof.
  induction ms as [|m0 ms IH]; simpl; [easy|]. intros H.
  destruct (in_dec pystr_eq_dec name (map m_group1 ms)) as [Hin|Hout].
  - destruct (IH Hin) as (l1 & m & l2 & -> & Hn & Hl).
    exists (m0 :: l1), m, l2. auto.
  - destruct H as [H|H]; [|contradiction].
    exists [], m0, ms. repeat split; auto.
    intros m' Hm' E. apply Hout. apply in_map_iff. exists m'.
    split; congruence.
Qed.

(** C10.  A class name has exactly one entry in the mapping, and the entry
    holds the members computed for the textually last declaration of that
    name: every other match lies before it in the text or carries another
    name. *)
Theorem last_declaration_wins (content : pystr)
  (l1 : list re_match) (m : re_match) (l2 : list re_match) :
  finditer simple_class_pattern content = l1 ++ m :: l2 ->
  (forall m', In m' l2 -> m_group1 m' <> m_group1 m) ->
  Forall (fun m' => m_end m' <= m_start m) l1
  /\ count_occ pystr_eq_dec (dict_keys (_extract_classes self content))
       (m_group1 m) = 1
  /\ dict_get (_extract_classes self content) (m_group1 m)
     = Some (class_methods_of self content m).
Proof.
  intros Hm Hl. split; [now apply finditer_textual_order with (1 := Hm)|].
  rewrite extract_classes_assign, Hm. split.
  - apply NoDup_count_one.
    + apply assign_all_NoDup. constructor.
    + apply assign_all_key_in.
  - now apply assign_all_last.
Qed.

(** C5.  On [import { A } from "mod1"; import "mod2";] the result is
    [mod1], [mod2].  For every text, a reference that the bound-name form
    captured occurs in the result as often as that form captured it, the
    side-effect-only form adding no further copy; a reference that only
    the side-effect-only form captured occurs once. *)
Theorem imports_bound_form_first :
  _extract_imports self imports_source = [str "mod1"; str "mod2"]
  /\ forall content x,
      (In x (map m_group1 (finditer import_pattern content)) ->
       count_occ pystr_eq_dec (_extract_imports self content) x
       = count_occ pystr_eq_dec
           (map m_group1 (finditer import_pattern content)) x)
      /\ (In x (map m_group1 (finditer import_pattern2 content)) ->
          ~ In x (map m_group1 (finditer import_pattern content)) ->
          count_occ pystr_eq_dec (_extract_imports self content) x = 1).
Proof.
  split; [reflexivity|]. intros content x.
  unfold _extract_imports. rewrite append_all_eq. simpl app.
  set (bound := map m_group1 (finditer import_pattern content)).
  destruct (append_new_spec (finditer import_pattern2 content) bound)
    as (extra & -> & Hnd & Hnew & Hall).
  rewrite count_occ_app. split.
  - intros Hb. rewrite (count_occ_absent extra); [lia|].
    intros Hx. now apply Hnew in Hx.
  - intros Hs Hb. rewrite (count_occ_absent bound) by assumption.
    apply Hall in Hs. apply in_app_or in Hs. destruct Hs as [Hs|Hs]; [easy|].
    now apply NoDup_count_one.
Qed.

(** C6.  The function extractor never returns [if], [for], [while] or
    [switch]. *)
Theorem functions_exclude_keywords (content : pystr) :
  Forall (fun x => ~ In x function_reserved)
    (_extract_functions self content).
Proof.
  unfold _extract_functions. apply Forall_forall. intros x Hx.
  apply (proj1 (set_to_list_In _ _)) in Hx. revert x Hx. apply Forall_forall.
  generalize function_patterns. intros ps.
  assert (G : forall acc, Forall (fun x => ~ In x function_reserved) acc ->
    Forall (fun x => ~ In x function_reserved)
      (fold_left (fun functions pattern =>
         append_unreserved function_reserved functions
           (finditer pattern content)) ps acc)).
  { induction ps as [|p ps IH]; simpl; intros acc H; [assumption|].
    apply IH. now apply append_unreserved_Forall. }
  apply G. constructor.
Qed.


(** C8.  On [interface Shape {} type Point = {x:number}] the result is
    [interface Shape], [type Point]. *)
Theorem shapes_interfaces :
  _extract_interfaces self shapes_source
  = [str "interface Shape"; str "type Point"].
Proof. reflexivity. Qed.

End Claims.

Lemma dict_set_same_classes (d1 d2 : dict (list pystr)) k v1 v2 :
  same_classes d1 d2 -> Permutation v1 v2 ->
  same_classes (dict_set d1 k v1) (dict_set d2 k v2).
Proof.
  unfold same_classes. intros H P.
  induction H as [|[k1 w1] [k2 w2] d1 d2 [Hk Hw] Hrest IH]; simpl.
  - repeat constructor. assumption.
  - simpl in Hk. subst k2. destruct (pystr_eqb k1 k).
    + constructor; [split; auto | exact Hrest].
    + constructor; [split; auto | exact IH].
Qed.

(** C9.  Two runs of the extraction on the same content, on whatever
    analyser objects and under whatever iteration orders of sets, give the
    same imports, the same interface and type entries and the same class
    names in the same order; the members of each class and the function
    names are the same up to their order.  The two records are identical
    when both runs iterate sets in the same order. *)
Theorem extraction_agrees_up_to_set_order {U : UnicodeDB} (O1 O2 : SetOrder)
  (self1 self2 : FrameworkAnalyzer) (content : pystr) :
  let r1 := @analyze_content U O1 self1 content in
  let r2 := @analyze_content U O2 self2 content in
  fr_imports r1 = fr_imports r2
  /\ fr_interfaces r1 = fr_interfaces r2
  /\ Permutation (fr_functions r1) (fr_functions r2)
  /\ same_classes (fr_classes r1) (fr_classes r2)
  /\ ((forall xs, @set_to_list O1 xs = @set_to_list O2 xs) -> r1 = r2).
Proof.
  simpl. repeat split.
  - apply set_to_list_perm.
  - unfold _extract_classes.
    generalize (finditer simple_class_pattern content). intros ms.
    assert (G : forall d1 d2, same_classes d1 d2 ->
      same_classes
        (fold_left (fun classes m => dict_set classes (m_group1 m)
                      (@class_methods_of U O1 self1 content m)) ms d1)
        (fold_left (fun classes m => dict_set classes (m_group1 m)
                      (@class_methods_of U O2 self2 content m)) ms d2)).
    { induction ms as [|m ms IH]; simpl; intros d1 d2 H; [assumption|].
      apply IH. apply dict_set_same_classes; [assumption|].
      apply set_to_list_perm. }
    apply G. constructor.
  - intros E. unfold analyze_content. f_equal.
    + unfold _extract_classes.
      generalize (@nil (pystr * list pystr)).
      generalize (finditer simple_class_pattern content). intros ms.
      induction ms as [|m ms IH]; simpl; intros d; [reflexivity|].
      rewrite IH. do 2 f_equal.
      unfold class_methods_of, _extract_class_methods. apply E.
    + unfold _extract_functions. apply E.
Qed.


(** ** Concrete inputs *)

Lemma small_body_balanced : balanced small_body.
Proof.
  change small_body
    with (str " f() " ++ open_brace :: str " " ++ close_brace :: str " ").
  simpl app.
  repeat (apply balanced_char; [discriminate | discriminate |]).
  apply (balanced_pair (l1 := str " ") (l2 := str " "));
    repeat (apply balanced_char; [discriminate | discriminate |]);
    apply balanced_nil.
Qed.

Lemma small_body_more_inserted : pairs_inserted small_body small_body_more.
Proof.
  change small_body_more
    with (str " f() {" ++ open_brace :: str " " ++ close_brace :: str "} ").
  apply pairs_more. apply pairs_none.
Qed.

Lemma scan_returns_matching_close_witness :
  find_matching_close
    (str "class A " ++ open_brace :: small_body ++ close_brace :: str " x") 9
  = Some 18
  /\ find_matching_close
       (str "class A " ++ open_brace :: small_body_more ++ close_brace :: str " x") 9
     = Some 20.
Proof.
  destruct (scan_returns_matching_close (str "class A ") (str " x")
              small_body_balanced) as [H1 H2].
  split; [exact H1 | exact (H2 _ small_body_more_inserted)].
Defined.

Lemma foo_scan_never_closes : never_closes (skipn 9 foo_source).
Proof. apply find_close_None_iff. vm_compute. reflexivity. Qed.

Lemma unclosed_class_recorded_empty_witness :
  find_matching_close foo_source 9 = None
  /\ dict_get
       (@_extract_classes ascii_db first_seen_order (new_analyzer (str "."))
          foo_source)
       (str "Foo")
     = Some [].
Proof.
  destruct (@unclosed_class_recorded_empty ascii_db first_seen_order
              (new_analyzer (str ".")) foo_source []
              {| m_start := 0; m_end := 9; m_group1 := str "Foo" |} []
              eq_refl foo_scan_never_closes)
    as (H1 & _ & _ & _ & H5).
  split; [exact H1 | apply H5; intros m' []].
Defined.

(** C3, as stated, fails where the name is declared again: the scan of the
    first [class A] runs to the end of the text, and the entry for [A] holds
    the member found under the second. *)
Lemma unclosed_redeclared_class_has_member :
  In {| m_start := 0; m_end := 7; m_group1 := str "A" |}
    (@finditer ascii_db simple_class_pattern unclosed_redeclared_source)
  /\ never_closes (skipn 7 unclosed_redeclared_source)
  /\ dict_get
       (@_extract_classes ascii_db first_seen_order (new_analyzer (str "."))
          unclosed_redeclared_source)
       (str "A")
     = Some [str "foo"].
Proof.
  split; [vm_compute; now left|]. split; [|vm_compute; reflexivity].
  apply find_close_None_iff. vm_compute. reflexivity.
Qed.

Lemma last_declaration_wins_witness :
  count_occ pystr_eq_dec
    (dict_keys
       (@_extract_classes ascii_db first_seen_order (new_analyzer (str "."))
          redeclared_source))
    (str "A") = 1
  /\ dict_get
       (@_extract_classes ascii_db first_seen_order (new_analyzer (str "."))
          redeclared_source)
       (str "A")
     = Some [str "b"].
Proof.
  destruct (@last_declaration_wins ascii_db first_seen_order
              (new_analyzer (str ".")) redeclared_source
              [{| m_start := 2; m_end := 9; m_group1 := str "A" |}]
              {| m_start := 20; m_end := 27; m_group1 := str "A" |} []
              eq_refl (fun m' (H : In m' []) => match H with end))
    as (_ & H2 & H3).
  split; [exact H2 | exact H3].
Defined.



Lemma extraction_agrees_up_to_set_order_witness :
  Permutation
    (fr_functions (@analyze_content ascii_db first_seen_order
                     (new_analyzer (str ".")) two_functions_source))
    (fr_functions (@analyze_content ascii_db reverse_seen_order
                     (new_analyzer (str "src")) two_functions_source))
  /\ @analyze_content ascii_db first_seen_order
       (new_analyzer (str ".")) two_functions_source
     = @analyze_content ascii_db first_seen_order
         (new_analyzer (str "src")) two_functions_source.
Proof.
  split.
  - exact (proj1 (proj2 (proj2
             (@extraction_agrees_up_to_set_order ascii_db first_seen_order
                reverse_seen_order (new_analyzer (str "."))
                (new_analyzer (str "src")) two_functions_source)))).
  - exact (proj2 (proj2 (proj2 (proj2
             (@extraction_agrees_up_to_set_order ascii_db first_seen_order
                first_seen_order (new_analyzer (str "."))
                (new_analyzer (str "src")) two_functions_source))))
             (fun xs => eq_refl)).
Defined.

(** C9, as stated, fails between two runs that iterate sets in different
    orders: the function names come out in another order, and the records
    differ. *)
Lemma set_order_changes_record :
  fr_functions (@analyze_content ascii_db first_seen_order
                  (new_analyzer (str ".")) two_functions_source)
  = [str "a"; str "b"]
  /\ fr_functions (@analyze_content ascii_db reverse_seen_order
                     (new_analyzer (str ".")) two_functions_source)
     = [str "b"; str "a"]
  /\ @analyze_content ascii_db first_seen_order
       (new_analyzer (str ".")) two_functions_source
     <> @analyze_content ascii_db reverse_seen_order
          (new_analyzer (str ".")) two_functions_source.
Proof.
  split; [vm_compute; reflexivity|]. split; [vm_compute; reflexivity|].
  intros E. apply (f_equal fr_functions) in E. vm_compute in E. discriminate.
Qed.

Lemma imports_bound_form_first_witness :
  In (str "m")
    (map m_group1 (@finditer ascii_db import_pattern repeated_import_source))
  /\ count_occ pystr_eq_dec
       (@_extract_imports ascii_db (new_analyzer (str "."))
          repeated_import_source) (str "m")
     = count_occ pystr_eq_dec
         (map m_group1 (@finditer ascii_db import_pattern repeated_import_source))
         (str "m").
Proof.
  assert (H : In (str "m")
    (map m_group1 (@finditer ascii_db import_pattern repeated_import_source)))
    by (vm_compute; now left).
  split; [exact H|].
  exact (proj1 (proj2 (@imports_bound_form_first ascii_db
                         (new_analyzer (str "."))) repeated_import_source
                  (str "m")) H).
Defined.

(** C5, as stated, fails where the bound-name form captures a reference
    twice: the reference is in the result twice, though the side-effect-only
    form matched it as well. *)
Lemma repeated_import_listed_twice :
  In (str "m")
    (map m_group1 (@finditer ascii_db import_pattern repeated_import_source))
  /\ In (str "m")
       (map m_group1 (@finditer ascii_db import_pattern2 repeated_import_source))
  /\ @_extract_imports ascii_db (new_analyzer (str ".")) repeated_import_source
     = [str "m"; str "m"]
  /\ count_occ pystr_eq_dec
       (@_extract_imports ascii_db (new_analyzer (str "."))
          repeated_import_source) (str "m") = 2.
Proof.
  split; [vm_compute; now left|]. split; [vm_compute; now left|].
  split; vm_compute; reflexivity.
Qed.

(** C6, as stated, fails on a function named [constructor]: the name is
    reserved for members and returned by the function extractor. *)
Lemma constructor_function_returned :
  In (str "constructor") method_reserved
  /\ In (str "constructor")
       (@_extract_functions ascii_db first_seen_order (new_analyzer (str "."))
          constructor_function_source).
Proof. split; vm_compute; now left. Qed.

(** * Further properties of the extraction core *)

(** ** The scan, characterised *)

Lemma scan_loop_Some_depth (chars : pystr) :
  forall (d i j : nat),
    scan_loop chars i (Z.of_nat d) = Some j ->
    exists k, j = i + k /\ nth_error chars k = Some close_brace
              /\ depth_after d (firstn k chars) = Some 0.
Proof.
  induction chars as [|c chars IH]; simpl; intros d i j H; [discriminate|].
  destruct (N.eqb_spec c open_brace) as [Eo|Eo].
  - replace (Z.of_nat d + 1)%Z with (Z.of_nat (S d)) in H by lia.
    apply IH in H. destruct H as (k & -> & Hn & Hd).
    exists (S k). simpl. subst c. rewrite N.eqb_refl.
    repeat split; auto; lia.
  - destruct (N.eqb_spec c close_brace) as [Ec|Ec].
    + destruct d as [|d0].
      * simpl in H. inversion H; subst. exists 0. simpl.
        repeat split; auto; lia.
      * replace (Z.of_nat (S d0) - 1)%Z with (Z.of_nat d0) in H by lia.
        destruct (Z.eqb_spec (Z.of_nat d0) (-1)) as [Ez|Ez]; [lia|].
        apply IH in H. destruct H as (k & -> & Hn & Hd).
        exists (S k). simpl. subst c.
        change (close_brace =? open_brace)%N with false.
        rewrite N.eqb_refl. repeat split; auto; lia.
    + apply IH in H. destruct H as (k & -> & Hn & Hd).
      exists (S k). simpl. apply N.eqb_neq in Eo, Ec. rewrite Eo, Ec.
      repeat split; auto; lia.
Qed.

Lemma scan_loop_depth_Some (chars : pystr) :
  forall (d i k : nat),
    nth_error chars k = Some close_brace ->
    depth_after d (firstn k chars) = Some 0 ->
    scan_loop chars i (Z.of_nat d) = Some (i + k).
Proof.
  induction chars as [|c chars IH]; intros d i k Hn Hd.
  - destruct k; discriminate.
  - destruct k as [|k]; simpl in *.
    + inversion Hn; subst c. inversion Hd; subst d.
      change (close_brace =? open_brace)%N with false.
      rewrite N.eqb_refl. simpl. f_equal. lia.
    + replace (i + S k) with (S i + k) by lia.
      destruct (N.eqb_spec c open_brace) as [Eo|Eo].
      * replace (Z.of_nat d + 1)%Z with (Z.of_nat (S d)) by lia.
        now apply IH.
      * destruct (N.eqb_spec c close_brace) as [Ec|Ec]; [|now apply IH].
        destruct d as [|d0]; [discriminate|].
        replace (Z.of_nat (S d0) - 1)%Z with (Z.of_nat d0) by lia.
        destruct (Z.eqb_spec (Z.of_nat d0) (-1)) as [Ez|Ez]; [lia|].
        now apply IH.
Qed.

(** The scan returns [j] exactly when [j] holds a closing brace and the text
    from the start up to [j] has all its braces matched: [j] is the first
    closing brace without a partner. *)
Lemma find_close_Some_spec (content : pystr) (class_start j : nat) :
  find_matching_close content class_start = Some j <->
  class_start <= j
  /\ nth_error content j = Some close_brace
  /\ depth_after 0 (slice content class_start j) = Some 0.
Proof.
  unfold find_matching_close, slice. change 0%Z with (Z.of_nat 0). split.
  - intros H. apply scan_loop_Some_depth in H.
    destruct H as (k & -> & Hn & Hd).
    rewrite nth_error_skipn in Hn.
    replace (class_start + k - class_start) with k by lia.
    repeat split; auto; lia.
  - intros (Hle & Hn & Hd).
    replace j with (class_start + (j - class_start)) at 1 by lia.
    apply scan_loop_depth_Some; [|assumption].
    rewrite nth_error_skipn.
    now replace (class_start + (j - class_start)) with j by lia.
Qed.


(** ** Balanced text, by depth *)

Lemma closes_char (c : char) (l : pystr) (d : nat) :
  c <> open_brace -> c <> close_brace -> closes d l -> closes d (c :: l).
Proof.
  intros Ho Hc. destruct d as [|d]; simpl.
  - now apply balanced_char.
  - intros (b & rest & -> & Hb & Hr). exists (c :: b), rest.
    repeat split; auto. now apply balanced_char.
Qed.

Lemma closes_open (l : pystr) (d : nat) :
  closes (S d) l -> closes d (open_brace :: l).
Proof.
  simpl. intros (b & rest & -> & Hb & Hr). destruct d as [|d]; simpl in *.
  - now apply balanced_pair.
  - destruct Hr as (b' & rest' & -> & Hb' & Hr').
    exists (open_brace :: b ++ close_brace :: b'), rest'.
    repeat split; auto.
    + simpl. now rewrite <- app_assoc.
    + now apply balanced_pair.
Qed.

Lemma depth_closes (l : pystr) :
  forall d, depth_after d l = Some 0 -> closes d l.
Proof.
  induction l as [|c l IH]; simpl; intros d H.
  - inversion H; subst. simpl. constructor.
  - destruct (N.eqb_spec c open_brace) as [Eo|Eo].
    + subst c. apply closes_open. now apply IH.
    + destruct (N.eqb_spec c close_brace) as [Ec|Ec].
      * subst c. destruct d as [|d]; [discriminate|].
        exists [], l. repeat split; auto. constructor.
      * apply closes_char; auto.
Qed.

(** The two descriptions of well-formed text agree. *)
Lemma balanced_iff_depth (l : pystr) :
  balanced l <-> depth_after 0 l = Some 0.
Proof.
  split; [intros H; now apply balanced_depth | apply (depth_closes l 0)].
Qed.

(** ** Where the class body ends *)

Lemma class_body_of_found (content : pystr) (class_start j : nat) :
  find_matching_close content class_start = Some j ->
  class_body_of content class_start = slice content class_start j
  /\ length (class_body_of content class_start) = j - class_start.
Proof.
  intros H. unfold class_body_of, class_end_of. rewrite H.
  apply find_close_Some_spec in H. destruct H as (Hle & Hn & _).
  assert (Hlt : j < length content) by (apply nth_error_Some; congruence).
  destruct (Nat.ltb_spec class_start j) as [L|L].
  - split; [reflexivity|]. unfold slice.
    rewrite length_firstn, length_skipn. lia.
  - replace j with class_start by lia. unfold slice.
    rewrite Nat.sub_diag. simpl. auto.
Qed.

(** X2.  A class body that is not empty has all its braces matched, is the
    text from the end of the class name on, and is followed by a closing
    brace. *)
Theorem class_body_braces_matched (content : pystr) (class_start : nat) :
  class_body_of content class_start <> [] ->
  let body := class_body_of content class_start in
  balanced body
  /\ body = slice content class_start (class_start + length body)
  /\ nth_error content (class_start + length body) = Some close_brace.
Proof.
  intros Hne. simpl.
  destruct (find_matching_close content class_start) as [j|] eqn:E.
  - destruct (class_body_of_found _ _ E) as [Hb Hl].
    apply find_close_Some_spec in E. destruct E as (Hle & Hn & Hd).
    replace (class_start + length (class_body_of content class_start))
      with j by lia.
    rewrite Hb. repeat split; auto. now apply balanced_iff_depth.
  - now rewrite class_body_of_unclosed in Hne.
Qed.

Lemma find_close_balanced_prefix (pre b rest : pystr) :
  balanced b ->
  find_matching_close (pre ++ b ++ close_brace :: rest) (length pre)
  = Some (length pre + length b).
Proof.
  intros Hb. apply find_close_Some_spec. split; [lia|]. split.
  - rewrite nth_error_app2 by lia.
    replace (length pre + length b - length pre) with (length b) by lia.
    rewrite nth_error_app2 by lia. now rewrite Nat.sub_diag.
  - unfold slice. rewrite skipn_app, skipn_all, Nat.sub_diag. simpl.
    replace (length pre + length b - length pre) with (length b) by lia.
    rewrite firstn_app, firstn_all, Nat.sub_diag. simpl.
    rewrite app_nil_r. now apply balanced_iff_depth.
Qed.

Lemma class_body_balanced_prefix (pre b rest : pystr) :
  balanced b ->
  class_body_of (pre ++ b ++ close_brace :: rest) (length pre) = b.
Proof.
  intros Hb.
  destruct (class_body_of_found _ _ (find_close_balanced_prefix pre rest Hb))
    as [-> _].
  unfold slice. rewrite skipn_app, skipn_all, Nat.sub_diag. simpl.
  replace (length pre + length b - length pre) with (length b) by lia.
  rewrite firstn_app, firstn_all, Nat.sub_diag. simpl. apply app_nil_r.
Qed.

Section BodyFacts.
Context {U : UnicodeDB} {O : SetOrder}.
Variable self : FrameworkAnalyzer.

(** X3.  In a well-formed text, a class declared at the top level (outside
    every brace pair) gets no body from the scan and no members; its name is
    a key of the mapping, and its entry is the empty list unless a later
    declaration of the same name replaces it. *)
Theorem top_level_class_has_no_members (content : pystr)
  (l1 : list re_match) (m : re_match) (l2 : list re_match) :
  balanced content ->
  finditer simple_class_pattern content = l1 ++ m :: l2 ->
  balanced (firstn (m_end m) content) ->
  find_matching_close content (m_end m) = None
  /\ class_methods_of self content m = []
  /\ In (m_group1 m) (dict_keys (_extract_classes self content))
  /\ ((forall m', In m' l2 -> m_group1 m' <> m_group1 m) ->
      dict_get (_extract_classes self content) (m_group1 m) = Some []).
Proof.
  intros Hc Hm Hp.
  assert (Hn : find_matching_close content (m_end m) = None).
  { apply balanced_iff_depth in Hc, Hp.
    rewrite <- (firstn_skipn (m_end m) content), depth_after_app, Hp in Hc.
    unfold find_matching_close. change 0%Z with (Z.of_nat 0).
    rewrite <- (app_nil_r (skipn (m_end m) content)).
    rewrite (scan_loop_skips _ _ _ _ Hc). reflexivity. }
  assert (He : class_methods_of self content m = []).
  { unfold class_methods_of. rewrite class_body_of_unclosed by assumption.
    apply no_methods_in_empty_body. }
  repeat split; auto; rewrite extract_classes_assign, Hm.
  - apply assign_all_key_in.
  - intros Hl. rewrite <- He. now apply assign_all_last.
Qed.

(** X4.  For a class declared inside a block, the members are taken from all
    the text between the class name and the closing brace of that block. *)
Theorem nested_class_body_runs_to_block_end
  (pre b rest : pystr) (m : re_match) :
  balanced b ->
  m_end m = length pre ->
  class_methods_of self (pre ++ b ++ close_brace :: rest) m
  = _extract_class_methods self b.
Proof.
  intros Hb He. unfold class_methods_of. rewrite He.
  now rewrite class_body_balanced_prefix.
Qed.
End BodyFacts.

(** X1.  The scan returns [j] exactly when [j] holds a closing brace and all
    the braces between the start and [j] are matched: the first closing
    brace without a partner. *)
Theorem scan_finds_first_unmatched_close (content : pystr)
  (class_start j : nat) :
  find_matching_close content class_start = Some j <->
  class_start <= j
  /\ nth_error content j = Some close_brace
  /\ balanced (slice content class_start j).
Proof.
  rewrite find_close_Some_spec.
  now rewrite (balanced_iff_depth (slice content class_start j)).
Qed.

(** ** What a captured name looks like *)

Section GroupFacts.
Context {U : UnicodeDB}.

Lemma star_match_class {A} (c : cls) (s : pystr) (k : pystr -> option A) a :
  star_match c s k = Some a ->
  exists p s', s = p ++ s' /\ Forall (fun x => cls_mem c x = true) p
               /\ k s' = Some a.
Proof.
  induction s as [|x s IH]; simpl; intros H.
  - exists [], []. auto.
  - destruct (cls_mem c x) eqn:Ex.
    + destruct (star_match c s k) eqn:E.
      * inversion H; subst. destruct (IH eq_refl) as (p & s' & -> & Hp & Hk).
        exists (x :: p), s'. auto.
      * exists [], (x :: s). auto.
    + exists [], (x :: s). auto.
Qed.

Lemma plus_match_class {A} (c : cls) (s : pystr) (k : pystr -> option A) a :
  rmatch (Plus c) s k = Some a ->
  exists p s', s = p ++ s' /\ p <> [] /\ Forall (fun x => cls_mem c x = true) p
               /\ k s' = Some a.
Proof.
  simpl. destruct s as [|x s]; [discriminate|].
  destruct (cls_mem c x) eqn:Ex; [|discriminate]. intros H.
  apply star_match_class in H. destruct H as (p & s' & -> & Hp & Hk).
  exists (x :: p), s'. repeat split; auto. discriminate.
Qed.

(** The group of a match is a piece of the text the match was tried on; when
    the group is [k+], it is a non-empty run of characters of [k]. *)
Lemma match_at_group (p : pattern) (s : pystr) (pos : nat) (m : re_match) :
  match_at p s pos = Some m ->
  (exists a b, s = a ++ m_group1 m ++ b)
  /\ forall c, group1 p = Plus c ->
       m_group1 m <> [] /\ Forall (fun x => cls_mem c x = true) (m_group1 m).
Proof.
  unfold match_at. intros H.
  apply rmatch_inv in H. destruct H as (p1 & s1 & -> & _ & H).
  assert (G : forall g s2, s1 = g ++ s2 ->
            firstn (length s1 - length s2) s1 = g).
  { intros g s2 ->. rewrite length_app.
    replace (length g + length s2 - length s2) with (length g) by lia.
    rewrite firstn_app, firstn_all, Nat.sub_diag. simpl. apply app_nil_r. }
  split.
  - apply rmatch_inv in H. destruct H as (g & s2 & E & _ & H).
    apply rmatch_inv in H. destruct H as (p3 & s3 & _ & _ & H).
    inversion H; subst m; simpl. rewrite (G g s2 E).
    exists p1, s2. now rewrite E.
  - intros c Ec. rewrite Ec in H. apply plus_match_class in H.
    destruct H as (g & s2 & E & Hne & Hg & H).
    apply rmatch_inv in H. destruct H as (p3 & s3 & _ & _ & H).
    inversion H; subst m; simpl. rewrite (G g s2 E). auto.
Qed.

Lemma finditer_from_group (p : pattern) (s : pystr) :
  forall pos skip m,
    In m (finditer_from p s pos skip) ->
    (exists a b, s = a ++ m_group1 m ++ b)
    /\ forall c, group1 p = Plus c ->
         m_group1 m <> []
         /\ Forall (fun x => cls_mem c x = true) (m_group1 m).
Proof.
  assert (Sub : forall x s' (g : pystr),
            (exists a b, s' = a ++ g ++ b) ->
            exists a b, x :: s' = a ++ g ++ b).
  { intros x s' g (a & b & ->). now exists (x :: a), b. }
  induction s as [|x s IH]; intros pos skip m H.
  - destruct skip; simpl in H; [|contradiction].
    destruct (match_at p [] pos) as [m0|] eqn:E; [|contradiction].
    destruct H as [<-|[]]. now apply match_at_group with (pos := pos).
  - destruct skip as [|n]; simpl in H.
    + destruct (match_at p (x :: s) pos) as [m0|] eqn:E.
      * destruct H as [<-|H].
        -- now apply match_at_group with (pos := pos).
        -- apply IH in H. destruct H as [H1 H2]. split; auto.
      * apply IH in H. destruct H as [H1 H2]. split; auto.
    + apply IH in H. destruct H as [H1 H2]. split; auto.
Qed.

(** Every name [finditer] captures occurs in the text. *)
Lemma finditer_group_in_text (p : pattern) (content : pystr) (m : re_match) :
  In m (finditer p content) ->
  exists a b, content = a ++ m_group1 m ++ b.
Proof. intros H. now apply finditer_from_group in H. Qed.

Lemma finditer_group_run (p : pattern) (c : cls) (content : pystr)
  (m : re_match) :
  group1 p = Plus c ->
  In m (finditer p content) ->
  m_group1 m <> [] /\ Forall (fun x => cls_mem c x = true) (m_group1 m).
Proof. intros E H. apply finditer_from_group in H. now apply H. Qed.
End GroupFacts.

(** ** What the extractors return *)

Section DictMore.
Context {V M : Type}.
Variables (key : M -> pystr) (val : M -> V).

Lemma assign_all_keys_from (ms : list M) :
  forall (d : dict V) k,
    In k (dict_keys (assign_all key val ms d)) ->
    In k (dict_keys d) \/ In k (map key ms).
Proof.
  induction ms as [|m ms IH]; simpl; intros d k H; [now left|].
  apply IH in H. destruct H as [H|H]; [|now right; right].
  rewrite dict_keys_set in H.
  destruct (py_in (key m) (dict_keys d)); [now left|].
  apply in_app_or in H. destruct H as [H|[<-|[]]]; [now left|].
  right. now left.
Qed.

Lemma assign_all_keys_iff (ms : list M) (k : pystr) :
  In k (dict_keys (assign_all key val ms [])) <-> In k (map key ms).
Proof.
  split.
  - intros H. apply assign_all_keys_from in H. now destruct H.
  - intros H. apply in_map_iff in H. destruct H as (m & <- & Hm).
    apply in_split in Hm. destruct Hm as (l1 & l2 & ->).
    apply assign_all_key_in.
Qed.

Lemma assign_all_get_from (ms : list M) :
  forall (d : dict V) k v,
    dict_get (assign_all key val ms d) k = Some v ->
    dict_get d k = Some v \/ exists m, In m ms /\ key m = k /\ val m = v.
Proof.
  induction ms as [|m ms IH]; simpl; intros d k v H; [now left|].
  apply IH in H. destruct H as [H|(m' & Hm' & Hk & Hv)].
  - destruct (pystr_eq_dec k (key m)) as [->|N].
    + rewrite dict_get_set_same in H. inversion H; subst.
      right. exists m. auto.
    + rewrite dict_get_set_other in H by assumption. now left.
  - right. exists m'. auto.
Qed.

Lemma assign_all_keys_length (ms : list M) :
  forall d : dict V,
    length (dict_keys (assign_all key val ms d))
    <= length (dict_keys d) + length ms.
Proof.
  induction ms as [|m ms IH]; simpl; intros d; [lia|].
  specialize (IH (dict_set d (key m) (val m))).
  rewrite dict_keys_set in IH.
  destruct (py_in (key m) (dict_keys d)).
  - lia.
  - rewrite length_app in IH. simpl in IH. lia.
Qed.
End DictMore.

Section ExtractorShapes.
Context {U : UnicodeDB} {O : SetOrder}.
Variable self : FrameworkAnalyzer.

Lemma functions_list_eq (content : pystr) (ps : list pattern) :
  forall acc,
    fold_left
      (fun functions pattern =>
         append_unreserved function_reserved functions (finditer pattern content))
      ps acc
    = acc ++ flat_map
               (fun p => filter (fun n => negb (py_in n function_reserved))
                           (map m_group1 (finditer p content))) ps.
Proof.
  induction ps as [|p ps IH]; simpl; intros acc.
  - now rewrite app_nil_r.
  - rewrite IH, append_unreserved_eq, <- app_assoc. reflexivity.
Qed.

Lemma methods_In_iff (class_body x : pystr) :
  In x (_extract_class_methods self class_body) <->
  ~ In x method_reserved
  /\ In x (map m_group1 (finditer method_pattern class_body)).
Proof.
  unfold _extract_class_methods.
  rewrite set_to_list_In, append_unreserved_eq, app_nil_l.
  rewrite filter_In. split.
  - intros [Hx Hr]. apply negb_true_iff, py_in_not_In in Hr. auto.
  - intros [Hr Hx]. split; [assumption|].
    now apply negb_true_iff, py_in_not_In.
Qed.

Lemma functions_In_iff (content x : pystr) :
  In x (_extract_functions self content) <->
  ~ In x function_reserved
  /\ exists p, In p function_patterns
               /\ In x (map m_group1 (finditer p content)).
Proof.
  unfold _extract_functions.
  rewrite set_to_list_In, functions_list_eq, app_nil_l.
  rewrite in_flat_map. split.
  - intros (p & Hp & Hx). apply filter_In in Hx. destruct Hx as [Hx Hr].
    apply negb_true_iff, py_in_not_In in Hr. split; [assumption|].
    now exists p.
  - intros (Hr & p & Hp & Hx). exists p. split; [assumption|].
    apply filter_In. split; [assumption|].
    now apply negb_true_iff, py_in_not_In.
Qed.

Lemma class_keys_In_iff (content k : pystr) :
  In k (dict_keys (_extract_classes self content)) <->
  In k (map m_group1 (finditer simple_class_pattern content)).
Proof. rewrite extract_classes_assign. apply assign_all_keys_iff. Qed.

(** X5.  The member extractor returns exactly the names the pattern captures
    in the body that are not reserved; the function extractor exactly the
    unreserved names its three patterns capture; each once. *)
Theorem extractors_return_unreserved_captures :
  (forall class_body x,
      In x (_extract_class_methods self class_body) <->
      ~ In x method_reserved
      /\ In x (map m_group1 (finditer method_pattern class_body)))
  /\ (forall content x,
        In x (_extract_functions self content) <->
        ~ In x function_reserved
        /\ exists p, In p function_patterns
                     /\ In x (map m_group1 (finditer p content)))
  /\ (forall content, NoDup (_extract_functions self content)).
Proof.
  split; [exact methods_In_iff|]. split; [exact functions_In_iff|].
  intros content. apply set_to_list_NoDup.
Qed.

(** X6.  The class mapping has one key for each declared name and no other,
    so at most as many entries as declarations; every member list in it is
    a list the member extractor returned for some declaration. *)
Theorem class_keys_are_declared_names (content : pystr) :
  (forall k, In k (dict_keys (_extract_classes self content)) <->
             In k (map m_group1 (finditer simple_class_pattern content)))
  /\ NoDup (dict_keys (_extract_classes self content))
  /\ length (_extract_classes self content)
     <= length (finditer simple_class_pattern content)
  /\ (forall k methods,
        dict_get (_extract_classes self content) k = Some methods ->
        exists m, In m (finditer simple_class_pattern content)
                  /\ m_group1 m = k
                  /\ methods = class_methods_of self content m).
Proof.
  split; [intros k; apply class_keys_In_iff|].
  rewrite extract_classes_assign. repeat split.
  - apply assign_all_NoDup. constructor.
  - pose proof (assign_all_keys_length m_group1
                  (class_methods_of self content)
                  (finditer simple_class_pattern content) []) as H.
    unfold dict_keys in H. rewrite length_map in H. simpl in H. exact H.
  - intros k methods H. apply assign_all_get_from in H.
    destruct H as [H|(m & Hm & Hk & Hv)]; [discriminate|].
    exists m. auto.
Qed.

(** X7.  Every class name, member name and function name returned is an
    identifier: a non-empty run of word characters. *)
Theorem returned_names_are_identifiers :
  (forall content,
      Forall identifier (dict_keys (_extract_classes self content)))
  /\ (forall class_body,
        Forall identifier (_extract_class_methods self class_body))
  /\ (forall content, Forall identifier (_extract_functions self content)).
Proof.
  split; [|split].
  - intros content. apply Forall_forall. intros k Hk.
    apply class_keys_In_iff in Hk.
    apply in_map_iff in Hk. destruct Hk as (m & <- & Hm).
    exact (@finditer_group_run U simple_class_pattern CWord content m
             eq_refl Hm).
  - intros class_body. apply Forall_forall. intros x Hx.
    apply methods_In_iff in Hx.
    destruct Hx as [_ Hx]. apply in_map_iff in Hx.
    destruct Hx as (m & <- & Hm).
    exact (@finditer_group_run U method_pattern CWord class_body m
             eq_refl Hm).
  - intros content. apply Forall_forall. intros x Hx.
    apply functions_In_iff in Hx.
    destruct Hx as (_ & p & Hp & Hx). apply in_map_iff in Hx.
    destruct Hx as (m & <- & Hm).
    refine (@finditer_group_run U p CWord content m _ Hm).
    simpl in Hp. repeat (destruct Hp as [<-|Hp]; [reflexivity|]).
    contradiction.
Qed.
End ExtractorShapes.

Section ExtractorShapes2.
Context {U : UnicodeDB}.
Variable self : FrameworkAnalyzer.

Lemma imports_In_iff (content x : pystr) :
  In x (_extract_imports self content) <->
  In x (map m_group1 (finditer import_pattern content))
  \/ In x (map m_group1 (finditer import_pattern2 content)).
Proof.
  unfold _extract_imports. rewrite append_all_eq. simpl app.
  destruct (append_new_spec (finditer import_pattern2 content)
              (map m_group1 (finditer import_pattern content)))
    as (extra & -> & _ & Hnew & Hall).
  rewrite in_app_iff. split.
  - intros [H|H]; [now left|]. right. now apply Hnew.
  - intros [H|H]; [now left|]. apply Hall in H. now apply in_app_or in H.
Qed.

(** X8.  The import list is the bound-name captures in text order, followed
    by the side-effect-only captures that are new, each of those once; a
    name is in the list exactly when one of the two forms captured it. *)
Theorem imports_bound_then_new (content : pystr) :
  (exists extra,
      _extract_imports self content
      = map m_group1 (finditer import_pattern content) ++ extra
      /\ NoDup extra
      /\ forall x, In x extra <->
           In x (map m_group1 (finditer import_pattern2 content))
           /\ ~ In x (map m_group1 (finditer import_pattern content)))
  /\ forall x,
       In x (_extract_imports self content) <->
       In x (map m_group1 (finditer import_pattern content))
       \/ In x (map m_group1 (finditer import_pattern2 content)).
Proof.
  split; [|intros x; apply imports_In_iff].
  unfold _extract_imports. rewrite append_all_eq. simpl app.
  destruct (append_new_spec (finditer import_pattern2 content)
              (map m_group1 (finditer import_pattern content)))
    as (extra & -> & Hnd & Hnew & Hall).
  exists extra. repeat split; auto.
  - now apply Hnew.
  - now apply Hnew.
  - intros [H1 H2]. apply Hall in H1. apply in_app_or in H1.
    destruct H1; [contradiction | assumption].
Qed.

(** X9.  An import that is returned is never the empty string and holds no
    quote character. *)
Theorem imports_nonempty_unquoted (content : pystr) :
  Forall (fun x => x <> [] /\ Forall (fun c => char_in c quotes = false) x)
    (_extract_imports self content).
Proof.
  apply Forall_forall. intros x Hx. apply imports_In_iff in Hx.
  assert (G : forall p, group1 p = Plus (CNoneOf quotes) ->
            In x (map m_group1 (finditer p content)) ->
            x <> [] /\ Forall (fun c => char_in c quotes = false) x).
  { intros p Ep H. apply in_map_iff in H. destruct H as (m & <- & Hm).
    destruct (@finditer_group_run U p (CNoneOf quotes) content m Ep Hm)
      as [Hne Hall].
    split; [assumption|]. eapply Forall_impl; [|exact Hall].
    simpl. intros c Hc. now apply negb_true_iff in Hc. }
  destruct Hx as [Hx|Hx]; eapply G; try eassumption; reflexivity.
Qed.

(** X10.  The interface list is one entry per interface declaration, in text
    order, followed by one entry per type declaration, in text order; an
    entry is the tag followed by an identifier, and repeated declarations are
    repeated in the list. *)
Theorem interfaces_then_types (content : pystr) :
  exists ifaces types,
    _extract_interfaces self content = ifaces ++ types
    /\ length ifaces = length (finditer interface_pattern content)
    /\ length types = length (finditer type_pattern content)
    /\ Forall (fun e => exists n, e = str "interface " ++ n /\ identifier n)
         ifaces
    /\ Forall (fun e => exists n, e = str "type " ++ n /\ identifier n) types.
Proof.
  unfold _extract_interfaces. rewrite !append_all_eq. simpl app.
  eexists _, _. split; [reflexivity|]. rewrite !length_map.
  repeat split; auto; apply Forall_forall; intros e He;
    apply in_map_iff in He; destruct He as (m & <- & Hm);
    exists (m_group1 m); (split; [reflexivity|]).
  - exact (@finditer_group_run U interface_pattern CWord content m eq_refl Hm).
  - exact (@finditer_group_run U type_pattern CWord content m eq_refl Hm).
Qed.
End ExtractorShapes2.

Section Occurs.
Context {U : UnicodeDB} {O : SetOrder}.
Variable self : FrameworkAnalyzer.

Lemma captured_occurs (p : pattern) (text x : pystr) :
  In x (map m_group1 (finditer p text)) -> occurs_in text x.
Proof.
  intros H. apply in_map_iff in H. destruct H as (m & <- & Hm).
  now apply finditer_group_in_text in Hm.
Qed.

(** X11.  The extractors make up no name: every import, class name and
    function name returned occurs in the text, and every member name occurs
    in the class body. *)
Theorem returned_names_occur_in_text :
  (forall content, Forall (occurs_in content) (_extract_imports self content))
  /\ (forall content,
        Forall (occurs_in content) (dict_keys (_extract_classes self content)))
  /\ (forall content,
        Forall (occurs_in content) (_extract_functions self content))
  /\ (forall class_body,
        Forall (occurs_in class_body)
          (_extract_class_methods self class_body)).
Proof.
  repeat split; intros text; apply Forall_forall; intros x Hx.
  - apply imports_In_iff in Hx.
    destruct Hx as [Hx|Hx]; now apply captured_occurs in Hx.
  - apply class_keys_In_iff in Hx. now apply captured_occurs in Hx.
  - apply functions_In_iff in Hx. destruct Hx as (_ & p & _ & Hx).
    now apply captured_occurs in Hx.
  - apply methods_In_iff in Hx. destruct Hx as [_ Hx].
    now apply captured_occurs in Hx.
Qed.
End Occurs.

(** ** The printed analysis of one file *)

Lemma truthy_false {A} (l : list A) : truthy l = false <-> l = [].
Proof. destruct l; simpl; split; congruence. Qed.

Lemma has_prefix_app (p q rest : pystr) : has_prefix p (p ++ q ++ rest).
Proof. now exists (q ++ rest). Qed.

Lemma first5_and_more_length (prefix bullet : pystr) (xs : list pystr) :
  length (first5_and_more prefix bullet xs) <= 6.
Proof.
  unfold first5_and_more. rewrite length_app, length_map, length_firstn.
  destruct (5 <? length xs); simpl length; lia.
Qed.

Lemma first5_and_more_prefixed (prefix bullet : pystr) (xs : list pystr) :
  Forall (has_prefix (prefix ++ bullet)) (first5_and_more prefix bullet xs).
Proof.
  unfold first5_and_more. apply Forall_app. split.
  - apply Forall_forall. intros l Hl. apply in_map_iff in Hl.
    destruct Hl as (x & <- & _). exists x. now rewrite <- app_assoc.
  - destruct (5 <? length xs); constructor; [|constructor].
    eexists. now rewrite <- app_assoc.
Qed.

Lemma flat_map_length_le {A B} (f : A -> list B) (n : nat) (l : list A) :
  (forall x, length (f x) <= n) -> length (flat_map f l) <= n * length l.
Proof.
  intros H. induction l as [|x l IH]; [simpl; lia|].
  cbn [flat_map length]. rewrite length_app. specialize (H x). lia.
Qed.

Section PrintFileFacts.
Context {U : UnicodeDB} {O : SetOrder}.
Variable self : FrameworkAnalyzer.

(** X12.  For a file that could be read, nothing is printed exactly when the
    four extractors found nothing; what is printed otherwise opens and closes
    with the line of the prefix and a vertical bar. *)
Theorem file_block_silent_or_framed (content prefix : pystr) :
  (_analyze_and_print_file self (inl content) prefix = [] <->
   _extract_imports self content = []
   /\ _extract_classes self content = []
   /\ _extract_functions self content = []
   /\ _extract_interfaces self content = [])
  /\ (_analyze_and_print_file self (inl content) prefix <> [] ->
      exists middle,
        _analyze_and_print_file self (inl content) prefix
        = (prefix ++ vbar) :: middle ++ [prefix ++ vbar]).
Proof.
  unfold _analyze_and_print_file.
  destruct (truthy (_extract_imports self content)
            || truthy (_extract_classes self content)
            || truthy (_extract_functions self content)
            || truthy (_extract_interfaces self content)) eqn:E.
  - split.
    + split; [discriminate|]. intros (H1 & H2 & H3 & H4).
      rewrite H1, H2, H3, H4 in E. discriminate.
    + intros _. eexists. simpl. rewrite !app_assoc. reflexivity.
  - split; [|congruence]. split; [intros _|reflexivity].
    apply orb_false_iff in E. destruct E as [E E4].
    apply orb_false_iff in E. destruct E as [E E3].
    apply orb_false_iff in E. destruct E as [E1 E2].
    apply truthy_false in E1, E2, E3, E4. auto.
Qed.

Lemma file_block_aligned (text : pystr + pystr) (prefix : pystr) :
  Forall (fun line => has_prefix (prefix ++ vbar) line
                      \/ has_prefix (prefix ++ [9500; 9472]%N) line)
    (_analyze_and_print_file self text prefix).
Proof.
  assert (Bar : forall rest, has_prefix (prefix ++ vbar) (prefix ++ vbar ++ rest)).
  { intros rest. exists rest. now rewrite <- app_assoc. }
  assert (Item : forall l, has_prefix (prefix ++ item_bullet) l ->
             has_prefix (prefix ++ vbar) l).
  { intros l (rest & ->). eexists. rewrite <- !app_assoc. reflexivity. }
  assert (Member : forall l, has_prefix (prefix ++ member_bullet) l ->
             has_prefix (prefix ++ vbar) l).
  { intros l (rest & ->). eexists. rewrite <- !app_assoc. reflexivity. }
  assert (Head : forall icon title n,
             has_prefix (prefix ++ [9500; 9472]%N) (heading prefix icon title n)).
  { intros. unfold heading. eexists. rewrite <- !app_assoc. reflexivity. }
  assert (Five : forall xs,
             Forall (fun line => has_prefix (prefix ++ vbar) line
                                 \/ has_prefix (prefix ++ [9500; 9472]%N) line)
               (first5_and_more prefix item_bullet xs)).
  { intros xs. eapply Forall_impl; [|apply first5_and_more_prefixed].
    intros l Hl. left. now apply Item. }
  destruct text as [content|e]; unfold _analyze_and_print_file.
  - destruct (_ || _ || _ || _); [|constructor].
    repeat (apply Forall_app; split).
    + constructor; [|constructor]. left. exists []. now rewrite app_nil_r.
    + destruct (truthy (_extract_imports self content)); [|constructor].
      constructor; [right; apply Head | apply Five].
    + destruct (truthy (_extract_interfaces self content)); [|constructor].
      constructor; [right; apply Head|]. apply Forall_forall.
      intros l Hl. apply in_map_iff in Hl. destruct Hl as (x & <- & _).
      left. apply Item. exists x. now rewrite <- app_assoc.
    + destruct (truthy (_extract_classes self content)); [|constructor].
      constructor; [right; apply Head|]. apply Forall_forall.
      intros l Hl. apply in_flat_map in Hl.
      destruct Hl as ([name methods] & _ & [<-|Hl]).
      * left. apply Item. exists name. now rewrite <- app_assoc.
      * destruct (truthy methods); [|contradiction]. left. apply Member.
        pose proof (first5_and_more_prefixed prefix member_bullet methods) as F.
        rewrite Forall_forall in F. now apply F.
    + destruct (truthy (_extract_functions self content)); [|constructor].
      constructor; [right; apply Head | apply Five].
    + constructor; [|constructor]. left. exists []. now rewrite app_nil_r.
  - constructor; [|constructor]. left. eexists. unfold vbar.
    rewrite <- !app_assoc. reflexivity.
Qed.

(** X13.  Every text printed for a file, one per call of [print], begins
    with the prefix, followed by a vertical bar or a branch. *)
Theorem file_block_lines_aligned (text : pystr + pystr) (prefix : pystr) :
  Forall (fun line => has_prefix (prefix ++ vbar) line
                      \/ has_prefix (prefix ++ [9500; 9472]%N) line)
    (_analyze_and_print_file self text prefix).
Proof. apply file_block_aligned. Qed.

(** X14.  Imports, functions and the members of a class are cut off after five,
    with one more call of [print] for the rest, so the calls of [print] for a
    file are at most 18 and one per interface and seven per class. *)
Theorem file_block_bounded (content prefix : pystr) :
  length (_analyze_and_print_file self (inl content) prefix)
  <= 18 + length (_extract_interfaces self content)
     + 7 * length (_extract_classes self content).
Proof.
  unfold _analyze_and_print_file.
  destruct (_ || _ || _ || _); [|simpl; lia].
  rewrite !length_app. cbn [length].
  assert (C : forall (cs : dict (list pystr)),
            length (flat_map
                      (fun '(class_name, methods) =>
                         (prefix ++ item_bullet ++ class_name)
                         :: (if truthy methods
                             then first5_and_more prefix member_bullet methods
                             else [])) cs)
            <= 7 * length cs).
  { intros cs. apply flat_map_length_le. intros [name methods].
    pose proof (first5_and_more_length prefix member_bullet methods).
    destruct (truthy methods); cbn [length]; unfold pystr, char in *; lia. }
  pose proof (first5_and_more_length prefix item_bullet
                (_extract_imports self content)).
  pose proof (first5_and_more_length prefix item_bullet
                (_extract_functions self content)).
  pose proof (C (_extract_classes self content)).
  destruct (truthy (_extract_imports self content));
    destruct (truthy (_extract_interfaces self content));
    destruct (truthy (_extract_classes self content));
    destruct (truthy (_extract_functions self content));
    cbn [length]; rewrite ?length_map; unfold dict, pystr, char in *; lia.
Qed.
End PrintFileFacts.

(** ** The order of the sort keys *)

Lemma pystr_ltb_irrefl (a : pystr) : pystr_ltb a a = false.
Proof.
  induction a as [|x a IH]; simpl; [reflexivity|].
  now rewrite N.ltb_irrefl.
Qed.

Lemma pystr_ltb_asym (a : pystr) :
  forall b, pystr_ltb a b = true -> pystr_ltb b a = false.
Proof.
  induction a as [|x a IH]; intros [|y b]; simpl; try congruence.
  destruct (N.ltb_spec x y) as [L|L]; destruct (N.ltb_spec y x) as [L'|L'];
    try congruence; try lia. intros H. now apply IH.
Qed.

Lemma pystr_ltb_trans (a : pystr) :
  forall b c, pystr_ltb a b = true -> pystr_ltb b c = true ->
              pystr_ltb a c = true.
Proof.
  induction a as [|x a IH]; intros [|y b] [|z c]; simpl; try congruence.
  destruct (N.ltb_spec x y) as [L1|L1]; destruct (N.ltb_spec y x) as [L1'|L1'];
    destruct (N.ltb_spec y z) as [L2|L2]; destruct (N.ltb_spec z y) as [L2'|L2'];
    destruct (N.ltb_spec x z) as [L3|L3]; destruct (N.ltb_spec z x) as [L3'|L3'];
    try congruence; try lia.
  apply IH.
Qed.

Lemma pystr_ltb_total (a : pystr) :
  forall b, pystr_ltb a b = false -> pystr_ltb b a = false -> a = b.
Proof.
  induction a as [|x a IH]; intros [|y b]; simpl; try congruence.
  destruct (N.ltb_spec x y) as [L|L]; destruct (N.ltb_spec y x) as [L'|L'];
    try congruence. intros H1 H2.
  assert (x = y) by lia. subst. f_equal. now apply IH.
Qed.

Lemma key_ltb_asym (a b : bool * pystr) :
  key_ltb a b = true -> key_ltb b a = false.
Proof.
  destruct a as [[|] a], b as [[|] b]; unfold key_ltb; simpl;
    try congruence; apply pystr_ltb_asym.
Qed.

Lemma key_ltb_trans (a b c : bool * pystr) :
  key_ltb a b = true -> key_ltb b c = true -> key_ltb a c = true.
Proof.
  destruct a as [[|] a], b as [[|] b], c as [[|] c]; unfold key_ltb; simpl;
    try congruence; apply pystr_ltb_trans.
Qed.

Lemma key_ltb_total (a b : bool * pystr) :
  key_ltb a b = false -> key_ltb b a = false -> a = b.
Proof.
  destruct a as [[|] a], b as [[|] b]; unfold key_ltb; simpl;
    try congruence; intros H1 H2; f_equal; now apply pystr_ltb_total.
Qed.

(** ** Sorting *)

Section SortFacts.
Variables (A K : Type) (key : A -> K) (lt : K -> K -> bool).
Hypothesis lt_asym : forall a b, lt a b = true -> lt b a = false.
Hypothesis lt_trans :
  forall a b c, lt a b = true -> lt b c = true -> lt a c = true.
Hypothesis lt_total : forall a b, lt a b = false -> lt b a = false -> a = b.

Local Abbreviation ltb := (by_key key lt).

Lemma lt_through (x y z : K) :
  lt z y = false -> lt z x = true -> lt y x = true.
Proof.
  intros H1 H2. destruct (lt y x) eqn:E; [reflexivity|].
  destruct (lt y z) eqn:E'.
  - rewrite (lt_trans E' H2) in E. discriminate.
  - rewrite (lt_total H1 E') in H2. congruence.
Qed.

Lemma insert_by_In (x a : A) (l : list A) :
  In a (insert_by ltb x l) <-> a = x \/ In a l.
Proof.
  induction l as [|y l IH]; simpl.
  - intuition.
  - destruct (ltb y x); simpl; rewrite ?IH; intuition.
Qed.

Lemma sorted_by_In (a : A) (l : list A) :
  In a (sorted_by ltb l) <-> In a l.
Proof.
  induction l as [|x l IH]; simpl; [reflexivity|].
  rewrite insert_by_In, IH. intuition.
Qed.

Lemma sorted_by_length (l : list A) : length (sorted_by ltb l) = length l.
Proof.
  induction l as [|x l IH]; simpl; [reflexivity|]. rewrite <- IH.
  generalize (sorted_by ltb l). intros s.
  induction s as [|y s IHs]; simpl; [reflexivity|].
  destruct (ltb y x); simpl; congruence.
Qed.

Lemma insert_by_comm (x y : A) (l : list A) :
  (key x = key y -> x = y) ->
  insert_by ltb x (insert_by ltb y l) = insert_by ltb y (insert_by ltb x l).
Proof.
  intros Hxy. induction l as [|z l IH]; simpl.
  - destruct (ltb y x) eqn:E1; destruct (ltb x y) eqn:E2; simpl;
      try reflexivity.
    + unfold by_key in *. rewrite (lt_asym E1) in E2. discriminate.
    + unfold by_key in *. now rewrite (Hxy (lt_total E2 E1)).
  - destruct (ltb z y) eqn:Ey; destruct (ltb z x) eqn:Ex; simpl;
      rewrite ?Ey, ?Ex; simpl.
    + now rewrite IH.
    + assert (E : ltb x y = true) by (unfold by_key in *; eapply lt_through; eauto).
      repeat (simpl; rewrite ?E, ?Ex, ?Ey). reflexivity.
    + assert (E : ltb y x = true) by (unfold by_key in *; eapply lt_through; eauto).
      repeat (simpl; rewrite ?E, ?Ex, ?Ey). reflexivity.
    + destruct (ltb y x) eqn:E1; destruct (ltb x y) eqn:E2; simpl;
        rewrite ?Ex, ?Ey; try reflexivity.
      * unfold by_key in *. rewrite (lt_asym E1) in E2. discriminate.
      * unfold by_key in *. now rewrite (Hxy (lt_total E2 E1)).
Qed.

(** Sorting forgets the order of a listing whose keys are all different. *)
Lemma sorted_by_perm (l l' : list A) :
  Permutation l l' ->
  (forall a b, In a l -> In b l -> key a = key b -> a = b) ->
  sorted_by ltb l = sorted_by ltb l'.
Proof.
  induction 1 as [|x l l' HP IH|x y l|l l' l'' HP1 IH1 HP2 IH2]; intros Hk.
  - reflexivity.
  - simpl. rewrite IH; [reflexivity|]. intros a b Ha Hb.
    apply Hk; now right.
  - simpl. apply insert_by_comm. apply Hk; simpl; auto.
  - rewrite IH1 by assumption. apply IH2. intros a b Ha Hb.
    apply Hk; eapply Permutation_in; try eassumption;
      now apply Permutation_sym.
Qed.

Lemma insert_by_head (x : A) (l : list A) :
  Forall (fun h => ltb h x = false) l -> insert_by ltb x l = x :: l.
Proof.
  destruct l as [|h l]; simpl; [reflexivity|].
  intros H. inversion H; subst. now rewrite H2.
Qed.

Lemma insert_by_ascending (x : A) (l : list A) :
  ascending ltb l -> ascending ltb (insert_by ltb x l).
Proof.
  unfold ascending. induction 1 as [|y l Hs IH Hf]; simpl.
  - repeat constructor.
  - destruct (ltb y x) eqn:E.
    + constructor; [assumption|]. apply Forall_forall. intros a Ha.
      apply insert_by_In in Ha. destruct Ha as [->|Ha].
      * unfold by_key in *. now apply lt_asym.
      * rewrite Forall_forall in Hf. now apply Hf.
    + constructor; [now constructor|]. constructor; [assumption|].
      apply Forall_forall. intros a Ha. rewrite Forall_forall in Hf.
      specialize (Hf a Ha). destruct (ltb a x) eqn:Ea; [|reflexivity].
      unfold by_key in *. rewrite (lt_through Hf Ea) in E. discriminate.
Qed.

Lemma sorted_by_ascending (l : list A) : ascending ltb (sorted_by ltb l).
Proof.
  induction l as [|x l IH]; simpl; [constructor|].
  now apply insert_by_ascending.
Qed.

Lemma filter_insert_by (p : A -> bool) (x : A) (l : list A) :
  ascending ltb l ->
  filter p (insert_by ltb x l)
  = if p x then insert_by ltb x (filter p l) else filter p l.
Proof.
  unfold ascending. induction 1 as [|y l Hs IH Hf]; simpl.
  - now destruct (p x).
  - destruct (ltb y x) eqn:E; simpl.
    + rewrite IH. destruct (p y), (p x); simpl; rewrite ?E; reflexivity.
    + destruct (p x) eqn:Px; [|reflexivity].
      symmetry. apply insert_by_head.
      assert (G : Forall (fun h => ltb h x = false) (y :: l)).
      { constructor; [assumption|]. apply Forall_forall. intros a Ha.
        rewrite Forall_forall in Hf. specialize (Hf a Ha).
        destruct (ltb a x) eqn:Ea; [|reflexivity].
        unfold by_key in *. rewrite (lt_through Hf Ea) in E.
        discriminate. }
      apply Forall_forall. intros a Ha.
      change (In a (filter p (y :: l))) in Ha. apply filter_In in Ha.
      rewrite Forall_forall in G. now apply G.
Qed.

(** Filtering after sorting is sorting after filtering. *)
Lemma filter_sorted_by (p : A -> bool) (l : list A) :
  filter p (sorted_by ltb l) = sorted_by ltb (filter p l).
Proof.
  induction l as [|x l IH]; simpl; [reflexivity|].
  rewrite filter_insert_by by apply sorted_by_ascending.
  destruct (p x); simpl; now rewrite IH.
Qed.
End SortFacts.

(** ** The printed tree *)

Lemma fs_entry_induction (Q : fs_entry -> Prop) :
  (forall name text, Q (FsFile name text)) ->
  (forall name readable children,
      Forall Q children -> Q (FsDir name readable children)) ->
  forall e, Q e.
Proof.
  intros Hf Hd. fix IH 1. intros [name text|name readable children].
  - apply Hf.
  - apply Hd. induction children as [|c cs IHcs]; constructor.
    + apply IH.
    + apply IHcs.
Qed.

Lemma NoDup_map_injective {A B} (f : A -> B) (l : list A) :
  NoDup (map f l) ->
  forall x y, In x l -> In y l -> f x = f y -> x = y.
Proof.
  induction l as [|a l IH]; simpl; intros Hnd x y Hx Hy E; [contradiction|].
  inversion Hnd as [|? ? Hn Hnd']; subst.
  destruct Hx as [<-|Hx], Hy as [<-|Hy]; auto.
  - exfalso. apply Hn. rewrite E. now apply in_map.
  - exfalso. apply Hn. rewrite <- E. now apply in_map.
Qed.

Lemma same_shown_key (a b : shown) : same_shown a b -> sh_key a = sh_key b.
Proof. intros (H1 & H2 & _). unfold sh_key. now rewrite H1, H2. Qed.

Lemma insert_by_same (x1 x2 : shown) (l1 l2 : list shown) :
  same_shown x1 x2 -> Forall2 same_shown l1 l2 ->
  Forall2 same_shown (insert_by shown_ltb x1 l1) (insert_by shown_ltb x2 l2).
Proof.
  intros Hx. induction 1 as [|y1 y2 l1 l2 Hy Hl IH]; simpl.
  - constructor; [assumption | constructor].
  - unfold shown_ltb at 1 3.
    rewrite (same_shown_key Hx), (same_shown_key Hy).
    destruct (key_ltb (sh_key y2) (sh_key x2)).
    + constructor; assumption.
    + constructor; [assumption|]. constructor; assumption.
Qed.

Lemma sorted_by_same (l1 l2 : list shown) :
  Forall2 same_shown l1 l2 ->
  Forall2 same_shown (sorted_by shown_ltb l1) (sorted_by shown_ltb l2).
Proof.
  induction 1; simpl; [constructor|]. now apply insert_by_same.
Qed.

Lemma filter_same (p : pystr -> bool) (l1 l2 : list shown) :
  Forall2 same_shown l1 l2 ->
  Forall2 same_shown (filter (fun e => p (sh_name e)) l1)
    (filter (fun e => p (sh_name e)) l2).
Proof.
  induction 1 as [|y1 y2 l1 l2 Hy Hl IH]; simpl; [constructor|].
  destruct Hy as (H1 & H2 & H3). rewrite H2.
  destruct (p (sh_name y2)); [constructor|]; auto. now repeat split.
Qed.

Lemma print_each_same (prefix : pystr) (n : nat) (l1 l2 : list shown) :
  Forall2 same_shown l1 l2 ->
  forall start,
    concat (map (fun '(i, entry) => sh_print entry prefix (i =? n))
              (combine (seq start (length l1)) l1))
    = concat (map (fun '(i, entry) => sh_print entry prefix (i =? n))
                (combine (seq start (length l2)) l2)).
Proof.
  induction 1 as [|y1 y2 l1 l2 Hy Hl IH]; simpl; intros start; [reflexivity|].
  destruct Hy as (_ & _ & H3). now rewrite H3, IH.
Qed.

Section PrintTreeFacts.
Context {U : UnicodeDB} {O : SetOrder} {P : PathLib}.
Variable self : FrameworkAnalyzer.

Lemma print_tree_in_unfold (entries : list shown) (prefix : pystr) :
  print_tree_in self true entries prefix
  = let es := filter (fun e => kept self (sh_name e)) (sorted_by shown_ltb entries) in
    concat (map (fun '(i, entry) => sh_print entry prefix (i =? length es - 1))
              (combine (seq 0 (length es)) es)).
Proof. reflexivity. Qed.

Lemma print_tree_in_same (readable : bool) (l1 l2 : list shown)
  (prefix : pystr) :
  Forall2 same_shown l1 l2 ->
  print_tree_in self readable l1 prefix = print_tree_in self readable l2 prefix.
Proof.
  intros H. destruct readable; [|reflexivity].
  rewrite !print_tree_in_unfold. cbv zeta.
  assert (F : Forall2 same_shown
                (filter (fun e => kept self (sh_name e)) (sorted_by shown_ltb l1))
                (filter (fun e => kept self (sh_name e)) (sorted_by shown_ltb l2))).
  { apply (filter_same (kept self)). now apply sorted_by_same. }
  replace (length (filter (fun e => kept self (sh_name e)) (sorted_by shown_ltb l2)) - 1)
    with (length (filter (fun e => kept self (sh_name e)) (sorted_by shown_ltb l1)) - 1)
    by now rewrite (Forall2_length F).
  now apply print_each_same.
Qed.

Lemma kept_not_hidden (name : pystr) : kept self name = negb (hidden self name).
Proof. unfold kept, hidden. now rewrite negb_orb. Qed.

Lemma filter_as_shown (cs : list fs_entry) :
  filter (fun e => kept self (sh_name e)) (map (as_shown self) cs)
  = map (as_shown self) (filter (fun c => kept self (entry_name c)) cs).
Proof.
  induction cs as [|c cs IH]; simpl; [reflexivity|].
  destruct (kept self (entry_name c)); simpl; now rewrite IH.
Qed.

Lemma filter_idem {A} (p : A -> bool) (l : list A) :
  filter p (filter p l) = filter p l.
Proof.
  induction l as [|x l IH]; simpl; [reflexivity|].
  destruct (p x) eqn:E; simpl; rewrite ?E, IH; reflexivity.
Qed.

(** One level: the entries that are passed over can be left out of the
    listing. *)
Lemma print_tree_in_kept (readable : bool) (cs : list fs_entry)
  (prefix : pystr) :
  print_tree_in self readable (map (as_shown self) cs) prefix
  = print_tree_in self readable
      (map (as_shown self) (filter (fun c => kept self (entry_name c)) cs)) prefix.
Proof.
  destruct readable; [|reflexivity].
  rewrite !print_tree_in_unfold. cbv zeta.
  rewrite <- filter_as_shown.
  rewrite !(filter_sorted_by sh_key key_ltb key_ltb_asym key_ltb_trans
              key_ltb_total).
  now rewrite filter_idem.
Qed.

Lemma print_entry_dir (name : pystr) (readable : bool)
  (children : list fs_entry) (prefix : pystr) (is_last_entry : bool) :
  print_entry self (FsDir name readable children) prefix is_last_entry
  = (prefix ++ connector is_last_entry ++ [128193; 32]%N ++ name ++ str "/")
    :: print_tree_in self readable (map (as_shown self) children)
         (prefix ++ extension is_last_entry).
Proof. reflexivity. Qed.

Lemma same_shown_without_hidden (c : fs_entry) :
  (forall prefix is_last,
      print_entry self (without_hidden self c) prefix is_last
      = print_entry self c prefix is_last) ->
  same_shown (as_shown self (without_hidden self c)) (as_shown self c).
Proof.
  intros H. repeat split; try (destruct c; reflexivity). exact H.
Qed.

Lemma print_entry_without_hidden (e : fs_entry) :
  forall prefix is_last,
    print_entry self (without_hidden self e) prefix is_last
    = print_entry self e prefix is_last.
Proof.
  induction e as [name text|name readable children IH] using fs_entry_induction;
    intros prefix is_last; [reflexivity|].
  cbn [without_hidden]. rewrite !print_entry_dir. f_equal.
  rewrite (print_tree_in_kept readable children).
  apply print_tree_in_same.
  induction children as [|c cs IHcs]; simpl; [constructor|].
  inversion IH as [|? ? Hc Hcs]; subst.
  rewrite kept_not_hidden. destruct (hidden self (entry_name c)); simpl.
  - now apply IHcs.
  - constructor; [now apply same_shown_without_hidden | now apply IHcs].
Qed.

Lemma print_tree_in_without_hidden (readable : bool)
  (children : list fs_entry) (prefix : pystr) :
  print_tree_in self readable
    (map (as_shown self)
       (flat_map (fun c => if hidden self (entry_name c) then []
                           else [without_hidden self c]) children)) prefix
  = print_tree_in self readable (map (as_shown self) children) prefix.
Proof.
  rewrite (print_tree_in_kept readable children).
  apply print_tree_in_same.
  induction children as [|c cs IHcs]; simpl; [constructor|].
  rewrite kept_not_hidden. destruct (hidden self (entry_name c)); simpl.
  - apply IHcs.
  - constructor; [|apply IHcs]. apply same_shown_without_hidden.
    apply print_entry_without_hidden.
Qed.
End PrintTreeFacts.

Section PrintTreeClaims.
Context {U : UnicodeDB} {O : SetOrder} {P : PathLib}.
Variable self : FrameworkAnalyzer.

(** X15.  An entry whose name is in [ignore_dirs] or [ignore_files], file or
    directory, is passed over with everything below it: the tree printed is
    the tree printed for the directory without such entries, at every
    level. *)
Theorem hidden_entries_not_printed (name : pystr) (readable : bool)
  (children : list fs_entry) :
  print_tree self readable
    (children_of (without_hidden self (FsDir name readable children)))
  = print_tree self readable children
  /\ forall prefix is_last,
       print_entry self (without_hidden self (FsDir name readable children))
         prefix is_last
       = print_entry self (FsDir name readable children) prefix is_last.
Proof.
  split; [|apply print_entry_without_hidden].
  unfold print_tree. f_equal. cbn [without_hidden children_of].
  apply print_tree_in_without_hidden.
Qed.

(** X16.  The tree printed does not depend on the order in which the system
    lists a directory, the names in it being all different. *)
Theorem print_tree_listing_order (readable : bool)
  (children children' : list fs_entry) :
  Permutation children children' ->
  NoDup (map entry_name children) ->
  print_tree self readable children = print_tree self readable children'
  /\ forall name prefix is_last,
       print_entry self (FsDir name readable children) prefix is_last
       = print_entry self (FsDir name readable children') prefix is_last.
Proof.
  intros HP Hnd.
  assert (S : sorted_by shown_ltb (map (as_shown self) children)
              = sorted_by shown_ltb (map (as_shown self) children')).
  { apply (sorted_by_perm sh_key key_ltb key_ltb_asym key_ltb_trans
             key_ltb_total).
    - now apply Permutation_map.
    - intros a b Ha Hb E. apply in_map_iff in Ha, Hb.
      destruct Ha as (ca & <- & Ha), Hb as (cb & <- & Hb).
      f_equal. apply (NoDup_map_injective entry_name children Hnd); auto.
      unfold sh_key in E. simpl in E. congruence. }
  assert (T : forall prefix,
            print_tree_in self readable (map (as_shown self) children) prefix
            = print_tree_in self readable (map (as_shown self) children') prefix).
  { intros prefix. destruct readable; [|reflexivity].
    rewrite !print_tree_in_unfold. now rewrite S. }
  split.
  - unfold print_tree. now rewrite T.
  - intros name prefix is_last. rewrite !print_entry_dir. now rewrite T.
Qed.
End PrintTreeClaims.

Lemma has_prefix_shorter (p q line : pystr) :
  has_prefix (p ++ q) line -> has_prefix p line.
Proof. intros (rest & ->). exists (q ++ rest). now rewrite app_assoc. Qed.

Section PrintTreeShape.
Context {U : UnicodeDB} {O : SetOrder} {P : PathLib}.
Variable self : FrameworkAnalyzer.

Lemma print_tree_in_prefixed (readable : bool) (entries : list shown)
  (prefix : pystr) :
  (forall e, In e entries ->
             forall is_last, Forall (has_prefix prefix) (sh_print e prefix is_last)) ->
  Forall (has_prefix prefix) (print_tree_in self readable entries prefix).
Proof.
  intros H. destruct readable.
  - rewrite print_tree_in_unfold. cbv zeta. apply Forall_forall.
    intros line Hl. apply in_concat in Hl. destruct Hl as (ls & Hls & Hl).
    apply in_map_iff in Hls. destruct Hls as ([i e] & <- & Hie).
    apply in_combine_r in Hie. apply filter_In in Hie. destruct Hie as [Hie _].
    apply (proj1 (@sorted_by_In _ _ sh_key key_ltb e entries)) in Hie.
    pose proof (H e Hie) as He. eapply Forall_forall; [apply He | exact Hl].
  - constructor; [|constructor]. now exists (str "[Permission Denied]").
Qed.

Lemma print_entry_shape (e : fs_entry) :
  forall prefix is_last,
  exists first rest,
    print_entry self e prefix is_last = first :: rest
    /\ has_prefix (prefix ++ connector is_last) first
    /\ Forall (has_prefix (prefix ++ extension is_last)) rest.
Proof.
  induction e as [name text|name readable children IH] using fs_entry_induction;
    intros prefix is_last.
  - simpl. eexists _, _. split; [reflexivity|]. split.
    + eexists. rewrite <- !app_assoc. reflexivity.
    + destruct (py_in (path_suffix name) (file_extensions self)); [|constructor].
      eapply Forall_impl; [|apply file_block_aligned].
      intros line [H|H]; now apply has_prefix_shorter in H.
  - rewrite print_entry_dir. eexists _, _. split; [reflexivity|]. split.
    + eexists. rewrite <- !app_assoc. reflexivity.
    + apply print_tree_in_prefixed. intros e He last.
      apply in_map_iff in He. destruct He as (c & <- & Hc).
      rewrite Forall_forall in IH.
      destruct (IH c Hc (prefix ++ extension is_last) last)
        as (first & rest & E & Hf & Hr).
      simpl. rewrite E. constructor.
      * now apply has_prefix_shorter in Hf.
      * eapply Forall_impl; [|exact Hr].
        intros line H. now apply has_prefix_shorter in H.
Qed.

(** X17.  The first call of [print] for an entry prints the prefix and a
    connector, and the text of every further call, for what is below a
    directory or found in a file, begins with the prefix and the extension
    that goes with the connector. *)
Theorem entry_lines_indented (e : fs_entry) (prefix : pystr) (is_last : bool) :
  exists first rest,
    print_entry self e prefix is_last = first :: rest
    /\ has_prefix (prefix ++ connector is_last) first
    /\ Forall (has_prefix (prefix ++ extension is_last)) rest.
Proof. apply print_entry_shape. Qed.
End PrintTreeShape.

(** ** The totals of the summary *)

Lemma set_update_In (xs : list pystr) :
  forall s x, In x (set_update s xs) <-> In x s \/ In x xs.
Proof.
  unfold set_update. induction xs as [|y xs IH]; simpl; intros s x.
  - intuition.
  - rewrite IH. destruct (py_in y s) eqn:E.
    + apply py_in_In in E. intuition. subst. auto.
    + rewrite in_app_iff. simpl. intuition.
Qed.

Lemma set_update_NoDup (xs : list pystr) :
  forall s, NoDup s -> NoDup (set_update s xs).
Proof.
  unfold set_update. induction xs as [|y xs IH]; simpl; intros s H.
  - assumption.
  - apply IH. destruct (py_in y s) eqn:E; [assumption|].
    apply py_in_not_In in E. apply NoDup_app; [assumption | |].
    + repeat constructor. intros [].
    + intros x Hx [<-|[]]. contradiction.
Qed.

Lemma list_sum_cons (x : nat) (l : list nat) :
  list_sum (x :: l) = x + list_sum l.
Proof. reflexivity. Qed.

Lemma list_sum_perm (l l' : list nat) :
  Permutation l l' -> list_sum l = list_sum l'.
Proof. induction 1; simpl; lia. Qed.

Section SummaryFacts.
Context {U : UnicodeDB} {O : SetOrder} {P : PathLib}.
Variable self : FrameworkAnalyzer.

Lemma source_files_are_sources (e : fs_entry) :
  Forall (fun f => is_source self f = true) (source_files self e).
Proof.
  induction e as [name text|name readable children IH] using fs_entry_induction;
    [constructor|].
  destruct readable; [|constructor]. cbn [source_files].
  apply Forall_app. split; apply Forall_forall; intros f Hf;
    apply in_flat_map in Hf; destruct Hf as (c & Hc & Hf).
  - destruct c as [file text|d r cs]; [|contradiction].
    destruct (py_in (path_suffix file) (file_extensions self)) eqn:E;
      [|contradiction].
    destruct Hf as [<-|[]]. exact E.
  - destruct c as [file text|d r cs]; [contradiction|].
    destruct (py_in d (ignore_dirs self)); [contradiction|].
    rewrite Forall_forall in IH. specialize (IH _ Hc).
    rewrite Forall_forall in IH. now apply IH.
Qed.

Lemma walk_as_fold (e : fs_entry) :
  forall t, walk self e t = fold_left (count_step self) (source_files self e) t.
Proof.
  induction e as [name text|name readable children IH] using fs_entry_induction;
    intros t; [reflexivity|].
  destruct readable; [|reflexivity]. cbn [walk source_files].
  rewrite fold_left_app.
  assert (F : forall t,
            fold_left (fun t c => match c with
                                  | FsFile file text => count_file self t file text
                                  | FsDir _ _ _ => t
                                  end) children t
            = fold_left (count_step self)
                (flat_map (fun c => match c with
                                    | FsFile file text =>
                                        if py_in (path_suffix file)
                                             (file_extensions self)
                                        then [(file, text)] else []
                                    | FsDir _ _ _ => []
                                    end) children) t).
  { clear IH. induction children as [|c cs IHcs]; intros t0; [reflexivity|].
    cbn [fold_left flat_map]. rewrite fold_left_app, IHcs.
    destruct c as [file text|d r cs']; [|reflexivity].
    f_equal.
    destruct (py_in (path_suffix file) (file_extensions self)) eqn:E.
    - reflexivity.
    - unfold count_file. now rewrite E. }
  rewrite F. generalize (fold_left (count_step self)
    (flat_map (fun c => match c with
                        | FsFile file text =>
                            if py_in (path_suffix file) (file_extensions self)
                            then [(file, text)] else []
                        | FsDir _ _ _ => []
                        end) children) t).
  clear F. revert IH.
  induction children as [|c cs IHcs]; intros IH t0; [reflexivity|].
  inversion IH as [|? ? Hc Hcs]; subst.
  cbn [fold_left flat_map]. rewrite fold_left_app, IHcs by assumption.
  destruct c as [file text|d r cs']; [reflexivity|].
  destruct (py_in d (ignore_dirs self)); [reflexivity|]. now rewrite Hc.
Qed.

Lemma count_step_files (files : list (pystr * (pystr + pystr))) :
  Forall (fun f => is_source self f = true) files ->
  forall t,
    total_files (fold_left (count_step self) files t) = total_files t + length files
    /\ total_classes (fold_left (count_step self) files t)
       = total_classes t
         + list_sum (map (fun c => length (_extract_classes self c))
                       (readable_texts files))
    /\ total_functions (fold_left (count_step self) files t)
       = total_functions t
         + list_sum (map (fun c => length (_extract_functions self c))
                       (readable_texts files))
    /\ (NoDup (total_imports t) ->
        NoDup (total_imports (fold_left (count_step self) files t)))
    /\ forall x,
         In x (total_imports (fold_left (count_step self) files t)) <->
         In x (total_imports t)
         \/ exists c, In c (readable_texts files)
                      /\ In x (_extract_imports self c).
Proof.
  induction 1 as [|[file text] files Hf _ IH]; intros t.
  - split; [simpl; lia|]. split; [simpl; lia|]. split; [simpl; lia|].
    split; [auto|]. intros x. simpl.
    split; [now left | intros [H|(c & [] & _)]; exact H].
  - cbn [fold_left]. unfold is_source in Hf. simpl in Hf.
    assert (T : count_step self t (file, text)
                = match text with
                  | inl content =>
                      {| total_files := total_files t + 1;
                         total_classes :=
                           total_classes t + length (_extract_classes self content);
                         total_functions :=
                           total_functions t
                           + length (_extract_functions self content);
                         total_imports :=
                           set_update (total_imports t)
                             (_extract_imports self content) |}
                  | inr _ =>
                      {| total_files := total_files t + 1;
                         total_classes := total_classes t;
                         total_functions := total_functions t;
                         total_imports := total_imports t |}
                  end).
    { unfold count_step, count_file. simpl. now rewrite Hf. }
    destruct (IH (count_step self t (file, text))) as (I1 & I2 & I3 & I4 & I5).
    rewrite I1, I2, I3. rewrite T in *. clear T.
    destruct text as [content|err];
      [change (readable_texts ((file, inl content) :: files))
         with (content :: readable_texts files)
      |change (readable_texts ((file, inr err) :: files))
         with (readable_texts files)];
      cbn [map list_sum total_files total_classes total_functions
           total_imports length In] in *.
    + rewrite !list_sum_cons.
      split; [lia|]. split; [lia|]. split; [lia|]. split.
      * intros Hn. apply I4. now apply set_update_NoDup.
      * intros x. rewrite I5, set_update_In. split.
        -- intros [[H|H]|(c & Hc & H)]; auto.
           ++ right. exists content. auto.
           ++ right. exists c. auto.
        -- intros [H|(c & [<-|Hc] & H)]; auto. right. exists c. auto.
    + split; [lia|]. split; [lia|]. split; [lia|]. split; [exact I4|].
      intros x. now rewrite I5.
Qed.
End SummaryFacts.

Section SummaryClaims.
Context {U : UnicodeDB} {O : SetOrder} {P : PathLib}.
Variable self : FrameworkAnalyzer.

Lemma source_files_walked (e : fs_entry) :
  forall file text,
    In (file, text) (source_files self e) <-> walked self e file text.
Proof.
  induction e as [name text0|name readable children IH] using fs_entry_induction;
    intros file text.
  - split; [intros [] | inversion 1].
  - destruct readable; [|split; [intros [] | inversion 1]].
    cbn [source_files]. rewrite in_app_iff, !in_flat_map. split.
    + intros [(c & Hc & Hf)|(c & Hc & Hf)].
      * destruct c as [file' text'|d r cs]; [|contradiction].
        destruct (py_in (path_suffix file') (file_extensions self)) eqn:E;
          [|contradiction].
        destruct Hf as [Hf|[]]. inversion Hf; subst.
        now apply walked_here.
      * destruct c as [file' text'|d r cs]; [contradiction|].
        destruct (py_in d (ignore_dirs self)) eqn:E; [contradiction|].
        rewrite Forall_forall in IH. apply (IH _ Hc) in Hf.
        now apply walked_below with (d := d) (readable := r) (below := cs).
    + inversion 1 as [? ? ? ? Hc Hs|? ? d r cs ? ? Hc Hi Hw]; subst.
      * left. exists (FsFile file text). split; [assumption|].
        rewrite Hs. now left.
      * right. exists (FsDir d r cs). split; [assumption|].
        rewrite Hi. rewrite Forall_forall in IH. now apply (IH _ Hc).
Qed.


Lemma source_files_without_ignored (e : fs_entry) :
  source_files self (without_ignored_dirs self e) = source_files self e.
Proof.
  induction e as [name text|name readable children IH] using fs_entry_induction;
    [reflexivity|].
  destruct readable; [|reflexivity]. cbn [without_ignored_dirs source_files].
  f_equal.
  - clear IH. induction children as [|c cs IHcs]; [reflexivity|].
    cbn [flat_map]. rewrite flat_map_app, IHcs. f_equal.
    destruct c as [file text|d r below]; simpl.
    + now rewrite app_nil_r.
    + now destruct (py_in d (ignore_dirs self)).
  - induction children as [|c cs IHcs]; [reflexivity|].
    inversion IH as [|? ? Hc Hcs]; subst.
    cbn [flat_map]. rewrite flat_map_app, IHcs by assumption. f_equal.
    destruct c as [file text|d r below]; simpl; [reflexivity|].
    destruct (py_in d (ignore_dirs self)) eqn:E; simpl; [reflexivity|].
    rewrite E, app_nil_r. exact Hc.
Qed.

(** X19.  What lies in a directory named in [ignore_dirs], at any depth below
    the root, has no part in the totals. *)
Theorem summary_skips_ignored_dirs (root : fs_entry) :
  summary_totals self (without_ignored_dirs self root)
  = summary_totals self root.
Proof.
  unfold summary_totals.
  now rewrite !walk_as_fold, source_files_without_ignored.
Qed.

Lemma readable_texts_perm (l l' : list (pystr * (pystr + pystr))) :
  Permutation l l' -> Permutation (readable_texts l) (readable_texts l').
Proof. apply Permutation_flat_map. Qed.

(** X20.  The totals do not depend on the order in which the system lists the
    root directory: the three counts are the same and the sets of imports
    have the same elements. *)
Theorem summary_listing_order (name : pystr)
  (children children' : list fs_entry) :
  Permutation children children' ->
  let t := summary_totals self (FsDir name true children) in
  let t' := summary_totals self (FsDir name true children') in
  total_files t = total_files t'
  /\ total_classes t = total_classes t'
  /\ total_functions t = total_functions t'
  /\ Permutation (total_imports t) (total_imports t').
Proof.
  intros HP. cbv zeta.
  assert (S : Permutation (source_files self (FsDir name true children))
                (source_files self (FsDir name true children'))).
  { cbn [source_files]. apply Permutation_app; now apply Permutation_flat_map. }
  apply readable_texts_perm in S as R.
  unfold summary_totals. rewrite !walk_as_fold.
  destruct (count_step_files self
              (source_files_are_sources self (FsDir name true children))
              no_totals) as (H1 & H2 & H3 & H4 & H5).
  destruct (count_step_files self
              (source_files_are_sources self (FsDir name true children'))
              no_totals) as (H1' & H2' & H3' & H4' & H5').
  rewrite H1, H2, H3, H1', H2', H3'.
  split; [f_equal; apply (Permutation_length S)|].
  split; [f_equal; apply list_sum_perm; now apply Permutation_map|].
  split; [f_equal; apply list_sum_perm; now apply Permutation_map|].
  apply NoDup_Permutation.
  - apply H4. constructor.
  - apply H4'. constructor.
  - intros x. rewrite H5, H5'. split.
    + intros [H|(c & Hc & Hx)]; [now left|]. right. exists c. split; auto.
      eapply Permutation_in; eassumption.
    + intros [H|(c & Hc & Hx)]; [now left|]. right. exists c. split; auto.
      eapply Permutation_in; [apply Permutation_sym|]; eassumption.
Qed.
End SummaryClaims.

(** ** Declarations that are recognised *)

Lemma ascii_word_char_bound (c : char) :
  ascii_word_char c = true -> (c <? 128)%N = true.
Proof.
  unfold ascii_word_char, ascii_isalnum.
  rewrite !orb_true_iff, !andb_true_iff, !N.leb_le, N.eqb_eq, N.ltb_lt. lia.
Qed.

Lemma ascii_word_char_not_space (c : char) :
  ascii_word_char c = true -> ascii_isspace c = false.
Proof.
  unfold ascii_word_char, ascii_isalnum, ascii_isspace.
  rewrite !orb_true_iff, !andb_true_iff, !N.leb_le, N.eqb_eq.
  intros H. apply orb_false_iff. split; apply andb_false_iff;
    rewrite !N.leb_gt; lia.
Qed.

Section Recognition.
Context {U : UnicodeDB}.

Lemma ascii_word_is_word (c : char) :
  ascii_word_char c = true -> is_word c = true.
Proof.
  intros H. unfold is_word. now rewrite (ascii_word_char_bound c H).
Qed.

Lemma ascii_word_no_space (c : char) :
  ascii_word_char c = true -> is_space c = false.
Proof.
  intros H. unfold is_space. rewrite (ascii_word_char_bound c H).
  now apply ascii_word_char_not_space.
Qed.

(** A greedy repetition runs over a stretch of its class that ends the text
    or is followed by a character outside the class, and goes on from there
    when the rest of the pattern matches there. *)
Lemma star_match_run {A} (c : cls) (run rest : pystr)
  (k : pystr -> option A) (a : A) :
  Forall (fun x => cls_mem c x = true) run ->
  match rest with [] => True | x :: _ => cls_mem c x = false end ->
  k rest = Some a ->
  star_match c (run ++ rest) k = Some a.
Proof.
  intros Hrun Hrest Hk. induction Hrun as [|x run Hx _ IH]; simpl.
  - destruct rest as [|y rest]; simpl; [assumption|]. now rewrite Hrest.
  - now rewrite Hx, IH.
Qed.

Lemma firstn_consumed (g rest : pystr) :
  firstn (length (g ++ rest) - length rest) (g ++ rest) = g.
Proof.
  rewrite length_app.
  replace (length g + length rest - length rest) with (length g) by lia.
  rewrite firstn_app, firstn_all, Nat.sub_diag. simpl. apply app_nil_r.
Qed.

Lemma finditer_head (p : pattern) (content : pystr) (m : re_match) :
  match_at p content 0 = Some m -> In m (finditer p content).
Proof.
  intros H. unfold finditer. destruct content; simpl; rewrite H; now left.
Qed.

Lemma class_header_matches (modifier name rest : pystr) :
  In modifier [[]; str "export "; str "abstract "; str "export abstract "] ->
  ascii_identifier name -> ends_word rest ->
  exists e,
    match_at simple_class_pattern (modifier ++ str "class " ++ name ++ rest) 0
    = Some {| m_start := 0; m_end := e; m_group1 := name |}.
Proof.
  intros Hm [Hne Hall] Hrest. destruct name as [|c name]; [congruence|].
  inversion Hall as [|? ? Hc Hname]; subst.
  assert (Run : Forall (fun x => cls_mem CWord x = true) name).
  { eapply Forall_impl; [|exact Hname]. intros x. apply ascii_word_is_word. }
  assert (Cut : firstn (length ((c :: name) ++ rest) - length rest)
                  ((c :: name) ++ rest) = c :: name)
    by apply firstn_consumed.
  simpl in Hm.
  repeat (destruct Hm as [<-|Hm];
          [eexists; unfold match_at; cbn;
           rewrite (ascii_word_no_space c Hc), (ascii_word_is_word c Hc);
           (erewrite star_match_run; [reflexivity|exact Run|exact Hrest|]);
           cbn; f_equal; f_equal; exact Cut|]).
  contradiction.
Qed.

Lemma function_header_matches (modifier name rest : pystr) :
  In modifier [[]; str "export "; str "async "; str "export async "] ->
  ascii_identifier name ->
  exists e,
    match_at (nth 0 function_patterns import_pattern)
      (modifier ++ str "function " ++ name ++ str "(" ++ rest) 0
    = Some {| m_start := 0; m_end := e; m_group1 := name |}.
Proof.
  intros Hm [Hne Hall]. destruct name as [|c name]; [congruence|].
  inversion Hall as [|? ? Hc Hname]; subst.
  assert (Run : Forall (fun x => cls_mem CWord x = true) name).
  { eapply Forall_impl; [|exact Hname]. intros x. apply ascii_word_is_word. }
  assert (Cut : firstn (length ((c :: name) ++ str "(" ++ rest)
                        - length (str "(" ++ rest))
                  ((c :: name) ++ str "(" ++ rest) = c :: name)
    by apply firstn_consumed.
  assert (Paren : match str "(" ++ rest with
                  | [] => True
                  | x :: _ => cls_mem CWord x = false
                  end) by reflexivity.
  simpl in Hm.
  repeat (destruct Hm as [<-|Hm];
          [eexists; unfold match_at; cbn;
           rewrite (ascii_word_no_space c Hc), (ascii_word_is_word c Hc);
           (erewrite star_match_run; [reflexivity|exact Run|exact Paren|]);
           cbn; f_equal; f_equal; exact Cut|]).
  contradiction.
Qed.
End Recognition.

Section RecognitionClaims.
Context {U : UnicodeDB} {O : SetOrder}.
Variable self : FrameworkAnalyzer.

(** X21.  A text that begins with a class declaration, with or without
    [export] and [abstract], has the class name among the keys of the
    result. *)
Theorem class_declaration_recognised (modifier name rest : pystr) :
  In modifier [[]; str "export "; str "abstract "; str "export abstract "] ->
  ascii_identifier name -> ends_word rest ->
  In name
    (dict_keys
       (_extract_classes self (modifier ++ str "class " ++ name ++ rest))).
Proof.
  intros Hm Hn Hr. apply class_keys_In_iff.
  destruct (@class_header_matches U modifier name rest Hm Hn Hr) as (e & H).
  apply finditer_head in H. apply in_map_iff. eexists. split; [|exact H].
  reflexivity.
Qed.

(** X22.  A text that begins with a function declaration, with or without
    [export] and [async], has the function name in the result exactly when
    the name is not one of the four reserved keywords. *)
Theorem function_declaration_recognised (modifier name rest : pystr) :
  In modifier [[]; str "export "; str "async "; str "export async "] ->
  ascii_identifier name ->
  In name
    (_extract_functions self
       (modifier ++ str "function " ++ name ++ str "(" ++ rest))
  <-> ~ In name function_reserved.
Proof.
  intros Hm Hn. rewrite functions_In_iff. split; [tauto|]. intros Hr.
  split; [assumption|].
  destruct (@function_header_matches U modifier name rest Hm Hn) as (e & H).
  apply finditer_head in H. eexists. split; [now left|].
  apply in_map_iff. eexists. split; [|exact H]. reflexivity.
Qed.
End RecognitionClaims.

Section MethodRecognition.
Context {U : UnicodeDB}.

Lemma star_match_stop {A} (c : cls) (s : pystr) (k : pystr -> option A) :
  match s with [] => True | x :: _ => cls_mem c x = false end ->
  star_match c s k = k s.
Proof. destruct s as [|x s]; simpl; [reflexivity|]. now intros ->. Qed.

Lemma lit_then_space_fails {A} (l s : pystr) (k : pystr -> option A) :
  (forall s', strip_prefix l s = Some s' -> no_space_ahead s') ->
  rmatch (Seq (Lit l) sp) s k = None.
Proof.
  intros H. simpl. destruct (strip_prefix l s) as [s'|]; [|reflexivity].
  specialize (H s' eq_refl). destruct s' as [|c s']; [reflexivity|].
  simpl in H. now rewrite H.
Qed.

(** After a literal without parenthesis, a text that is a name and a
    parenthesis does not go on with white space. *)
Lemma name_paren_no_space (l : pystr) :
  ~ In 40%N l ->
  forall name tail s',
    Forall (fun c => ascii_word_char c = true) name ->
    strip_prefix l (name ++ 40%N :: tail) = Some s' ->
    no_space_ahead s'.
Proof.
  induction l as [|a l IH]; intros Hl name tail s' Hname H.
  - cbn [strip_prefix] in H. inversion H; subst.
    destruct Hname as [|c name Hc _]; simpl.
    + reflexivity.
    + now apply ascii_word_no_space.
  - destruct Hname as [|c name Hc Hname]; cbn [strip_prefix app] in H.
    + destruct (40 =? a)%N eqn:E; [|discriminate].
      apply N.eqb_eq in E. exfalso. apply Hl. now left.
    + destruct (c =? a)%N; [|discriminate].
      apply (IH (fun Hin => Hl (or_intror Hin)) name tail s' Hname H).
Qed.

Lemma method_core (name params rest : pystr)
  (R : pystr -> pystr -> pystr -> re_match) :
  ascii_identifier name ->
  Forall (fun c => (c =? 41)%N = false) params ->
  rmatch (group1 method_pattern)
    (name ++ 40%N :: params ++ str ") {" ++ rest)
    (fun s2 => rmatch (post method_pattern) s2
                 (fun s3 => Some (R (name ++ 40%N :: params ++ str ") {" ++ rest)
                                    s2 s3)))
  = Some (R (name ++ 40%N :: params ++ str ") {" ++ rest)
            (40%N :: params ++ str ") {" ++ rest) rest).
Proof.
  intros [Hne Hall] Hparams. destruct name as [|c name]; [congruence|].
  inversion Hall as [|? ? Hc Hname]; subst.
  set (s1 := (c :: name) ++ 40%N :: params ++ str ") {" ++ rest).
  change (rmatch (group1 method_pattern) s1 ?k)
    with (if cls_mem CWord c
          then star_match CWord (name ++ 40%N :: params ++ str ") {" ++ rest) k
          else None).
  change (cls_mem CWord c) with (is_word c).
  rewrite (ascii_word_is_word c Hc).
  apply star_match_run.
  - eapply Forall_impl; [|exact Hname]. intros x. apply ascii_word_is_word.
  - reflexivity.
  - cbn. apply star_match_run.
    + eapply Forall_impl; [|exact Hparams]. intros x Hx. simpl.
      now rewrite Hx.
    + reflexivity.
    + reflexivity.
Qed.

Lemma method_pre_split {A} (s : pystr) (k : pystr -> option A) :
  rmatch (pre method_pattern) s k
  = rmatch async_opt s (fun s' => rmatch visibility_opt s' k).
Proof. reflexivity. Qed.

Lemma lit_then_space_ok {A} (l s : pystr) (k : pystr -> option A) :
  no_space_ahead s ->
  rmatch (Seq (Lit l) sp) (l ++ 32%N :: s) k = k s.
Proof.
  intros Hs. simpl.
  assert (E : strip_prefix l (l ++ 32%N :: s) = Some (32%N :: s)).
  { induction l as [|a l IH]; simpl; [reflexivity|]. now rewrite N.eqb_refl. }
  rewrite E. change (cls_mem CSpace 32%N) with true. cbv iota.
  apply star_match_stop. destruct s; [exact I | exact Hs].
Qed.

Lemma lit_mismatch {A} (l s : pystr) (k : pystr -> option A) :
  strip_prefix l s = None -> rmatch (Seq (Lit l) sp) s k = None.
Proof. intros H. simpl. now rewrite H. Qed.

Lemma visibility_taken {A} (v s : pystr) (k : pystr -> option A) (a : A) :
  In v [str "public"; str "private"; str "protected"] ->
  no_space_ahead s -> k s = Some a ->
  rmatch visibility_opt (v ++ 32%N :: s) k = Some a.
Proof.
  intros Hv Hs Hk. unfold visibility_opt.
  change (rmatch (Opt (?a || ?b || ?c)%re) ?t k)
    with (match
            match
              match rmatch a t k with
              | Some x => Some x
              | None => rmatch b t k
              end
            with
            | Some x => Some x
            | None => rmatch c t k
            end
          with
          | Some x => Some x
          | None => k t
          end).
  simpl in Hv. destruct Hv as [<-|[<-|[<-|[]]]].
  - now rewrite lit_then_space_ok, Hk.
  - rewrite (lit_mismatch (str "public")) by reflexivity.
    now rewrite lit_then_space_ok, Hk.
  - rewrite (lit_mismatch (str "public")) by reflexivity.
    rewrite (lit_mismatch (str "private")) by reflexivity.
    now rewrite lit_then_space_ok, Hk.
Qed.

Lemma async_taken {A} (s : pystr) (k : pystr -> option A) (a : A) :
  no_space_ahead s -> k s = Some a ->
  rmatch async_opt (str "async" ++ 32%N :: s) k = Some a.
Proof.
  intros Hs Hk. unfold async_opt.
  change (rmatch (Opt ?r) ?t k)
    with (match rmatch r t k with Some x => Some x | None => k t end).
  now rewrite lit_then_space_ok, Hk.
Qed.

Lemma async_absent {A} (s : pystr) (k : pystr -> option A) :
  strip_prefix (str "async") s = None -> rmatch async_opt s k = k s.
Proof.
  intros H. unfold async_opt.
  change (rmatch (Opt ?r) ?t k)
    with (match rmatch r t k with Some x => Some x | None => k t end).
  now rewrite lit_mismatch.
Qed.

Lemma name_paren_skips (name tail : pystr) :
  Forall (fun c => ascii_word_char c = true) name ->
  forall (B : Type) l (k' : pystr -> option B),
    In l [str "async"; str "public"; str "private"; str "protected"] ->
    rmatch (Seq (Lit l) sp) (name ++ 40%N :: tail) k' = None.
Proof.
  intros Hname B l k' Hl. apply lit_then_space_fails. intros s' Hs'.
  apply (name_paren_no_space l) with (name := name) (tail := tail);
    [|assumption|assumption].
  simpl in Hl.
  repeat (destruct Hl as [<-|Hl]; [vm_compute; intuition discriminate|]).
  contradiction.
Qed.

Lemma async_skips {A} (name tail : pystr) (k : pystr -> option A) :
  Forall (fun c => ascii_word_char c = true) name ->
  rmatch async_opt (name ++ 40%N :: tail) k = k (name ++ 40%N :: tail).
Proof.
  intros Hname. unfold async_opt.
  change (rmatch (Opt ?r) ?t k)
    with (match rmatch r t k with Some x => Some x | None => k t end).
  rewrite (name_paren_skips tail Hname) by (simpl; auto). reflexivity.
Qed.

Lemma visibility_skips {A} (name tail : pystr) (k : pystr -> option A) :
  Forall (fun c => ascii_word_char c = true) name ->
  rmatch visibility_opt (name ++ 40%N :: tail) k = k (name ++ 40%N :: tail).
Proof.
  intros Hname. unfold visibility_opt.
  change (rmatch (Opt (?a || ?b || ?c)%re) ?t k)
    with (match
            match
              match rmatch a t k with
              | Some x => Some x
              | None => rmatch b t k
              end
            with
            | Some x => Some x
            | None => rmatch c t k
            end
          with
          | Some x => Some x
          | None => k t
          end).
  rewrite !(name_paren_skips tail Hname) by (simpl; auto). reflexivity.
Qed.

Lemma method_pre_modifier {A} (modifier name tail : pystr)
  (k : pystr -> option A) (a : A) :
  In modifier method_modifiers ->
  Forall (fun c => ascii_word_char c = true) name ->
  k (name ++ 40%N :: tail) = Some a ->
  rmatch (pre method_pattern) (modifier ++ name ++ 40%N :: tail) k = Some a.
Proof.
  intros Hm Hname Hk.
  assert (Hs : no_space_ahead (name ++ 40%N :: tail)).
  { destruct Hname as [|c name Hc _]; simpl; [reflexivity|].
    now apply ascii_word_no_space. }
  assert (V : forall v, In v [str "public"; str "private"; str "protected"] ->
            rmatch visibility_opt (v ++ 32%N :: name ++ 40%N :: tail) k = Some a).
  { intros v Hv. now apply visibility_taken. }
  assert (V0 : rmatch visibility_opt (name ++ 40%N :: tail) k = Some a).
  { now rewrite visibility_skips. }
  rewrite method_pre_split. unfold method_modifiers in Hm. simpl in Hm.
  destruct Hm as [<-|[<-|[<-|[<-|[<-|[<-|[<-|[<-|[]]]]]]]]].
  - simpl app. now rewrite async_skips.
  - change (str "async " ++ name ++ 40%N :: tail)
      with (str "async" ++ 32%N :: name ++ 40%N :: tail).
    now apply async_taken.
  - rewrite async_absent by reflexivity.
    apply (V (str "public")). simpl. auto.
  - rewrite async_absent by reflexivity.
    apply (V (str "private")). simpl. auto.
  - rewrite async_absent by reflexivity.
    apply (V (str "protected")). simpl. auto.
  - change (str "async public " ++ name ++ 40%N :: tail)
      with (str "async" ++ 32%N :: str "public" ++ 32%N :: name ++ 40%N :: tail).
    apply async_taken; [reflexivity|]. apply (V (str "public")). simpl. auto.
  - change (str "async private " ++ name ++ 40%N :: tail)
      with (str "async" ++ 32%N :: str "private" ++ 32%N :: name ++ 40%N :: tail).
    apply async_taken; [reflexivity|]. apply (V (str "private")). simpl. auto.
  - change (str "async protected " ++ name ++ 40%N :: tail)
      with (str "async" ++ 32%N :: str "protected" ++ 32%N :: name ++ 40%N :: tail).
    apply async_taken; [reflexivity|]. apply (V (str "protected")). simpl. auto.
Qed.

Lemma method_header_matches (modifier name params rest : pystr) :
  In modifier method_modifiers ->
  ascii_identifier name ->
  Forall (fun c => (c =? 41)%N = false) params ->
  exists e,
    match_at method_pattern
      (modifier ++ name ++ 40%N :: params ++ str ") {" ++ rest) 0
    = Some {| m_start := 0; m_end := e; m_group1 := name |}.
Proof.
  intros Hm Hn Hp. eexists. unfold match_at.
  apply method_pre_modifier; [assumption | apply Hn |].
  rewrite (method_core rest
             (fun s1 s2 s3 =>
                {| m_start := 0;
                   m_end := 0 + (length (modifier ++ name ++ 40%N :: params
                                         ++ str ") {" ++ rest) - length s3);
                   m_group1 := firstn (length s1 - length s2) s1 |}) Hn Hp).
  f_equal. f_equal.
  apply (firstn_consumed name (40%N :: params ++ str ") {" ++ rest)).
Qed.
End MethodRecognition.

Section MoreRecognition.
Context {U : UnicodeDB}.

Lemma tagged_header_matches (p : pattern) (keyword modifier name rest : pystr) :
  (p = interface_pattern /\ keyword = str "interface "
   \/ p = type_pattern /\ keyword = str "type ") ->
  In modifier [[]; str "export "] ->
  ascii_identifier name -> ends_word rest ->
  exists e,
    match_at p (modifier ++ keyword ++ name ++ rest) 0
    = Some {| m_start := 0; m_end := e; m_group1 := name |}.
Proof.
  intros Hp Hm [Hne Hall] Hrest. destruct name as [|c name]; [congruence|].
  inversion Hall as [|? ? Hc Hname]; subst.
  assert (Run : Forall (fun x => cls_mem CWord x = true) name).
  { eapply Forall_impl; [|exact Hname]. intros x. apply ascii_word_is_word. }
  assert (Cut : firstn (length ((c :: name) ++ rest) - length rest)
                  ((c :: name) ++ rest) = c :: name)
    by apply firstn_consumed.
  simpl in Hm.
  destruct Hp as [[-> ->]|[-> ->]];
    repeat (destruct Hm as [<-|Hm];
            [eexists; unfold match_at; cbn;
             rewrite (ascii_word_no_space c Hc), (ascii_word_is_word c Hc);
             (erewrite star_match_run; [reflexivity|exact Run|exact Hrest|]);
             cbn; f_equal; f_equal; exact Cut|]);
    contradiction.
Qed.

Lemma bare_import_matches (q1 q2 : char) (module rest : pystr) :
  In q1 quotes -> In q2 quotes ->
  module <> [] -> Forall (fun c => char_in c quotes = false) module ->
  exists e,
    match_at import_pattern2
      (str "import " ++ q1 :: module ++ q2 :: rest) 0
    = Some {| m_start := 0; m_end := e; m_group1 := module |}.
Proof.
  intros H1 H2 Hne Hall. destruct module as [|c module]; [congruence|].
  inversion Hall as [|? ? Hc Hmod]; subst.
  assert (Run : Forall (fun x => cls_mem (CNoneOf quotes) x = true) module).
  { eapply Forall_impl; [|exact Hmod]. intros x Hx. unfold cls_mem.
    now rewrite Hx. }
  assert (Cut : firstn (length ((c :: module) ++ q2 :: rest)
                        - length (q2 :: rest))
                  ((c :: module) ++ q2 :: rest) = c :: module)
    by apply firstn_consumed.
  assert (Hc' : cls_mem (CNoneOf quotes) c = true)
    by (unfold cls_mem; now rewrite Hc).
  simpl in H1, H2.
  destruct H1 as [<-|[<-|[]]]; destruct H2 as [<-|[<-|[]]];
    (eexists; unfold match_at; cbn in Hc; cbn; rewrite Hc; cbn [negb];
     (erewrite star_match_run; [reflexivity|exact Run|reflexivity|]);
     cbn; f_equal; f_equal; exact Cut).
Qed.

Lemma ascii_word_char_not (c x : char) :
  ascii_word_char c = true -> ascii_word_char x = false -> (c =? x)%N = false.
Proof.
  intros Hc Hx. apply N.eqb_neq. intros ->. congruence.
Qed.

Lemma default_import_matches (q1 q2 : char) (name module rest : pystr) :
  In q1 quotes -> In q2 quotes ->
  ascii_identifier name ->
  module <> [] -> Forall (fun c => char_in c quotes = false) module ->
  exists e,
    match_at import_pattern
      (str "import " ++ name ++ str " from " ++ q1 :: module ++ q2 :: rest) 0
    = Some {| m_start := 0; m_end := e; m_group1 := module |}.
Proof.
  intros H1 H2 [Hnn Hname] Hne Hall.
  destruct module as [|c module]; [congruence|].
  inversion Hall as [|? ? Hc Hmod]; subst.
  destruct name as [|n name]; [congruence|].
  inversion Hname as [|? ? Hn Hname']; subst.
  assert (Run : Forall (fun x => cls_mem (CNoneOf quotes) x = true) module).
  { eapply Forall_impl; [|exact Hmod]. intros x Hx. unfold cls_mem.
    now rewrite Hx. }
  assert (RunN : Forall (fun x => cls_mem CWord x = true) name).
  { eapply Forall_impl; [|exact Hname']. intros x. apply ascii_word_is_word. }
  assert (Cut : firstn (length ((c :: module) ++ q2 :: rest)
                        - length (q2 :: rest))
                  ((c :: module) ++ q2 :: rest) = c :: module)
    by apply firstn_consumed.
  pose proof (ascii_word_char_not n 123%N Hn eq_refl) as E1.
  pose proof (ascii_word_char_not n 42%N Hn eq_refl) as E2.
  simpl in H1, H2.
  destruct H1 as [<-|[<-|[]]]; destruct H2 as [<-|[<-|[]]];
    (eexists; unfold match_at; cbn in Hc; cbn; rewrite E1, E2;
     rewrite (ascii_word_no_space n Hn), (ascii_word_is_word n Hn);
     (erewrite star_match_run; [reflexivity|exact RunN|reflexivity|]);
     cbn; rewrite Hc; cbn [negb];
     (erewrite star_match_run; [reflexivity|exact Run|reflexivity|]);
     cbn; f_equal; f_equal; exact Cut).
Qed.

Lemma named_import_matches (q1 q2 : char) (inner module rest : pystr) :
  In q1 quotes -> In q2 quotes ->
  inner <> [] -> Forall (fun c => (c =? 125)%N = false) inner ->
  module <> [] -> Forall (fun c => char_in c quotes = false) module ->
  exists e,
    match_at import_pattern
      (str "import {" ++ inner ++ str "} from " ++ q1 :: module ++ q2 :: rest) 0
    = Some {| m_start := 0; m_end := e; m_group1 := module |}.
Proof.
  intros H1 H2 Hni Hinner Hne Hall.
  destruct module as [|c module]; [congruence|].
  inversion Hall as [|? ? Hc Hmod]; subst.
  destruct inner as [|i inner]; [congruence|].
  inversion Hinner as [|? ? Hi Hinner']; subst.
  assert (Run : Forall (fun x => cls_mem (CNoneOf quotes) x = true) module).
  { eapply Forall_impl; [|exact Hmod]. intros x Hx. unfold cls_mem.
    now rewrite Hx. }
  assert (RunI : Forall (fun x => cls_mem (CNoneOf (str "}")) x = true) inner).
  { eapply Forall_impl; [|exact Hinner']. intros x Hx. cbn. now rewrite Hx. }
  assert (Cut : firstn (length ((c :: module) ++ q2 :: rest)
                        - length (q2 :: rest))
                  ((c :: module) ++ q2 :: rest) = c :: module)
    by apply firstn_consumed.
  simpl in H1, H2.
  destruct H1 as [<-|[<-|[]]]; destruct H2 as [<-|[<-|[]]];
    (eexists; unfold match_at; cbn in Hc; cbn; rewrite Hi; cbn [orb negb];
     (erewrite star_match_run; [reflexivity|exact RunI|reflexivity|]);
     cbn; rewrite Hc; cbn [negb];
     (erewrite star_match_run; [reflexivity|exact Run|reflexivity|]);
     cbn; f_equal; f_equal; exact Cut).
Qed.
End MoreRecognition.

Section RecognitionClaims2.
Context {U : UnicodeDB} {O : SetOrder}.
Variable self : FrameworkAnalyzer.

Lemma captured_at_head (p : pattern) (content name : pystr) :
  (exists e, match_at p content 0
             = Some {| m_start := 0; m_end := e; m_group1 := name |}) ->
  In name (map m_group1 (finditer p content)).
Proof.
  intros (e & H). apply finditer_head in H. apply in_map_iff.
  eexists. split; [|exact H]. reflexivity.
Qed.

(** X23.  A class body that begins with a member declaration, with or without
    [async] and a visibility keyword, has the member name in the result
    exactly when the name is not reserved: the name is reported, not the
    modifier. *)
Theorem method_declaration_recognised (modifier name params rest : pystr) :
  In modifier method_modifiers ->
  ascii_identifier name ->
  Forall (fun c => (c =? 41)%N = false) params ->
  In name
    (_extract_class_methods self
       (modifier ++ name ++ str "(" ++ params ++ str ") {" ++ rest))
  <-> ~ In name method_reserved.
Proof.
  intros Hm Hn Hp. rewrite methods_In_iff. split; [tauto|]. intros Hr.
  split; [assumption|]. apply captured_at_head.
  exact (@method_header_matches U modifier name params rest Hm Hn Hp).
Qed.

(** X24.  A text that begins with an interface or a type declaration, with or
    without [export], has its tagged name in the result. *)
Theorem tagged_declaration_recognised (modifier name rest : pystr) :
  In modifier [[]; str "export "] ->
  ascii_identifier name -> ends_word rest ->
  In (str "interface " ++ name)
    (_extract_interfaces self (modifier ++ str "interface " ++ name ++ rest))
  /\ In (str "type " ++ name)
       (_extract_interfaces self (modifier ++ str "type " ++ name ++ rest)).
Proof.
  intros Hm Hn Hr. unfold _extract_interfaces. rewrite !append_all_eq.
  simpl app. split; apply in_or_app; [left|right]; apply in_map_iff.
  - destruct (@tagged_header_matches U interface_pattern (str "interface ")
                modifier name rest (or_introl (conj eq_refl eq_refl)) Hm Hn Hr)
      as (e & H).
    apply finditer_head in H. eexists. split; [|exact H]. reflexivity.
  - destruct (@tagged_header_matches U type_pattern (str "type ")
                modifier name rest (or_intror (conj eq_refl eq_refl)) Hm Hn Hr)
      as (e & H).
    apply finditer_head in H. eexists. split; [|exact H]. reflexivity.
Qed.

(** X25.  A text that begins with an import, in the side-effect-only form, with
    a default name or with a braced list, has the module in the result; the
    opening and the closing quote need not be the same character. *)
Theorem import_forms_recognised (q1 q2 : char) (module rest : pystr) :
  In q1 quotes -> In q2 quotes ->
  module <> [] -> Forall (fun c => char_in c quotes = false) module ->
  In module
    (_extract_imports self (str "import " ++ q1 :: module ++ q2 :: rest))
  /\ (forall name,
        ascii_identifier name ->
        In module
          (_extract_imports self
             (str "import " ++ name ++ str " from "
              ++ q1 :: module ++ q2 :: rest)))
  /\ (forall inner,
        inner <> [] -> Forall (fun c => (c =? 125)%N = false) inner ->
        In module
          (_extract_imports self
             (str "import {" ++ inner ++ str "} from "
              ++ q1 :: module ++ q2 :: rest))).
Proof.
  intros H1 H2 Hne Hall. split; [|split].
  - apply imports_In_iff. right. apply captured_at_head.
    exact (@bare_import_matches U q1 q2 module rest H1 H2 Hne Hall).
  - intros name Hn. apply imports_In_iff. left. apply captured_at_head.
    exact (@default_import_matches U q1 q2 name module rest H1 H2 Hn Hne Hall).
  - intros inner Hi Hin. apply imports_In_iff. left. apply captured_at_head.
    exact (@named_import_matches U q1 q2 inner module rest H1 H2 Hi Hin Hne Hall).
Qed.
End RecognitionClaims2.

(** ** Icons *)

Lemma dict_get_Some_In {V} (d : dict V) (k : pystr) (v : V) :
  dict_get d k = Some v -> In (k, v) d.
Proof.
  induction d as [|[k' v'] d IH]; simpl; [discriminate|].
  destruct (pystr_eqb k' k) eqn:E.
  - apply pystr_eqb_eq in E. intros H. inversion H; subst. now left.
  - intros H. right. now apply IH.
Qed.

Lemma dict_get_None_keys {V} (d : dict V) (k : pystr) :
  dict_get d k = None <-> ~ In k (dict_keys d).
Proof.
  induction d as [|[k' v'] d IH]; simpl; [tauto|].
  destruct (pystr_eqb k' k) eqn:E.
  - apply pystr_eqb_eq in E. split; [discriminate|]. intros H.
    exfalso. apply H. now left.
  - apply pystr_eqb_neq in E. rewrite IH. tauto.
Qed.

(** X26.  The icon of a suffix is the plain page exactly when the suffix is
    not in the table. *)
Theorem file_icon_default_iff (self : FrameworkAnalyzer) (suffix : pystr) :
  _get_file_icon self suffix = [128196%N] <-> ~ In suffix (dict_keys icons).
Proof.
  unfold _get_file_icon. destruct (dict_get icons suffix) as [icon|] eqn:E.
  - split.
    + intros ->. apply dict_get_Some_In in E. simpl in E.
      repeat (destruct E as [E|E]; [discriminate|]). contradiction.
    + intros H. exfalso. apply H.
      apply dict_get_Some_In in E. apply (in_map fst) in E. exact E.
  - split; [intros _|reflexivity]. now apply dict_get_None_keys.
Qed.

(** ** Concrete inputs for the further properties *)

Lemma redeclared_body_found :
  class_body_of redeclared_source 9 <> [].
Proof. vm_compute. discriminate. Qed.

Lemma class_body_braces_matched_witness :
  balanced (class_body_of redeclared_source 9)
  /\ nth_error redeclared_source
       (9 + length (class_body_of redeclared_source 9))
     = Some close_brace.
Proof.
  destruct (class_body_braces_matched redeclared_source 9 redeclared_body_found)
    as (H1 & _ & H3).
  split; [exact H1 | exact H3].
Defined.

Lemma foo_source_balanced : balanced foo_source.
Proof. apply balanced_iff_depth. vm_compute. reflexivity. Qed.

Lemma foo_header_balanced : balanced (firstn 9 foo_source).
Proof. apply balanced_iff_depth. vm_compute. reflexivity. Qed.

Lemma foo_match_found :
  @finditer ascii_db simple_class_pattern foo_source
  = [] ++ {| m_start := 0; m_end := 9; m_group1 := str "Foo" |} :: [].
Proof. vm_compute. reflexivity. Qed.

Lemma top_level_class_has_no_members_witness :
  @class_methods_of ascii_db first_seen_order (new_analyzer (str "."))
    foo_source {| m_start := 0; m_end := 9; m_group1 := str "Foo" |}
  = []
  /\ dict_get
       (@_extract_classes ascii_db first_seen_order (new_analyzer (str "."))
          foo_source)
       (str "Foo")
     = Some [].
Proof.
  destruct (@top_level_class_has_no_members ascii_db first_seen_order
              (new_analyzer (str ".")) foo_source []
              {| m_start := 0; m_end := 9; m_group1 := str "Foo" |} []
              foo_source_balanced foo_match_found foo_header_balanced)
    as (_ & H2 & _ & H4).
  split; [exact H2 | apply H4; intros m' []].
Defined.

Lemma block_rest_balanced : balanced (str " { a(){} } class A { b(){} } ").
Proof. apply balanced_iff_depth. vm_compute. reflexivity. Qed.

Lemma nested_class_body_runs_to_block_end_witness :
  @class_methods_of ascii_db first_seen_order (new_analyzer (str "."))
    (str "{ class A" ++ str " { a(){} } class A { b(){} } "
     ++ close_brace :: [])
    {| m_start := 2; m_end := 9; m_group1 := str "A" |}
  = @_extract_class_methods ascii_db first_seen_order (new_analyzer (str "."))
      (str " { a(){} } class A { b(){} } ").
Proof.
  exact (@nested_class_body_runs_to_block_end ascii_db first_seen_order
           (new_analyzer (str ".")) (str "{ class A")
           (str " { a(){} } class A { b(){} } ") []
           {| m_start := 2; m_end := 9; m_group1 := str "A" |}
           block_rest_balanced eq_refl).
Defined.

Lemma sample_names_distinct : NoDup (map entry_name sample_tree).
Proof.
  vm_compute. repeat constructor; simpl; intuition discriminate.
Qed.

Lemma print_tree_listing_order_witness :
  @print_tree ascii_db first_seen_order plain_paths
    (new_analyzer (str "/tmp/proj")) true sample_tree
  = @print_tree ascii_db first_seen_order plain_paths
      (new_analyzer (str "/tmp/proj")) true (rev sample_tree).
Proof.
  exact (proj1 (@print_tree_listing_order ascii_db first_seen_order plain_paths
                  (new_analyzer (str "/tmp/proj")) true sample_tree
                  (rev sample_tree) (Permutation_rev sample_tree)
                  sample_names_distinct)).
Defined.

Lemma summary_listing_order_witness :
  total_classes
    (@summary_totals ascii_db first_seen_order plain_paths
       (new_analyzer (str ".")) (FsDir [] true sample_tree))
  = total_classes
      (@summary_totals ascii_db first_seen_order plain_paths
         (new_analyzer (str ".")) (FsDir [] true (rev sample_tree))).
Proof.
  exact (proj1 (proj2
    (@summary_listing_order ascii_db first_seen_order plain_paths
       (new_analyzer (str ".")) [] sample_tree (rev sample_tree)
       (Permutation_rev sample_tree)))).
Defined.

Lemma widget_identifier : ascii_identifier (str "Widget").
Proof. split; [discriminate|]. repeat constructor. Qed.

Lemma load_identifier : ascii_identifier (str "load").
Proof. split; [discriminate|]. repeat constructor. Qed.

Lemma class_declaration_recognised_witness :
  In (str "Widget")
    (dict_keys
       (@_extract_classes ascii_db first_seen_order (new_analyzer (str "."))
          (str "export " ++ str "class " ++ str "Widget" ++ str " extends B {}"))).
Proof.
  apply class_declaration_recognised.
  - simpl. auto.
  - exact widget_identifier.
  - reflexivity.
Defined.

Lemma function_declaration_recognised_witness :
  In (str "load")
    (@_extract_functions ascii_db first_seen_order (new_analyzer (str "."))
       (str "export async " ++ str "function " ++ str "load" ++ str "("
        ++ str "url) { }")).
Proof.
  apply function_declaration_recognised.
  - simpl. auto 10.
  - exact load_identifier.
  - vm_compute. intuition discriminate.
Defined.

Lemma method_declaration_recognised_witness :
  In (str "load")
    (@_extract_class_methods ascii_db first_seen_order (new_analyzer (str "."))
       (str "async private " ++ str "load" ++ str "(" ++ str "a, b"
        ++ str ") {" ++ str " return 1; }")).
Proof.
  apply method_declaration_recognised.
  - unfold method_modifiers. simpl. auto 10.
  - exact load_identifier.
  - repeat constructor.
  - vm_compute. intuition discriminate.
Defined.

Lemma export_modifier : In (str "export ") [[]; str "export "].
Proof. right. now left. Qed.

Lemma braces_end_word : @ends_word ascii_db (str " {}").
Proof. reflexivity. Qed.

Lemma tagged_declaration_recognised_witness :
  In (str "interface " ++ str "Widget")
    (@_extract_interfaces ascii_db (new_analyzer (str "."))
       (str "export " ++ str "interface " ++ str "Widget" ++ str " {}")).
Proof.
  exact (proj1 (@tagged_declaration_recognised ascii_db
                  (new_analyzer (str "."))
                  (str "export ") (str "Widget") (str " {}")
                  export_modifier widget_identifier braces_end_word)).
Defined.

Lemma mod_unquoted : Forall (fun c => char_in c quotes = false) (str "mod").
Proof. repeat constructor. Qed.

Lemma mod_nonempty : str "mod" <> [].
Proof. discriminate. Qed.

Lemma import_forms_recognised_witness :
  In (str "mod")
    (@_extract_imports ascii_db (new_analyzer (str "."))
       (str "import " ++ 39%N :: str "mod" ++ 34%N :: str ";")).
Proof.
  exact (proj1 (@import_forms_recognised ascii_db (new_analyzer (str "."))
                  39%N 34%N (str "mod") (str ";")
                  (or_introl eq_refl) (or_intror (or_introl eq_refl))
                  mod_nonempty mod_unquoted)).
Defined.

(** * The process *)

Lemma fs_node_induction (Q : fs_node -> Prop) :
  (forall name text, Q (NodeFile name text)) ->
  (forall name how children,
      Forall Q children -> Q (NodeDir name how children)) ->
  forall n, Q n.
Proof.
  intros Hf Hd. fix IH 1. intros [name text|name how children].
  - apply Hf.
  - apply Hd. induction children as [|c cs IHcs]; constructor.
    + apply IH.
    + apply IHcs.
Qed.

Lemma as_entry_name (c : fs_node) : entry_name (as_entry c) = node_name c.
Proof. now destruct c. Qed.

Lemma as_entry_is_dir (c : fs_node) : entry_is_dir (as_entry c) = node_is_dir c.
Proof. now destruct c. Qed.

Lemma insert_by_map {A B} (f : A -> B) (ltb : B -> B -> bool) (x : A)
  (l : list A) :
  insert_by ltb (f x) (map f l)
  = map f (insert_by (fun a b => ltb (f a) (f b)) x l).
Proof.
  induction l as [|y l IH]; simpl; [reflexivity|].
  destruct (ltb (f y) (f x)); simpl; [now rewrite IH | reflexivity].
Qed.

Lemma sorted_by_map {A B} (f : A -> B) (ltb : B -> B -> bool) (l : list A) :
  sorted_by ltb (map f l) = map f (sorted_by (fun a b => ltb (f a) (f b)) l).
Proof.
  induction l as [|x l IH]; simpl; [reflexivity|].
  now rewrite IH, insert_by_map.
Qed.

Lemma sorted_by_ext {A} (f g : A -> A -> bool) (l : list A) :
  (forall a b, f a b = g a b) -> sorted_by f l = sorted_by g l.
Proof.
  intros E. induction l as [|x l IH]; simpl; [reflexivity|]. rewrite IH.
  generalize (sorted_by g l). intros s.
  induction s as [|y s IHs]; simpl; [reflexivity|].
  now rewrite E, IHs.
Qed.

Lemma filter_of_map {A B} (f : A -> B) (p : B -> bool) (l : list A) :
  filter p (map f l) = map f (filter (fun x => p (f x)) l).
Proof.
  induction l as [|x l IH]; simpl; [reflexivity|].
  destruct (p (f x)); simpl; now rewrite IH.
Qed.

Lemma print_all_run (texts : list pystr) :
  forall out, print_all texts out = (out ++ texts, Returned tt).
Proof.
  unfold print_all. induction texts as [|t texts IH]; intros out.
  - simpl. unfold ret. now rewrite app_nil_r.
  - cbn [for_each]. unfold bind at 1. unfold print at 1.
    rewrite IH, <- app_assoc. reflexivity.
Qed.

Lemma bind_print {B} (text : pystr) (k : unit -> prog B) (out : list pystr) :
  bind (print text) k out = k tt (out ++ [text]).
Proof. reflexivity. Qed.

Lemma bind_print_all {B} (texts : list pystr) (k : unit -> prog B)
  (out : list pystr) :
  bind (print_all texts) k out = k tt (out ++ texts).
Proof. unfold bind. now rewrite print_all_run. Qed.

Section ProcessFacts.
Context {U : UnicodeDB} {O : SetOrder} {P : PathLib}.
Variable self : FrameworkAnalyzer.

(** The order and the test of the loop, on the entries themselves. *)
Local Abbreviation node_ltb :=
  (fun a b : fs_node =>
     key_ltb (negb (node_is_dir a), node_name a)
             (negb (node_is_dir b), node_name b)).

Local Abbreviation visited children :=
  (filter (fun c => kept self (node_name c)) (sorted_by node_ltb children)).

(** What a run prints for an entry, against what [print_entry] gives for
    the tree in which the failing directories are denied ones. *)
Local Abbreviation node_spec :=
  (fun c : fs_node =>
     forall prefix is_last out,
       if raises self c
       then exists printed rest,
           print_node self c prefix is_last out
           = (out ++ printed, Raised OtherError)
           /\ print_entry self (as_entry c) prefix is_last = printed ++ rest
           /\ rest <> []
       else print_node self c prefix is_last out
            = (out ++ print_entry self (as_entry c) prefix is_last,
               Returned tt)).

Lemma print_node_dir (name : pystr) (how : listed) (children : list fs_node)
  (prefix : pystr) (is_last : bool) (out : list pystr) :
  print_node self (NodeDir name how children) prefix is_last out
  = print_tree_from self how (map (as_shown_io self) children)
      (prefix ++ extension is_last)
      (out ++ [prefix ++ connector is_last ++ [128193; 32]%N ++ name
               ++ str "/"]).
Proof. reflexivity. Qed.

Lemma visited_io (children : list fs_node) :
  filter (fun e => negb (py_in (io_name e) (ignore_dirs self))
                   && negb (py_in (io_name e) (ignore_files self)))
    (sorted_by (fun a b => key_ltb (io_key a) (io_key b))
       (map (as_shown_io self) children))
  = map (as_shown_io self) (visited children).
Proof. now rewrite sorted_by_map, filter_of_map. Qed.

Lemma visited_pure (children : list fs_node) :
  filter (fun e => negb (py_in (sh_name e) (ignore_dirs self))
                   && negb (py_in (sh_name e) (ignore_files self)))
    (sorted_by (fun a b => key_ltb (sh_key a) (sh_key b))
       (map (as_shown self) (map as_entry children)))
  = map (fun c => as_shown self (as_entry c)) (visited children).
Proof.
  rewrite map_map, sorted_by_map, filter_of_map. f_equal.
  rewrite (sorted_by_ext
             (fun a b => key_ltb (sh_key (as_shown self (as_entry a)))
                           (sh_key (as_shown self (as_entry b))))
             node_ltb).
  - apply filter_ext. intros c. unfold kept. simpl.
    now rewrite as_entry_name.
  - intros a b. unfold sh_key. simpl.
    now rewrite !as_entry_name, !as_entry_is_dir.
Qed.

Lemma print_tree_from_listed (children : list fs_node) (prefix : pystr)
  (out : list pystr) :
  print_tree_from self Listed (map (as_shown_io self) children) prefix out
  = try_except_PermissionError
      (for_each
         (combine (seq 0 (length (visited children)))
            (map (as_shown_io self) (visited children)))
         (fun '(i, entry) =>
            io_print entry prefix (i =? length (visited children) - 1)))
      (print (prefix ++ str "[Permission Denied]")) out.
Proof.
  unfold print_tree_from, try_except_PermissionError, iterdir.
  unfold bind at 1. unfold ret at 1. unfold enumerate.
  rewrite visited_io, length_map. reflexivity.
Qed.

Lemma print_tree_in_listed (children : list fs_node) (prefix : pystr) :
  print_tree_in self true (map (as_shown self) (map as_entry children)) prefix
  = concat
      (map (fun '(i, entry) =>
              sh_print entry prefix (i =? length (visited children) - 1))
         (combine (seq 0 (length (visited children)))
            (map (fun c => as_shown self (as_entry c)) (visited children)))).
Proof.
  unfold print_tree_in, enumerate.
  rewrite visited_pure, length_map. reflexivity.
Qed.

(** The loop over the entries: it runs until the first entry that raises. *)
Lemma loop_spec (prefix : pystr) (n : nat) (cs : list fs_node) :
  Forall node_spec cs ->
  forall start out,
    if existsb (raises self) cs
    then exists printed rest,
        for_each (combine (seq start (length cs)) (map (as_shown_io self) cs))
          (fun '(i, entry) => io_print entry prefix (i =? n)) out
        = (out ++ printed, Raised OtherError)
        /\ concat
             (map (fun '(i, entry) => sh_print entry prefix (i =? n))
                (combine (seq start (length cs))
                   (map (fun c => as_shown self (as_entry c)) cs)))
           = printed ++ rest
        /\ rest <> []
    else for_each (combine (seq start (length cs)) (map (as_shown_io self) cs))
           (fun '(i, entry) => io_print entry prefix (i =? n)) out
         = (out ++ concat
                     (map (fun '(i, entry) => sh_print entry prefix (i =? n))
                        (combine (seq start (length cs))
                           (map (fun c => as_shown self (as_entry c)) cs))),
            Returned tt).
Proof.
  induction 1 as [|c cs Hc Hcs IH]; intros start out.
  - simpl. unfold ret. now rewrite app_nil_r.
  - cbn [existsb length seq map combine for_each concat].
    specialize (Hc prefix (start =? n) out).
    cbn [as_shown_io io_print as_shown sh_print].
    destruct (raises self c).
    + destruct Hc as (printed & rest & Hc & Hp & Hr). cbn [orb].
      unfold bind at 1. rewrite Hc.
      exists printed, (rest ++ concat
                         (map (fun '(i, entry) => sh_print entry prefix (i =? n))
                            (combine (seq (S start) (length cs))
                               (map (fun c => as_shown self (as_entry c)) cs)))).
      split; [reflexivity|]. split.
      * rewrite Hp. now rewrite <- app_assoc.
      * destruct rest; [congruence | discriminate].
    + cbn [orb]. unfold bind. rewrite Hc.
      specialize (IH (S start)
                    (out ++ print_entry self (as_entry c) prefix (start =? n))).
      destruct (existsb (raises self) cs).
      * destruct IH as (printed & rest & -> & Hp & Hr).
        exists (print_entry self (as_entry c) prefix (start =? n) ++ printed),
          rest.
        split; [now rewrite <- app_assoc|]. split; [|assumption].
        rewrite Hp. now rewrite <- app_assoc.
      * rewrite IH. now rewrite <- app_assoc.
Qed.

Lemma visited_raises (children : list fs_node) :
  existsb (raises self) (visited children)
  = existsb (fun e => kept self (fst e) && snd e)
      (map (fun c => (node_name c, raises self c)) children).
Proof.
  apply eq_true_iff_eq. rewrite !existsb_exists. split.
  - intros (c & Hc & Hr). apply filter_In in Hc. destruct Hc as [Hc Hk].
    apply (proj1 (@sorted_by_In _ _ (fun c => (negb (node_is_dir c), node_name c))
                    key_ltb c children)) in Hc.
    exists (node_name c, raises self c). split.
    + apply in_map_iff. now exists c.
    + simpl. now rewrite Hk, Hr.
  - intros (e & He & Hr). apply in_map_iff in He.
    destruct He as (c & <- & Hc). simpl in Hr.
    apply andb_true_iff in Hr. destruct Hr as [Hk Hr].
    exists c. split; [|assumption]. apply filter_In. split; [|assumption].
    now apply (proj2 (@sorted_by_In _ _
                        (fun c => (negb (node_is_dir c), node_name c))
                        key_ltb c children)).
Qed.

Lemma visited_Forall (Q : fs_node -> Prop) (children : list fs_node) :
  Forall Q children -> Forall Q (visited children).
Proof.
  intros H. apply Forall_forall. intros c Hc.
  apply filter_In in Hc. destruct Hc as [Hc _].
  apply (proj1 (@sorted_by_In _ _ (fun c => (negb (node_is_dir c), node_name c))
                  key_ltb c children)) in Hc.
  rewrite Forall_forall in H. now apply H.
Qed.

(** One directory, given its entries. *)
Lemma print_tree_from_spec (how : listed) (children : list fs_node)
  (prefix : pystr) (out : list pystr) :
  Forall node_spec children ->
  if tree_raises self how children
  then exists printed rest,
      print_tree_from self how (map (as_shown_io self) children) prefix out
      = (out ++ printed, Raised OtherError)
      /\ print_tree_in self (can_list how)
           (map (as_shown self) (map as_entry children)) prefix
         = printed ++ rest
      /\ rest <> []
  else print_tree_from self how (map (as_shown_io self) children) prefix out
       = (out ++ print_tree_in self (can_list how)
                   (map (as_shown self) (map as_entry children)) prefix,
          Returned tt).
Proof.
  intros IH. destruct how.
  - unfold tree_raises, raises_from. rewrite <- visited_raises.
    rewrite print_tree_from_listed. cbn [can_list].
    rewrite print_tree_in_listed.
    pose proof (loop_spec prefix (length (visited children) - 1)
                  (visited_Forall IH) 0 out) as L.
    unfold try_except_PermissionError.
    destruct (existsb (raises self) (visited children)).
    + destruct L as (printed & rest & E & Hp & Hr).
      exists printed, rest. rewrite E. auto.
    + now rewrite L.
  - reflexivity.
  - exists [], [prefix ++ str "[Permission Denied]"].
    split; [|split; [reflexivity | discriminate]].
    unfold print_tree_from, try_except_PermissionError, iterdir.
    unfold bind, raise. now rewrite app_nil_r.
Qed.

Lemma print_node_spec (n : fs_node) : node_spec n.
Proof.
  induction n as [name text|name how children IH] using fs_node_induction;
    intros prefix is_last out.
  - cbn [raises print_node as_entry print_entry].
    rewrite bind_print.
    destruct (py_in (path_suffix name) (file_extensions self)).
    + rewrite print_all_run, <- app_assoc. reflexivity.
    + reflexivity.
  - rewrite print_node_dir. cbn [as_entry].
    rewrite print_entry_dir.
    change (raises self (NodeDir name how children))
      with (tree_raises self how children).
    pose proof (print_tree_from_spec how (prefix ++ extension is_last)
                  (out ++ [prefix ++ connector is_last ++ [128193; 32]%N
                           ++ name ++ str "/"]) IH) as S.
    destruct (tree_raises self how children).
    + destruct S as (printed & rest & E & Hp & Hr).
      exists ((prefix ++ connector is_last ++ [128193; 32]%N ++ name ++ str "/")
              :: printed), rest.
      rewrite E, Hp, <- app_assoc. auto.
    + rewrite S, <- app_assoc. reflexivity.
Qed.

(** [print_tree()] on the root: it returns with the whole tree printed, or
    an exception escapes it and what is printed is the beginning of the
    tree. *)
Lemma print_tree_io_spec (how : listed) (children : list fs_node)
  (out : list pystr) :
  if tree_raises self how children
  then exists printed rest,
      print_tree_io self how children out = (out ++ printed, Raised OtherError)
      /\ print_tree self (can_list how) (map as_entry children)
         = printed ++ rest
      /\ rest <> []
  else print_tree_io self how children out
       = (out ++ print_tree self (can_list how) (map as_entry children),
          Returned tt).
Proof.
  unfold print_tree_io, print_tree. rewrite !bind_print.
  assert (IH : Forall node_spec children).
  { apply Forall_forall. intros c _. apply print_node_spec. }
  pose proof (print_tree_from_spec how []
                ((out ++ [[10; 128194; 32]%N ++ path_name (root_path self)
                          ++ str "/"]) ++ [repeat 61%N 80]) IH) as S.
  destruct (tree_raises self how children).
  - destruct S as (printed & rest & E & Hp & Hr).
    exists ([ [10; 128194; 32]%N ++ path_name (root_path self) ++ str "/";
              repeat 61%N 80 ] ++ printed), rest.
    split; [|split; [|exact Hr]].
    + etransitivity; [exact E|]. now rewrite <- !app_assoc.
    + rewrite <- app_assoc. f_equal. exact Hp.
  - etransitivity; [exact S|]. now rewrite <- !app_assoc.
Qed.
End ProcessFacts.

Section MainFacts.
Context {U : UnicodeDB} {O : SetOrder} {P : PathLib} {L : CaseMap} {os : OS}.

(** [main] once the directory is chosen. *)
Lemma main_on_target (argv : list pystr) (target_dir : Path) :
  choose_target argv [] = ([], Returned target_dir) ->
  let analyzer := new_analyzer (path_str target_dir) in
  let tree :=
    print_tree analyzer (can_list (dir_listed target_dir))
      (map as_entry (dir_entries target_dir)) in
  if tree_raises analyzer (dir_listed target_dir) (dir_entries target_dir)
  then exists printed rest,
      run_main argv = (opening target_dir ++ printed, 1%Z)
      /\ tree = printed ++ rest /\ rest <> []
  else run_main argv
       = (opening target_dir ++ tree
          ++ generate_summary analyzer (root_entry target_dir) ++ closing,
          0%Z).
Proof.
  intros Ht. cbv zeta.
  pose proof (print_tree_io_spec (new_analyzer (path_str target_dir))
                (dir_listed target_dir) (dir_entries target_dir)
                (opening target_dir)) as S.
  assert (M : main argv []
              = bind (print_tree_io (new_analyzer (path_str target_dir))
                        (dir_listed target_dir) (dir_entries target_dir))
                  (fun _ =>
                     bind (print_all
                             (generate_summary
                                (new_analyzer (path_str target_dir))
                                (root_entry target_dir)))
                       (fun _ => print_all closing))
                  (opening target_dir)).
  { unfold main. unfold bind at 1. rewrite Ht. reflexivity. }
  unfold run_main. rewrite M. clear M.
  destruct (tree_raises (new_analyzer (path_str target_dir))
              (dir_listed target_dir) (dir_entries target_dir)).
  - destruct S as (printed & rest & E & Hp & Hr).
    exists printed, rest. unfold bind at 1. rewrite E. auto.
  - unfold bind at 1. rewrite S. rewrite bind_print_all, print_all_run.
    rewrite <- !app_assoc. reflexivity.
Qed.
End MainFacts.

Section MainClaims.
Context {U : UnicodeDB} {O : SetOrder} {P : PathLib} {L : CaseMap} {os : OS}.

Lemma choose_target_bad (argv : list pystr) :
  1 < length argv ->
  path_exists (mk_path (nth 1 argv [])) = false
  \/ path_is_dir (mk_path (nth 1 argv [])) = false ->
  exists text, main argv [] = ([text], Exited 1%Z).
Proof.
  intros Hlen Hbad. unfold main, choose_target.
  apply Nat.ltb_lt in Hlen. rewrite Hlen.
  destruct (path_exists (mk_path (nth 1 argv []))) eqn:E; cbn [negb].
  - destruct Hbad as [Hbad|Hbad]; [discriminate|]. rewrite Hbad. cbn [negb].
    eexists. reflexivity.
  - eexists. reflexivity.
Qed.

Lemma choose_target_good (argv : list pystr) :
  length argv <= 1
  \/ path_exists (mk_path (nth 1 argv [])) = true
     /\ path_is_dir (mk_path (nth 1 argv [])) = true ->
  choose_target argv [] = ([], Returned (target_of argv)).
Proof.
  intros Hok. unfold choose_target, target_of.
  destruct (1 <? length argv) eqn:Hlen; [|reflexivity].
  destruct Hok as [Hok|[He Hd]]; [apply Nat.ltb_lt in Hlen; lia|].
  now rewrite He, Hd.
Qed.

End MainClaims.

Lemma sample_tree_does_not_raise :
  tree_raises (new_analyzer (str "src")) Listed (map as_node sample_tree)
  = false.
Proof. vm_compute. reflexivity. Qed.

Lemma failing_directory_raises :
  tree_raises (new_analyzer (str "src")) Listed
    (map as_node sample_tree ++ [NodeDir (str "gone") Failed []])
  = true.
Proof. vm_compute. reflexivity. Qed.


